(** * cheki-uki: unit conversion, ingredient scaling and the recipe query pipeline

    A shallow embedding of [src/lib/utils.ts] ([convertUnits],
    [scaleIngredientQuantity]) and of the mock query pipeline of
    [src/lib/api.ts] ([getMockRecipes]: filter, sort, paginate), followed by
    the properties of the specification that concern them.

    Conventions of the embedding.
    - A JavaScript string is a [string] (its bytes in UTF-8); the degree sign
      of ['°C'] is the two bytes C2 B0.
    - A JavaScript [number] that holds a physical quantity is an exact
      rational [Q]: the arithmetic of the source is read over the rationals
      and the error of the binary64 operations is outside the model.  Results
      are therefore compared with [==].
      [NaN] and the infinities are no values of the model; they arise in the
      source only from a division by 0 servings.
      Where that error decides the result, at a tie of the rounding, the
      module [Double] computes [scaleIngredientQuantity] in binary64.
    - A [number] that holds a count (minutes, limit, offset) is a [Z].
    - An optional field or argument is an [option]; [undefined] is [None].
    - The built-in functions the source calls ([toLowerCase], [includes],
      [split], [slice], [sort], [Math.round], [new Date]) are modelled in
      [JS]; what the language leaves to the engine is a parameter. *)

From Stdlib Require Import ZArith QArith Qround Qabs Lia Lqa.
From Stdlib Require Import List String Ascii Bool.
From Stdlib Require Import Permutation Sorted OrderedTypeEx.
From Stdlib Require SpecFloat.
Import ListNotations.

Local Open Scope string_scope.

(** ** The JavaScript primitives the two source files rely on *)

Module JS.

(** [String.prototype.toLowerCase], character by character.  The model maps
    the ASCII capitals to their small letters and leaves every other byte as
    it is, which is what JavaScript does on every string whose non-ASCII
    characters have no lower-case form (the degree sign is one). *)
Definition lower_ascii (c : ascii) : ascii :=
  let n := N_of_ascii c in
  if ((65 <=? n) && (n <=? 90))%N then ascii_of_N (n + 32) else c.

Fixpoint toLowerCase (s : string) : string :=
  match s with
  | EmptyString => EmptyString
  | String c r => String (lower_ascii c) (toLowerCase r)
  end.

(** The names of the properties of [Object.prototype] (ECMA-262, 20.1.3 and
    B.2.2), which every object written as a literal inherits. *)
Definition Object_prototype_names : list string :=
  ["constructor"; "hasOwnProperty"; "isPrototypeOf"; "propertyIsEnumerable";
   "toLocaleString"; "toString"; "valueOf"; "__proto__";
   "__defineGetter__"; "__defineSetter__"; "__lookupGetter__"; "__lookupSetter__"].

(** [s.startsWith(t)]; used by [includes] below. *)
Fixpoint startsWith (s t : string) : bool :=
  match t, s with
  | EmptyString, _ => true
  | String _ _, EmptyString => false
  | String b t', String a s' => Ascii.eqb a b && startsWith s' t'
  end.

(** [String.prototype.includes]: [t] occurs in [s] at some position. *)
Fixpoint includes (s t : string) : bool :=
  startsWith s t ||
  match s with
  | EmptyString => false
  | String _ s' => includes s' t
  end.

(** [Math.round]: the integer nearest to [x], a tie going up. *)
Definition Math_round (x : Q) : Q := inject_Z (Qfloor (x + (1 # 2))).

(** [Math.ceil]. *)
Definition Math_ceil (x : Q) : Z := Qceiling x.

(** [Array.prototype.some] and [Array.prototype.includes] on an array of
    strings ([includes] compares with [===], equality of strings). *)
Definition some {A : Type} (p : A -> bool) (l : list A) : bool := existsb p l.

Definition array_includes (l : list string) (x : string) : bool :=
  existsb (String.eqb x) l.

(** [s.split(sep)] for a separator of one character: the pieces between the
    occurrences of [sep]; a string without [sep] is its own single piece. *)
Fixpoint split (sep : ascii) (s : string) : list string :=
  match s with
  | EmptyString => [EmptyString]
  | String c r =>
      if Ascii.eqb c sep then EmptyString :: split sep r
      else match split sep r with
           | [] => [String c EmptyString]
           | piece :: pieces => String c piece :: pieces
           end
  end.

(** [l.join(sep)]. *)
Definition join (sep : string) (l : list string) : string := String.concat sep l.

(** [Array.prototype.slice(start, end)] with integer arguments: a negative
    index counts from the end, both indices are clamped to the array, and an
    [undefined] end is the length. *)
Definition relative_index (len k : Z) : Z :=
  if (k <? 0)%Z then Z.max (len + k) 0 else Z.min k len.

Definition slice {A : Type} (l : list A) (start : Z) (end_ : option Z) : list A :=
  let len := Z.of_nat (List.length l) in
  let k := relative_index len start in
  let final := match end_ with
               | None => len
               | Some e => relative_index len e
               end in
  firstn (Z.to_nat (final - k)) (skipn (Z.to_nat k) l).

(** [Array.prototype.sort(comparefn)].  The language fixes the result for a
    consistent [comparefn]: the permutation that is in order and keeps equal
    elements in their input order (the sort is stable).  The model is the
    insertion sort that produces it: an element moves past those the
    comparison function places strictly before it.  For a [comparefn] that
    is not consistent the language leaves the order to the engine, and the
    model is one such engine. *)
Fixpoint insert {A : Type} (comparefn : A -> A -> Z) (x : A) (l : list A) : list A :=
  match l with
  | [] => [x]
  | y :: l' =>
      if (0 <? comparefn x y)%Z then y :: insert comparefn x l'
      else x :: l
  end.

Definition sort {A : Type} (comparefn : A -> A -> Z) (l : list A) : list A :=
  fold_right (insert comparefn) [] l.

(** *** Dates

    A [Date] is its time value, the milliseconds since 1 January 1970 UTC;
    [None] is the time value [NaN] of an invalid date. *)

Definition TimeValue : Set := option Z.

Definition InLeapYear (y : Z) : bool :=
  ((y mod 4 =? 0) && negb (y mod 100 =? 0) || (y mod 400 =? 0))%Z.

Definition DayFromYear (y : Z) : Z :=
  (365 * (y - 1970) + (y - 1969) / 4 - (y - 1901) / 100 + (y - 1601) / 400)%Z.

Definition DaysInMonth (leap : bool) (m : Z) : Z :=
  if (m =? 2)%Z then (if leap then 29 else 28)%Z
  else if ((m =? 4) || (m =? 6) || (m =? 9) || (m =? 11))%Z then 30%Z
  else 31%Z.

(** The days of the year that precede month [m] (1 to 12). *)
Definition DaysBeforeMonth (leap : bool) (m : Z) : Z :=
  let l := (if leap then 1 else 0)%Z in
  (if m <=? 1 then 0 else if m =? 2 then 31 else if m =? 3 then 59 + l
   else if m =? 4 then 90 + l else if m =? 5 then 120 + l
   else if m =? 6 then 151 + l else if m =? 7 then 181 + l
   else if m =? 8 then 212 + l else if m =? 9 then 243 + l
   else if m =? 10 then 273 + l else if m =? 11 then 304 + l
   else 334 + l)%Z.

Definition msPerDay : Z := 86400000.

(** The time value of midnight UTC of day [d] of month [m] of year [y]. *)
Definition MakeDate (y m d : Z) : Z :=
  ((DayFromYear y + DaysBeforeMonth (InLeapYear y) m + (d - 1)) * msPerDay)%Z.

Definition digit (c : ascii) : option Z :=
  let n := Z.of_N (N_of_ascii c) in
  if ((48 <=? n) && (n <=? 57))%Z then Some (n - 48)%Z else None.

Definition digits2 (a b : ascii) : option Z :=
  match digit a, digit b with
  | Some x, Some y => Some (10 * x + y)%Z
  | _, _ => None
  end.

Definition digits4 (a b c d : ascii) : option Z :=
  match digits2 a b, digits2 c d with
  | Some x, Some y => Some (100 * x + y)%Z
  | _, _ => None
  end.

(** The date-only form [YYYY-MM-DD] of the date-time string format, with a
    month and a day that exist. *)
Definition date_only (s : string) : option (Z * Z * Z) :=
  match s with
  | String y1 (String y2 (String y3 (String y4 (String sep1
      (String m1 (String m2 (String sep2 (String d1 (String d2 EmptyString))))))))) =>
      if Ascii.eqb sep1 "-" && Ascii.eqb sep2 "-" then
        match digits4 y1 y2 y3 y4, digits2 m1 m2, digits2 d1 d2 with
        | Some y, Some m, Some d =>
            if ((1 <=? m) && (m <=? 12) && (1 <=? d)
                && (d <=? DaysInMonth (InLeapYear y) m))%Z
            then Some (y, m, d) else None
        | _, _, _ => None
        end
      else None
  | _ => None
  end.

Section Date.

(** What [new Date(s)] makes of a string that is not a date-only form is left
    to the implementation: it may recognise other formats or give an invalid
    date. *)
Variable implementation_parse : string -> TimeValue.

(** [new Date(s)]: a date-only string is midnight UTC of that day. *)
Definition Date (s : string) : TimeValue :=
  match date_only s with
  | Some (y, m, d) => Some (MakeDate y m d)
  | None => implementation_parse s
  end.

End Date.

(** [a < b] on two dates compares their time values; a comparison with [NaN]
    is false. *)
Definition Date_lt (a b : TimeValue) : bool :=
  match a, b with
  | Some x, Some y => (x <? y)%Z
  | _, _ => false
  end.

(** *** Numbers as text

    [Number.prototype.toString] of an integer: its decimal digits, the most
    significant first, after a minus sign when it is negative.  The digits
    are produced from the last one; the fuel exceeds their number.  This is
    the text that JavaScript writes for the integers below [2^53] in
    absolute value; beyond, it writes the shortest digits that tell the
    float, and an exponent from [10^21] on. *)
Definition char_of_digit (d : Z) : ascii := ascii_of_N (Z.to_N (48 + d)).

Fixpoint digits_of (fuel : nat) (n : Z) (acc : string) : string :=
  match fuel with
  | O => acc
  | S fuel' =>
      let acc' := String (char_of_digit (n mod 10)) acc in
      if (n <? 10)%Z then acc' else digits_of fuel' (n / 10) acc'
  end.

Definition Number_toString (n : Z) : string :=
  if (n <? 0)%Z then String "-" (digits_of (S (Z.to_nat (- n))) (- n) "")
  else digits_of (S (Z.to_nat n)) n "".

(** The white space of [\s], of [trim] and of [parseInt], as far as ASCII
    goes: tab, line feed, vertical tab, form feed, carriage return, space.
    (The white space beyond ASCII is not modelled; the functions below are
    exact on strings that hold none.) *)
Definition is_space (c : ascii) : bool :=
  let n := N_of_ascii c in
  (((9 <=? n) && (n <=? 13)) || (n =? 32))%N.

Fixpoint trimStart (s : string) : string :=
  match s with
  | EmptyString => EmptyString
  | String c r => if is_space c then trimStart r else s
  end.

Fixpoint trimEnd (s : string) : string :=
  match s with
  | EmptyString => EmptyString
  | String c r =>
      match trimEnd r with
      | EmptyString => if is_space c then EmptyString else String c EmptyString
      | r' => String c r'
      end
  end.

(** [String.prototype.trim]. *)
Definition trim (s : string) : string := trimEnd (trimStart s).

(** The value of a character as a digit of [parseInt]: 0 to 9, then the
    letters from 10 on, in either case. *)
Definition digit_value (c : ascii) : option Z :=
  let n := Z.of_N (N_of_ascii c) in
  if ((48 <=? n) && (n <=? 57))%Z then Some (n - 48)%Z
  else if ((97 <=? n) && (n <=? 122))%Z then Some (n - 87)%Z
  else if ((65 <=? n) && (n <=? 90))%Z then Some (n - 55)%Z
  else None.

(** The longest prefix of digits of the radix: its value, if there is a
    digit at all, and the rest of the string. *)
Fixpoint digits_prefix (radix : Z) (s : string) (acc : option Z) : option Z * string :=
  match s with
  | EmptyString => (acc, s)
  | String c r =>
      match digit_value c with
      | Some d =>
          if (d <? radix)%Z
          then digits_prefix radix r
                 (Some (radix * match acc with Some a => a | None => 0 end + d)%Z)
          else (acc, s)
      | None => (acc, s)
      end
  end.

(** [parseInt(s)] without a radix: leading white space, a sign, a prefix
    [0x] for the radix 16, and the digits that follow; [None] is [NaN]. *)
Definition parseInt (s : string) : option Z :=
  let s := trimStart s in
  let '(sign, s) :=
    match s with
    | String "-" r => ((-1)%Z, r)
    | String "+" r => (1%Z, r)
    | _ => (1%Z, s)
    end in
  let '(radix, s) :=
    match s with
    | String "0" (String c r) =>
        if Ascii.eqb c "x" || Ascii.eqb c "X" then (16%Z, r) else (10%Z, s)
    | _ => (10%Z, s)
    end in
  match fst (digits_prefix radix s None) with
  | Some n => Some (sign * n)%Z
  | None => None
  end.

(** [s.padStart(targetLength, pad)] for a pad of one character. *)
Fixpoint repeat_char (c : ascii) (n : nat) : string :=
  match n with
  | O => EmptyString
  | S n' => String c (repeat_char c n')
  end.

Definition padStart (targetLength : nat) (pad : ascii) (s : string) : string :=
  repeat_char pad (targetLength - String.length s) ++ s.

(** [s.replace(/[...]/g, '')] for a class of single characters: the
    characters of the class are dropped. *)
Fixpoint remove_all (class : ascii -> bool) (s : string) : string :=
  match s with
  | EmptyString => EmptyString
  | String c r => if class c then remove_all class r else String c (remove_all class r)
  end.

(** [s.replace(/[...]+/g, by)] for a class of single characters: every
    maximal run of characters of the class becomes one [by]; [in_run] tells
    that the character before was of the class. *)
Fixpoint replace_runs (class : ascii -> bool) (by_ : ascii) (in_run : bool) (s : string)
  : string :=
  match s with
  | EmptyString => EmptyString
  | String c r =>
      if class c then
        if in_run then replace_runs class by_ true r
        else String by_ (replace_runs class by_ true r)
      else String c (replace_runs class by_ false r)
  end.

(** The class [\w]: the ASCII letters, the digits and the underscore. *)
Definition is_word (c : ascii) : bool :=
  let n := N_of_ascii c in
  (((48 <=? n) && (n <=? 57)) || ((65 <=? n) && (n <=? 90))
   || ((97 <=? n) && (n <=? 122)) || (n =? 95))%N.

(** The class [a-z0-9]. *)
Definition is_lower_alnum (c : ascii) : bool :=
  let n := N_of_ascii c in
  (((48 <=? n) && (n <=? 57)) || ((97 <=? n) && (n <=? 122)))%N.

Definition is_hyphen (c : ascii) : bool := Ascii.eqb c "-".

(** [/^\d{2}\/\d{2}\/\d{4}$/.test(s)]. *)
Definition is_digit (c : ascii) : bool :=
  let n := N_of_ascii c in ((48 <=? n) && (n <=? 57))%N.

Definition test_dd_mm_yyyy (s : string) : bool :=
  match s with
  | String d1 (String d2 (String s1 (String m1 (String m2 (String s2
      (String y1 (String y2 (String y3 (String y4 EmptyString))))))))) =>
      is_digit d1 && is_digit d2 && Ascii.eqb s1 "/"
      && is_digit m1 && is_digit m2 && Ascii.eqb s2 "/"
      && is_digit y1 && is_digit y2 && is_digit y3 && is_digit y4
  | _ => false
  end.

End JS.

(** ** [src/lib/utils.ts] *)

Module Utils.

(** [UnitSystem = 'metric' | 'imperial']. *)
Inductive UnitSystem : Set := metric | imperial.

(** The object [{ value, unit }], both an entry side of the table and the
    result of [convertUnits]. *)
Record Amount : Set := mkAmount { value : Q; unit : string }.

(** [UnitConversion]: the two sides of a table entry. *)
Record UnitConversion : Set :=
  mkConversion { on_metric : Amount; on_imperial : Amount }.

(** The object literal [conversions], key by key in the order of the source. *)
Definition conversions : list (string * UnitConversion) :=
  [ ("g",     mkConversion (mkAmount 1 "g")  (mkAmount (35274 # 1000000) "oz"));
    ("kg",    mkConversion (mkAmount 1 "kg") (mkAmount (220462 # 100000) "lb"));
    ("oz",    mkConversion (mkAmount (283495 # 10000) "g") (mkAmount 1 "oz"));
    ("lb",    mkConversion (mkAmount (453592 # 1000000) "kg") (mkAmount 1 "lb"));
    ("ml",    mkConversion (mkAmount 1 "ml") (mkAmount (33814 # 1000000) "fl oz"));
    ("l",     mkConversion (mkAmount 1 "l")  (mkAmount (175975 # 100000) "pint"));
    ("fl oz", mkConversion (mkAmount (295735 # 10000) "ml") (mkAmount 1 "fl oz"));
    ("pint",  mkConversion (mkAmount (568261 # 1000) "ml") (mkAmount 1 "pint"));
    ("°C",    mkConversion (mkAmount 1 "°C") (mkAmount 1 "°F"));
    ("°F",    mkConversion (mkAmount 1 "°C") (mkAmount 1 "°F")) ].

(** What [conversions[key]] evaluates to: an entry of the literal, a property
    that the literal inherits from [Object.prototype] (a truthy value that is
    no table entry), or [undefined]. *)
Inductive Property : Set :=
| Own (c : UnitConversion)
| Inherited
| Undefined.

Fixpoint own_property (key : string) (o : list (string * UnitConversion))
  : option UnitConversion :=
  match o with
  | [] => None
  | (k, c) :: o' => if String.eqb k key then Some c else own_property key o'
  end.

(** The keys of [Object.prototype] that a lower-cased string can be. *)
Definition prototype_keys : list string := ["constructor"; "__proto__"].

Definition get (o : list (string * UnitConversion)) (key : string) : Property :=
  match own_property key o with
  | Some c => Own c
  | None => if JS.array_includes prototype_keys key then Inherited else Undefined
  end.

(** [conversion[targetSystem]]. *)
Definition side (c : UnitConversion) (targetSystem : UnitSystem) : Amount :=
  match targetSystem with
  | metric => on_metric c
  | imperial => on_imperial c
  end.

(** A call either returns a value or throws a [TypeError]. *)
Inductive Completion (A : Type) : Type :=
| Return (a : A)
| Throw.
Arguments Return {A} a.
Arguments Throw {A}.

Definition convertUnits (quantity : Q) (unit_ : string) (targetSystem : UnitSystem)
  : Completion Amount :=
  match get conversions (JS.toLowerCase unit_) with
  | Undefined =>
      (* Return original if no conversion available *)
      Return (mkAmount quantity unit_)
  | conversion =>
      (* Special handling for temperature *)
      if String.eqb unit_ "°C" && match targetSystem with imperial => true | _ => false end
      then Return (mkAmount (JS.Math_round (quantity * 9 / 5 + 32)) "°F")
      else
      if String.eqb unit_ "°F" && match targetSystem with metric => true | _ => false end
      then Return (mkAmount (JS.Math_round ((quantity - 32) * 5 / 9)) "°C")
      else
      match conversion with
      | Own c =>
          let target := side c targetSystem in
          let convertedValue := quantity * value target in
          (* Round to appropriate decimal places *)
          let rounded :=
            if Qlt_le_dec convertedValue 1
            then JS.Math_round (convertedValue * 100) / 100
            else JS.Math_round (convertedValue * 10) / 10 in
          Return (mkAmount rounded (unit target))
      | _ => Throw (* [target] is [undefined]: reading [target.value] throws *)
      end
  end.

(** [scaleIngredientQuantity], in exact arithmetic.  The quotient of the
    rationals is the exact quotient whenever [originalServings] is not zero;
    the engine rounds each operation to binary64, which [Double] below
    follows. *)
Definition scaleIngredientQuantity (originalQuantity originalServings newServings : Q) : Q :=
  let scaleFactor := newServings / originalServings in
  let scaledQuantity := originalQuantity * scaleFactor in
  if Qlt_le_dec scaledQuantity 1 then
    JS.Math_round (scaledQuantity * 100) / 100
  else if Qlt_le_dec scaledQuantity 10 then
    JS.Math_round (scaledQuantity * 10) / 10
  else
    JS.Math_round scaledQuantity.

(** [formatCookingTime], on a whole number of minutes. *)
Definition formatCookingTime (minutes : Z) : string :=
  if (minutes <? 60)%Z then
    JS.Number_toString minutes ++ " min" ++ (if (minutes =? 1)%Z then "" else "s")
  else
    let hours := (minutes / 60)%Z in
    let remainingMinutes := (minutes mod 60)%Z in
    if (remainingMinutes =? 0)%Z then
      JS.Number_toString hours ++ " hour" ++ (if (hours =? 1)%Z then "" else "s")
    else
      JS.Number_toString hours ++ "h " ++ JS.Number_toString remainingMinutes ++ "m".

(** [generateSlug]. *)
Definition generateSlug (title : string) : string :=
  JS.trim
    (JS.replace_runs JS.is_hyphen "-" false
       (JS.replace_runs JS.is_space "-" false
          (JS.remove_all
             (fun c => negb (JS.is_word c || JS.is_space c || JS.is_hyphen c))
             (JS.toLowerCase title)))).

Section FormatDate.

(** What [new Date(dateString)] makes of the string in the time zone of the
    reader: [getDate()], [getMonth()] and [getFullYear()] of the date, or
    [None] for an invalid date.  This is left to the engine and its zone. *)
Variable local_fields : string -> option (Z * Z * Z).

(** [formatDateUK]. *)
Definition formatDateUK (dateString : string) : string :=
  match dateString with
  | EmptyString => ""
  | _ =>
      (* If already in DD/MM/YYYY format, return as is *)
      if JS.test_dd_mm_yyyy dateString then dateString
      else
        (* Convert from other formats *)
        match local_fields dateString with
        | None => dateString
        | Some (getDate, getMonth, getFullYear) =>
            let day := JS.padStart 2 "0" (JS.Number_toString getDate) in
            let month := JS.padStart 2 "0" (JS.Number_toString (getMonth + 1)) in
            let year := getFullYear in
            day ++ "/" ++ month ++ "/" ++ JS.Number_toString year
        end
  end.

End FormatDate.

End Utils.

(** ** The same scaling in binary64

    A JavaScript number is a binary64 float, and every operation rounds its
    exact result to the nearest one (ties to even).  [Utils] above computes
    with the exact rationals; this module computes
    [scaleIngredientQuantity] as the engine does, on the floats of IEEE 754
    as [SpecFloat] defines them: a zero, an infinity, NaN, or
    [(-1)^s * m * 2^e] for a mantissa [m] of at most 53 bits. *)

Module Double.

Definition prec : Z := 53.
Definition emax : Z := 1024.

(** The float of an integer (exact up to [2^53]). *)
Definition of_Z (n : Z) : SpecFloat.spec_float :=
  SpecFloat.binary_normalize prec emax n 0 false.

(** [x * y], [x / y] and [x < y]; a comparison with NaN is false. *)
Definition mul : SpecFloat.spec_float -> SpecFloat.spec_float -> SpecFloat.spec_float :=
  SpecFloat.SFmul prec emax.

Definition div : SpecFloat.spec_float -> SpecFloat.spec_float -> SpecFloat.spec_float :=
  SpecFloat.SFdiv prec emax.

Definition lt : SpecFloat.spec_float -> SpecFloat.spec_float -> bool := SpecFloat.SFltb.

(** The number that a finite float stands for. *)
Definition value (s : bool) (m : positive) (e : Z) : Q :=
  (if s then -1 else 1) * inject_Z (Z.pos m)
  * (if (0 <=? e)%Z then inject_Z (2 ^ e) else 1 / inject_Z (2 ^ (- e))).

(** [Math.round(x)]: [x] itself when it is an integer, a zero, an infinity
    or NaN; otherwise the floor of [x + 0.5], computed exactly, which is a
    zero of the sign of [x] when it is 0. *)
Definition Math_round (x : SpecFloat.spec_float) : SpecFloat.spec_float :=
  match x with
  | SpecFloat.S754_finite s m e =>
      if (0 <=? e)%Z then x
      else
        let k := Qfloor (value s m e + (1 # 2)) in
        if (k =? 0)%Z then SpecFloat.S754_zero s else of_Z k
  | _ => x
  end.

(** [scaleIngredientQuantity]. *)
Definition scaleIngredientQuantity
    (originalQuantity originalServings newServings : SpecFloat.spec_float)
  : SpecFloat.spec_float :=
  let scaleFactor := div newServings originalServings in
  let scaledQuantity := mul originalQuantity scaleFactor in
  if lt scaledQuantity (of_Z 1) then
    div (Math_round (mul scaledQuantity (of_Z 100))) (of_Z 100)
  else if lt scaledQuantity (of_Z 10) then
    div (Math_round (mul scaledQuantity (of_Z 10))) (of_Z 10)
  else
    Math_round scaledQuantity.

End Double.

(** ** [src/lib/api.ts] *)

Module Api.

(** [Recipe], with the fields the query pipeline reads (the image, the
    ingredients, the steps, the author and the nutrition are carried along
    untouched and are left out).  The difficulty is the string that the JSON
    data and the URL carry; its type narrows it to three labels. *)
Record Recipe : Set := mkRecipe {
  id : string;
  title : string;
  slug : string;
  description : string;
  cuisine : string;
  tags : list string;
  prepTimeMins : Z;
  cookTimeMins : Z;
  totalTimeMins : Z;
  difficulty : string;
  baseServings : Z;
  datePublished : option string (* DD/MM/YYYY *)
}.

(** [RecipeFilters]. *)
Module Filters.
Record t : Set := mk {
  cuisine : option (list string);
  tags : option (list string);
  maxPrepTime : option Z;
  difficulty : option (list string);
  search : option string
}.
End Filters.

(** [RecipeSort]. *)
Module Sort.
Inductive Field : Set := title | totalTimeMins | datePublished | difficulty.
Inductive Direction : Set := asc | desc.
Record t : Set := mk { field : Field; direction : Direction }.
(** [===] on two fields. *)
Definition Field_eqb (a b : Field) : bool :=
  match a, b with
  | title, title | totalTimeMins, totalTimeMins
  | datePublished, datePublished | difficulty, difficulty => true
  | _, _ => false
  end.
End Sort.

(** The result [{ recipes, total }]. *)
Record Result : Set := mkResult { recipes : list Recipe; total : Z }.

(** What the request to the remote API comes to: the body of an answer
    whose status is ok, or a failure that the code catches (no answer, a
    status that is not ok, a body that is not JSON). *)
Inductive Response : Set :=
| Answer (body : Result)
| Failure.

(** Truthiness of the optional values the guards test: a string is truthy
    when it is not empty, a number when it is not 0 (nor [NaN], which is no
    value of [Z]), and [x?.length] when [x] is an array that is not empty. *)
Definition truthy_string (s : option string) : bool :=
  match s with
  | Some (String _ _) => true
  | _ => false
  end.

Definition truthy_number (n : option Z) : bool :=
  match n with
  | Some n => negb (n =? 0)%Z
  | None => false
  end.

Definition truthy_length {A : Type} (l : option (list A)) : bool :=
  match l with
  | Some (_ :: _) => true
  | _ => false
  end.

(** [x!] and [x || d]. *)
Definition get_or {A : Type} (d : A) (x : option A) : A :=
  match x with
  | Some a => a
  | None => d
  end.

(** Apply filters *)
Definition apply_filters (filters : option Filters.t) (filteredRecipes : list Recipe)
  : list Recipe :=
  match filters with
  | None => filteredRecipes
  | Some filters =>
      let filteredRecipes :=
        if truthy_string (Filters.search filters) then
          let searchLower := JS.toLowerCase (get_or "" (Filters.search filters)) in
          filter (fun recipe =>
                    JS.includes (JS.toLowerCase (title recipe)) searchLower
                    || JS.includes (JS.toLowerCase (description recipe)) searchLower
                    || JS.some (fun tag => JS.includes (JS.toLowerCase tag) searchLower)
                               (tags recipe))
                 filteredRecipes
        else filteredRecipes in
      let filteredRecipes :=
        if truthy_length (Filters.cuisine filters) then
          filter (fun recipe =>
                    JS.array_includes (get_or [] (Filters.cuisine filters)) (cuisine recipe))
                 filteredRecipes
        else filteredRecipes in
      let filteredRecipes :=
        if truthy_length (Filters.tags filters) then
          filter (fun recipe =>
                    JS.some (fun tag => JS.array_includes (tags recipe) tag)
                            (get_or [] (Filters.tags filters)))
                 filteredRecipes
        else filteredRecipes in
      let filteredRecipes :=
        if truthy_number (Filters.maxPrepTime filters) then
          filter (fun recipe =>
                    (prepTimeMins recipe <=? get_or 0 (Filters.maxPrepTime filters))%Z)
                 filteredRecipes
        else filteredRecipes in
      let filteredRecipes :=
        if truthy_length (Filters.difficulty filters) then
          filter (fun recipe =>
                    JS.array_includes (get_or [] (Filters.difficulty filters))
                                      (difficulty recipe))
                 filteredRecipes
        else filteredRecipes in
      filteredRecipes
  end.

(** Apply pagination *)
Definition apply_pagination (limit offset : option Z) (filteredRecipes : list Recipe)
  : list Recipe :=
  if truthy_number offset || truthy_number limit then
    let start := if truthy_number offset then get_or 0%Z offset else 0%Z in
    let end_ := if truthy_number limit then Some (start + get_or 0 limit)%Z else None in
    JS.slice filteredRecipes start end_
  else filteredRecipes.

(** [getMockRecipeBySlug] once the mock data is loaded; [null] is [None]. *)
Definition getMockRecipeBySlug (mockRecipes : list Recipe) (slug_ : string)
  : option Recipe :=
  find (fun recipe => String.eqb (slug recipe) slug_) mockRecipes.

Section Engine.

Variable implementation_parse : string -> JS.TimeValue.

(** [new Date(aValue?.split('/').reverse().join('-') || '')]: the join of an
    absent or empty string is the empty string. *)
Definition date_value (aValue : option string) : JS.TimeValue :=
  JS.Date implementation_parse
    (match aValue with
     | Some s => JS.join "-" (rev (JS.split "/" s))
     | None => ""
     end).

(** [aValue < bValue] for [aValue = a[field]], [bValue = b[field]]: strings
    for the title and the difficulty, numbers for the total time, and the two
    dates made of the strings for the date of publication.  Strings compare
    unit by unit; the order of the bytes is that order on ASCII strings, the
    labels of the difficulty among them. *)
Definition less (field : Sort.Field) (a b : Recipe) : bool :=
  match field with
  | Sort.title => String.ltb (title a) (title b)
  | Sort.totalTimeMins => (totalTimeMins a <? totalTimeMins b)%Z
  | Sort.difficulty => String.ltb (difficulty a) (difficulty b)
  | Sort.datePublished =>
      JS.Date_lt (date_value (datePublished a)) (date_value (datePublished b))
  end.

(** The comparison function handed to [sort]. *)
Definition comparefn (sort : Sort.t) (a b : Recipe) : Z :=
  if less (Sort.field sort) a b then
    match Sort.direction sort with Sort.asc => (-1)%Z | Sort.desc => 1%Z end
  else if less (Sort.field sort) b a then
    match Sort.direction sort with Sort.asc => 1%Z | Sort.desc => (-1)%Z end
  else 0%Z.

(** Apply sorting *)
Definition apply_sorting (sort : option Sort.t) (filteredRecipes : list Recipe)
  : list Recipe :=
  match sort with
  | Some sort => JS.sort (comparefn sort) filteredRecipes
  | None => filteredRecipes
  end.

(** [getMockRecipes] once the mock data is loaded: [mockRecipes] is the
    content of the module-level array. *)
Definition getMockRecipes (mockRecipes : list Recipe)
  (filters : option Filters.t) (sort : option Sort.t) (limit offset : option Z)
  : Result :=
  let filteredRecipes := mockRecipes in
  let filteredRecipes := apply_filters filters filteredRecipes in
  let filteredRecipes := apply_sorting sort filteredRecipes in
  let total := Z.of_nat (List.length filteredRecipes) in
  let filteredRecipes := apply_pagination limit offset filteredRecipes in
  mkResult filteredRecipes total.

(** [getRecipes]: the mock data when [USE_MOCK_DATA] is set; otherwise the
    answer of the remote API to the request made of the filters, the sort,
    the limit and the offset, and the mock data when that request fails.
    [response] is what comes back for the request. *)
Definition getRecipes (USE_MOCK_DATA : bool) (response : Response)
  (mockRecipes : list Recipe)
  (filters : option Filters.t) (sort : option Sort.t) (limit offset : option Z)
  : Result :=
  if USE_MOCK_DATA then getMockRecipes mockRecipes filters sort limit offset
  else
    match response with
    | Answer body => body
    | Failure =>
        (* Fallback to mock data on error *)
        getMockRecipes mockRecipes filters sort limit offset
    end.

(** [getMockFeaturedRecipes]. *)
Definition getMockFeaturedRecipes (mockRecipes : list Recipe) (limit : Z)
  : list Recipe :=
  let recipes_ := recipes (getMockRecipes mockRecipes None None None None) in
  JS.slice recipes_ 0 (Some limit).

(** [getMockSearchResults]. *)
Definition getMockSearchResults (mockRecipes : list Recipe) (query : string) (limit : Z)
  : list Recipe :=
  let recipes_ :=
    recipes (getMockRecipes mockRecipes
               (Some (Filters.mk None None None None (Some query)))
               None (Some limit) None) in
  recipes_.

End Engine.

End Api.

(** ** The recipes page, [RecipesPage], which calls [getRecipes] *)

Module RecipesPage.

Definition recipesPerPage : Z := 12.

(** [const offset = (page - 1) * recipesPerPage]. *)
Definition offset (page : Z) : Z := (page - 1) * recipesPerPage.

(** [const totalPages = Math.ceil(totalRecipes / recipesPerPage)]. *)
Definition totalPages (totalRecipes : Z) : Z :=
  JS.Math_ceil (inject_Z totalRecipes / inject_Z recipesPerPage).

Section Fetch.

Variable implementation_parse : string -> JS.TimeValue.

(** The fetch of [debouncedSearch]:
    [getRecipes(searchFilters, searchSort, recipesPerPage, offset)]. *)
Definition fetch (USE_MOCK_DATA : bool) (response : Api.Response)
  (mockRecipes : list Api.Recipe) (searchFilters : Api.Filters.t)
  (searchSort : Api.Sort.t) (page : Z) : Api.Result :=
  let offset := offset page in
  Api.getRecipes implementation_parse USE_MOCK_DATA response mockRecipes
    (Some searchFilters) (Some searchSort) (Some recipesPerPage) (Some offset).

End Fetch.

(** [URLSearchParams], as the list of its pairs: [set] replaces the value of
    the first pair of the key and drops its other pairs, or appends a pair;
    [get] is the value of the first pair of the key, [null] being [None].
    The way through the address bar, which carries the pairs as they are, is
    not modelled. *)
Fixpoint params_delete (key : string) (params : list (string * string))
  : list (string * string) :=
  match params with
  | [] => []
  | (k, v) :: rest =>
      if String.eqb k key then params_delete key rest
      else (k, v) :: params_delete key rest
  end.

Fixpoint params_set (params : list (string * string)) (key value : string)
  : list (string * string) :=
  match params with
  | [] => [(key, value)]
  | (k, v) :: rest =>
      if String.eqb k key then (key, value) :: params_delete key rest
      else (k, v) :: params_set rest key value
  end.

Fixpoint params_get (params : list (string * string)) (key : string) : option string :=
  match params with
  | [] => None
  | (k, v) :: rest => if String.eqb k key then Some v else params_get rest key
  end.

(** Update URL when filters change: the parameters the effect writes. *)
Definition url_params (filters : Api.Filters.t) : list (string * string) :=
  let params := [] in
  let params :=
    if Api.truthy_string (Api.Filters.search filters)
    then params_set params "search" (Api.get_or "" (Api.Filters.search filters))
    else params in
  let params :=
    if Api.truthy_length (Api.Filters.cuisine filters)
    then params_set params "cuisine" (JS.join "," (Api.get_or [] (Api.Filters.cuisine filters)))
    else params in
  let params :=
    if Api.truthy_length (Api.Filters.tags filters)
    then params_set params "tags" (JS.join "," (Api.get_or [] (Api.Filters.tags filters)))
    else params in
  let params :=
    if Api.truthy_length (Api.Filters.difficulty filters)
    then params_set params "difficulty"
           (JS.join "," (Api.get_or [] (Api.Filters.difficulty filters)))
    else params in
  let params :=
    if Api.truthy_number (Api.Filters.maxPrepTime filters)
    then params_set params "maxPrepTime"
           (JS.Number_toString (Api.get_or 0%Z (Api.Filters.maxPrepTime filters)))
    else params in
  params.

(** Initialize filters from URL params.  A [maxPrepTime] that [parseInt]
    does not read is [NaN], which every guard takes for an absent bound: it
    is [None] here. *)
Definition initialFilters (searchParams : list (string * string)) : Api.Filters.t :=
  let search := params_get searchParams "search" in
  let cuisine := params_get searchParams "cuisine" in
  let tags := params_get searchParams "tags" in
  let difficulty := params_get searchParams "difficulty" in
  let maxPrepTime := params_get searchParams "maxPrepTime" in
  Api.Filters.mk
    (if Api.truthy_string cuisine then Some (JS.split "," (Api.get_or "" cuisine)) else None)
    (if Api.truthy_string tags then Some (JS.split "," (Api.get_or "" tags)) else None)
    (if Api.truthy_string maxPrepTime then JS.parseInt (Api.get_or "" maxPrepTime) else None)
    (if Api.truthy_string difficulty
     then Some (JS.split "," (Api.get_or "" difficulty)) else None)
    (if Api.truthy_string search then search else None).

(** [handleSortChange]: the new sort after a click on a column. *)
Definition handleSortChange (field : Api.Sort.Field) (prev : Api.Sort.t) : Api.Sort.t :=
  Api.Sort.mk field
    (match prev with
     | Api.Sort.mk prev_field Api.Sort.asc =>
         if Api.Sort.Field_eqb prev_field field then Api.Sort.desc else Api.Sort.asc
     | _ => Api.Sort.asc
     end).

End RecipesPage.

(** ** The filter panel, [RecipeFilters], which edits the filters *)

Module RecipeFiltersPanel.

(** The keys of the three array filters. *)
Inductive ArrayKey : Set := cuisine | tags | difficulty.

(** [filters[key]]. *)
Definition read (filters : Api.Filters.t) (key : ArrayKey) : option (list string) :=
  match key with
  | cuisine => Api.Filters.cuisine filters
  | tags => Api.Filters.tags filters
  | difficulty => Api.Filters.difficulty filters
  end.

(** [updateFilters(key, value)]: [{ ...filters, [key]: value }]. *)
Definition updateFilters (filters : Api.Filters.t) (key : ArrayKey)
  (value : option (list string)) : Api.Filters.t :=
  match key with
  | cuisine =>
      Api.Filters.mk value (Api.Filters.tags filters) (Api.Filters.maxPrepTime filters)
        (Api.Filters.difficulty filters) (Api.Filters.search filters)
  | tags =>
      Api.Filters.mk (Api.Filters.cuisine filters) value (Api.Filters.maxPrepTime filters)
        (Api.Filters.difficulty filters) (Api.Filters.search filters)
  | difficulty =>
      Api.Filters.mk (Api.Filters.cuisine filters) (Api.Filters.tags filters)
        (Api.Filters.maxPrepTime filters) value (Api.Filters.search filters)
  end.

(** [toggleArrayFilter]. *)
Definition toggleArrayFilter (filters : Api.Filters.t) (key : ArrayKey) (value : string)
  : Api.Filters.t :=
  let currentArray := Api.get_or [] (read filters key) in
  let newArray :=
    if JS.array_includes currentArray value
    then filter (fun item => negb (String.eqb item value)) currentArray
    else (currentArray ++ [value])%list in
  updateFilters filters key
    (if (0 <? List.length newArray)%nat then Some newArray else None).

End RecipeFiltersPanel.

(** ** The admin panel's recipe form, with its own [generateSlug] *)

Module RecipeForm.

Definition generateSlug (title : string) : string :=
  JS.trim
    (JS.replace_runs JS.is_hyphen "-" false
       (JS.replace_runs JS.is_space "-" false
          (JS.remove_all
             (fun c => negb (JS.is_lower_alnum c || JS.is_space c || JS.is_hyphen c))
             (JS.toLowerCase title)))).

End RecipeForm.

(** ** The words of the specification

    Definitions that follow the specification rather than the code; the
    theorems below compare the two. *)

Module Spec.

(** Two characters that are the same letter: the same character, or a
    capital of the Latin alphabet and its small letter (the codes of the
    capitals are 65 to 90, and a small letter is 32 above its capital). *)
Definition same_letter (a b : ascii) : Prop :=
  a = b
  \/ ((65 <= N_of_ascii a <= 90)%N /\ N_of_ascii b = (N_of_ascii a + 32)%N)
  \/ ((65 <= N_of_ascii b <= 90)%N /\ N_of_ascii a = (N_of_ascii b + 32)%N).

(** Two strings that are the same up to letter case, character by
    character. *)
Fixpoint same_up_to_case (s t : string) : Prop :=
  match s, t with
  | EmptyString, EmptyString => True
  | String a s', String b t' => same_letter a b /\ same_up_to_case s' t'
  | _, _ => False
  end.

(** The search term occurs in [s] when letter case is ignored: some stretch
    of [s] is the term up to case. *)
Definition occurs_ignoring_case (term s : string) : Prop :=
  exists pre mid post,
    s = pre ++ mid ++ post /\ same_up_to_case mid term.

(** The search predicate: the term occurs in the title, the description or
    some tag. *)
Definition matches_search (term : string) (r : Api.Recipe) : Prop :=
  occurs_ignoring_case term (Api.title r)
  \/ occurs_ignoring_case term (Api.description r)
  \/ exists tag, In tag (Api.tags r) /\ occurs_ignoring_case term tag.

(** A present field constrains the recipe; an absent one does not. *)
Definition constrains {A : Type} (field : option A) (P : A -> Prop) : Prop :=
  forall a, field = Some a -> P a.

(** The filter predicate as the specification words it: every present field
    holds. *)
Definition satisfies_every_present (f : Api.Filters.t) (r : Api.Recipe) : Prop :=
  constrains (Api.Filters.search f) (fun term => matches_search term r)
  /\ constrains (Api.Filters.cuisine f) (fun set => In (Api.cuisine r) set)
  /\ constrains (Api.Filters.tags f)
       (fun set => exists tag, In tag (Api.tags r) /\ In tag set)
  /\ constrains (Api.Filters.maxPrepTime f) (fun bound => (Api.prepTimeMins r <= bound)%Z)
  /\ constrains (Api.Filters.difficulty f) (fun set => In (Api.difficulty r) set).

(** The same predicate with the guards of the code: a requested set
    constrains when it is not empty and a bound when it is not 0. *)
Definition satisfies (f : Api.Filters.t) (r : Api.Recipe) : Prop :=
  constrains (Api.Filters.search f) (fun term => matches_search term r)
  /\ constrains (Api.Filters.cuisine f)
       (fun set => set <> [] -> In (Api.cuisine r) set)
  /\ constrains (Api.Filters.tags f)
       (fun set => set <> [] -> exists tag, In tag (Api.tags r) /\ In tag set)
  /\ constrains (Api.Filters.maxPrepTime f)
       (fun bound => bound <> 0%Z -> (Api.prepTimeMins r <= bound)%Z)
  /\ constrains (Api.Filters.difficulty f)
       (fun set => set <> [] -> In (Api.difficulty r) set).

(** The slice [[a, b)] of a list: its elements at the positions [i] with
    [a <= i < b], in order ([i] is the position of the head); without [b]
    the slice runs to the end. *)
Fixpoint positions {A : Type} (i a : Z) (b : option Z) (l : list A) : list A :=
  match l with
  | [] => []
  | x :: l' =>
      let rest := positions (i + 1) a b l' in
      if ((a <=? i) && match b with Some b => i <? b | None => true end)%Z
      then x :: rest else rest
  end.

Definition interval {A : Type} (a : Z) (b : option Z) (l : list A) : list A :=
  positions 0 a b l.

(** [paginate]: the input when neither argument is given, otherwise the
    slice [[offset ?? 0, (offset ?? 0) + limit)]. *)
Definition paginate {A : Type} (limit offset : option Z) (l : list A) : list A :=
  match limit, offset with
  | None, None => l
  | _, _ =>
      let start := Api.get_or 0%Z offset in
      interval start (option_map (Z.add start) limit) l
  end.

(** [r] is [x] rounded to a number of decimals: [r] is [k / 10^decimals] for
    the integer [k] nearest to [x * 10^decimals], the upper one of two equally
    near. *)
Definition rounded_to (decimals : nat) (x r : Q) : Prop :=
  let unit_ := inject_Z (10 ^ Z.of_nat decimals) in
  exists k : Z,
    r == inject_Z k / unit_
    /\ x * unit_ - (1 # 2) < inject_Z k <= x * unit_ + (1 # 2).

(** Metric to imperial and back to metric. *)
Definition round_trip (quantity : Q) (unit_ : string) : Utils.Completion Utils.Amount :=
  match Utils.convertUnits quantity unit_ Utils.imperial with
  | Utils.Return there => Utils.convertUnits (Utils.value there) (Utils.unit there) Utils.metric
  | Utils.Throw => Utils.Throw
  end.

(** The entries of the table other than the two of temperature. *)
Definition non_temperature : list (string * Utils.UnitConversion) :=
  filter (fun entry => negb (String.prefix "°" (fst entry))) Utils.conversions.

(** The tolerance the specification grants a round trip: 0.1 on a result of
    1 or more, 0.01 on a smaller one. *)
Definition within_rounding_tolerance (original result : Q) : Prop :=
  (1 <= result -> Qabs (result - original) <= 1 # 10)
  /\ (result < 1 -> Qabs (result - original) <= 1 # 100).

(** A date of the calendar, as the data stores it: day, month and year, the
    year of four digits. *)
Definition calendar_date (d m y : Z) : Prop :=
  (0 <= y <= 9999)%Z /\ (1 <= m <= 12)%Z
  /\ (1 <= d <= JS.DaysInMonth (JS.InLeapYear y) m)%Z.

(** Chronological order of two dates of the calendar. *)
Definition earlier (d1 m1 y1 d2 m2 y2 : Z) : Prop :=
  (y1 < y2 \/ (y1 = y2 /\ (m1 < m2 \/ (m1 = m2 /\ d1 < d2))))%Z.

(** The decimal digits of a number, two or four of them. *)
Definition digit_char (n : Z) : ascii := ascii_of_N (Z.to_N (48 + n)).

Definition two_digits (n : Z) : string :=
  String (digit_char (n / 10)) (String (digit_char (n mod 10)) "").

Definition four_digits (n : Z) : string :=
  two_digits (n / 100) ++ two_digits (n mod 100).

(** The stored form [DD/MM/YYYY] and the form [YYYY-MM-DD] of its tokens in
    reverse. *)
Definition day_month_year (d m y : Z) : string :=
  two_digits d ++ "/" ++ two_digits m ++ "/" ++ four_digits y.

Definition year_month_day (y m d : Z) : string :=
  four_digits y ++ "-" ++ two_digits m ++ "-" ++ two_digits d.

(** The values a display rounding produces: the hundredths below 1 and the
    tenths from 1 on. *)
Definition on_display_grid (y : Q) : Prop :=
  (y < 1 /\ exists k : Z, y == inject_Z k * (1 # 100))
  \/ (1 <= y /\ exists k : Z, y == inject_Z k * (1 # 10)).

(** The keys of the table, the two of temperature apart. *)
Definition plain_units : list string := map fst non_temperature.

(** The order of two recipes by a field whose values compare as they are
    stored (all but the date): the first does not come after the second. *)
Definition not_after (field : Api.Sort.Field) (p q : Api.Recipe) : Prop :=
  match field with
  | Api.Sort.title => String.leb (Api.title p) (Api.title q) = true
  | Api.Sort.totalTimeMins => (Api.totalTimeMins p <= Api.totalTimeMins q)%Z
  | Api.Sort.difficulty => String.leb (Api.difficulty p) (Api.difficulty q) = true
  | Api.Sort.datePublished => True
  end.

(** Two recipes carry the same value in such a field. *)
Definition same_value (field : Api.Sort.Field) (p q : Api.Recipe) : Prop :=
  match field with
  | Api.Sort.title => Api.title p = Api.title q
  | Api.Sort.totalTimeMins => Api.totalTimeMins p = Api.totalTimeMins q
  | Api.Sort.difficulty => Api.difficulty p = Api.difficulty q
  | Api.Sort.datePublished => Api.datePublished p = Api.datePublished q
  end.

(** Every character of a string is of a class. *)
Fixpoint all_chars (class : ascii -> bool) (s : string) : bool :=
  match s with
  | EmptyString => true
  | String c r => class c && all_chars class r
  end.

(** A string of ASCII characters. *)
Definition ascii_only (s : string) : Prop :=
  all_chars (fun c => (N_of_ascii c <? 128)%N) s = true.

(** The search reads ASCII only: the term, when the filters hold one, and
    the title, the description and the tags of every recipe.  On such
    strings [toLowerCase] changes the capitals A to Z and nothing else. *)
Definition ascii_text (s : string) : bool :=
  all_chars (fun c => (N_of_ascii c <? 128)%N) s.

Definition ascii_recipe (r : Api.Recipe) : bool :=
  ascii_text (Api.title r) && ascii_text (Api.description r)
  && forallb ascii_text (Api.tags r).

Definition ascii_search (term : option string) (l : list Api.Recipe) : Prop :=
  match term with
  | Some t => ascii_text t && forallb ascii_recipe l = true
  | None => True
  end.

(** The three exact filters of [f] alone: a requested set that is not empty
    holds a value equal to the stored string, character for character. *)
Definition matches_exactly (f : Api.Filters.t) (r : Api.Recipe) : Prop :=
  constrains (Api.Filters.cuisine f)
    (fun set => set <> [] -> exists v, In v set /\ v = Api.cuisine r)
  /\ constrains (Api.Filters.tags f)
       (fun set => set <> [] ->
                   exists v tag, In v set /\ In tag (Api.tags r) /\ v = tag)
  /\ constrains (Api.Filters.difficulty f)
       (fun set => set <> [] -> exists v, In v set /\ v = Api.difficulty r).

(** What is left of [f] without them: the search term and the bound. *)
Definition without_exact_filters (f : Api.Filters.t) : Api.Filters.t :=
  Api.Filters.mk None None (Api.Filters.maxPrepTime f) None (Api.Filters.search f).

(** The characters of a slug: small letters, digits, the underscore and the
    hyphen. *)
Definition slug_char (c : ascii) : bool :=
  JS.is_lower_alnum c || Ascii.eqb c "_" || JS.is_hyphen c.

(** No two hyphens in a row. *)
Fixpoint no_double_hyphen (s : string) : bool :=
  match s with
  | EmptyString => true
  | String c r =>
      match r with
      | String d _ => negb (JS.is_hyphen c && JS.is_hyphen d)
      | EmptyString => true
      end && no_double_hyphen r
  end.

(** A string that does not hold the separator, and a list of values that
    a joined string tells apart: its values hold no comma, and it is not the
    list of the empty string alone, which joins to the empty string. *)
Definition free_of (sep : ascii) (s : string) : bool :=
  all_chars (fun c => negb (Ascii.eqb c sep)) s.

Definition listed (l : option (list string)) : bool :=
  match l with
  | Some [EmptyString] => false
  | Some l => forallb (free_of ",") l
  | None => true
  end.

Definition url_safe (f : Api.Filters.t) : Prop :=
  listed (Api.Filters.cuisine f) = true
  /\ listed (Api.Filters.tags f) = true
  /\ listed (Api.Filters.difficulty f) = true
  /\ match Api.Filters.maxPrepTime f with
     | Some bound => (Z.abs bound < 2 ^ 53)%Z
     | None => True
     end.

(** The filters that constrain: an empty search term, an empty list and a
    bound of 0 are taken away, as every guard of the code ignores them. *)
Definition effective (f : Api.Filters.t) : Api.Filters.t :=
  Api.Filters.mk
    (if Api.truthy_length (Api.Filters.cuisine f) then Api.Filters.cuisine f else None)
    (if Api.truthy_length (Api.Filters.tags f) then Api.Filters.tags f else None)
    (if Api.truthy_number (Api.Filters.maxPrepTime f)
     then Api.Filters.maxPrepTime f else None)
    (if Api.truthy_length (Api.Filters.difficulty f)
     then Api.Filters.difficulty f else None)
    (if Api.truthy_string (Api.Filters.search f) then Api.Filters.search f else None).

(** Every two elements of a list, the one that comes first on the left,
    are related. *)
Fixpoint all_pairs {A : Type} (related : A -> A -> bool) (l : list A) : bool :=
  match l with
  | [] => true
  | x :: l' => forallb (related x) l' && all_pairs related l'
  end.

(** A reader of the durations that [formatCookingTime] displays. *)
Definition split_sign (s : string) : Z * string :=
  match s with
  | String "-" r => ((-1)%Z, r)
  | _ => (1%Z, s)
  end.

Definition read_cooking_time (s : string) : option Z :=
  let '(sign, body) := split_sign s in
  match JS.digits_prefix 10 body None with
  | (Some a, rest) =>
      if String.eqb rest " min" || String.eqb rest " mins" then Some (sign * a)%Z
      else if String.eqb rest " hour" || String.eqb rest " hours" then Some (60 * a)%Z
      else match rest with
           | String "h" (String " " rest) =>
               match JS.digits_prefix 10 rest None with
               | (Some b, String "m" EmptyString) => Some (60 * a + b)%Z
               | _ => None
               end
           | _ => None
           end
  | (None, _) => None
  end.

(** A recipe whose stored date is a date of the calendar, and the order of
    publication of two such recipes. *)
Definition has_calendar_date (r : Api.Recipe) : Prop :=
  exists d m y,
    calendar_date d m y /\ Api.datePublished r = Some (day_month_year d m y).

Definition published_before (a b : Api.Recipe) : Prop :=
  exists d1 m1 y1 d2 m2 y2,
    calendar_date d1 m1 y1 /\ calendar_date d2 m2 y2
    /\ Api.datePublished a = Some (day_month_year d1 m1 y1)
    /\ Api.datePublished b = Some (day_month_year d2 m2 y2)
    /\ earlier d1 m1 y1 d2 m2 y2.

End Spec.

(** ** Sample data *)

Module Sample.

Definition stew : Api.Recipe :=
  Api.mkRecipe "1" "Beef Stew" "beef-stew" "A slow winter stew" "British"
    ["dinner"; "Classic"] 5 60 65 "Easy" 4 (Some "15/01/2024").

Definition pie : Api.Recipe :=
  Api.mkRecipe "2" "Shepherd's Pie" "shepherds-pie" "Lamb under mash" "British"
    ["dinner"] 20 40 60 "Medium" 4 (Some "01/02/2024").

Definition souffle : Api.Recipe :=
  Api.mkRecipe "3" "Cheese Souffle" "cheese-souffle" "Light and risky" "French"
    ["baking"] 30 25 55 "Hard" 2 (Some "not a date").

(** An engine whose [Date] recognises the standard format only. *)
Definition standard_only : string -> JS.TimeValue := fun _ => None.

End Sample.

(** * Properties *)

(** ** Strings *)

Lemma toLowerCase_app (a b : string) :
  JS.toLowerCase (a ++ b) = JS.toLowerCase a ++ JS.toLowerCase b.
Proof.
  induction a as [|c a IH]; simpl; [reflexivity | now rewrite IH].
Qed.

Lemma toLowerCase_split (s a b : string) :
  JS.toLowerCase s = a ++ b ->
  exists x y, s = x ++ y /\ JS.toLowerCase x = a /\ JS.toLowerCase y = b.
Proof.
  revert s; induction a as [|c a IH]; intros s H.
  - exists "", s. auto.
  - destruct s as [|d s]; simpl in H; [discriminate|].
    injection H as Hc Hs.
    destruct (IH s Hs) as (x & y & -> & Hx & Hy).
    exists (String d x), y. simpl. now rewrite Hc, Hx.
Qed.

Lemma startsWith_spec (s t : string) :
  JS.startsWith s t = true <-> exists post, s = t ++ post.
Proof.
  revert s; induction t as [|b t IH]; intros s; simpl.
  - split; [exists s; reflexivity | destruct s; reflexivity].
  - destruct s as [|a s].
    + split; [discriminate | intros [post H]; discriminate].
    + simpl. rewrite andb_true_iff, Ascii.eqb_eq, IH. split.
      * intros [-> [post ->]]. now exists post.
      * intros [post H]. injection H as -> ->. split; [reflexivity | now exists post].
Qed.

Lemma includes_spec (s t : string) :
  JS.includes s t = true <-> exists pre post, s = pre ++ t ++ post.
Proof.
  induction s as [|a s IH].
  - change (JS.includes "" t) with (JS.startsWith "" t || false).
    rewrite orb_false_r, startsWith_spec. split.
    + intros [post H]. now exists "", post.
    + intros (pre & post & H). destruct pre; [now exists post | discriminate].
  - change (JS.includes (String a s) t)
      with (JS.startsWith (String a s) t || JS.includes s t).
    rewrite orb_true_iff, startsWith_spec, IH. split.
    + intros [[post H] | (pre & post & H)].
      * now exists "", post.
      * exists (String a pre), post. simpl. now rewrite H.
    + intros (pre & post & H). destruct pre as [|c pre].
      * left. now exists post.
      * right. injection H as _ H. now exists pre, post.
Qed.

(** Folding the capitals identifies exactly the characters that are the
    same letter. *)
Lemma lower_ascii_same_letter (a b : ascii) :
  JS.lower_ascii a = JS.lower_ascii b <-> Spec.same_letter a b.
Proof.
  unfold JS.lower_ascii, Spec.same_letter.
  pose proof (N_ascii_bounded a) as Ha. pose proof (N_ascii_bounded b) as Hb.
  assert (Hinj : N_of_ascii a = N_of_ascii b -> a = b).
  { intros E. rewrite <- (ascii_N_embedding a), <- (ascii_N_embedding b). now rewrite E. }
  assert (Hup : forall c n, (n < 256)%N -> ascii_of_N n = c -> N_of_ascii c = n).
  { intros c n Hn <-. now apply N_ascii_embedding. }
  destruct (N.leb_spec 65 (N_of_ascii a)), (N.leb_spec (N_of_ascii a) 90),
    (N.leb_spec 65 (N_of_ascii b)), (N.leb_spec (N_of_ascii b) 90);
    cbn [andb]; (split; [intros E | intros [E|[[H' E]|[H' E]]]]).
  all: try (left; exact E).
  all: try lia.
  all: try (subst; reflexivity).
  all: try (left; apply Hinj; apply (f_equal N_of_ascii) in E;
             rewrite !N_ascii_embedding in E by lia; lia).
  all: try (rewrite <- E; apply ascii_N_embedding).
  all: try (rewrite <- E; symmetry; apply ascii_N_embedding).
  all: try (right; left; split; [lia|]; apply Hup; [lia | exact E]).
  all: try (right; right; split; [lia|]; symmetry in E; apply Hup; [lia | exact E]).
  all: subst; lia.
Qed.

Lemma same_up_to_case_lower (s t : string) :
  Spec.same_up_to_case s t <-> JS.toLowerCase s = JS.toLowerCase t.
Proof.
  revert t. induction s as [|a s IH]; intros [|b t]; cbn [Spec.same_up_to_case JS.toLowerCase].
  - tauto.
  - split; [tauto | discriminate].
  - split; [tauto | discriminate].
  - rewrite IH, <- lower_ascii_same_letter. split.
    + intros [-> ->]. reflexivity.
    + intros E. now injection E.
Qed.

(** The lower-cased comparison of the code is the occurrence up to case. *)
Lemma includes_ignoring_case (s term : string) :
  JS.includes (JS.toLowerCase s) (JS.toLowerCase term) = true
  <-> Spec.occurs_ignoring_case term s.
Proof.
  rewrite includes_spec. split.
  - intros (pre' & post' & H).
    destruct (toLowerCase_split _ _ _ H) as (pre & rest & -> & Hpre & Hrest).
    destruct (toLowerCase_split _ _ _ Hrest) as (mid & post & -> & Hmid & Hpost).
    exists pre, mid, post. split; [reflexivity | now apply same_up_to_case_lower].
  - intros (pre & mid & post & -> & Hmid). apply same_up_to_case_lower in Hmid.
    exists (JS.toLowerCase pre), (JS.toLowerCase post).
    now rewrite !toLowerCase_app, Hmid.
Qed.

Lemma array_includes_spec (l : list string) (x : string) :
  JS.array_includes l x = true <-> In x l.
Proof.
  unfold JS.array_includes. rewrite existsb_exists. split.
  - intros (y & Hy & E). apply String.eqb_eq in E. now subst.
  - intros H. exists x. split; [assumption | apply String.eqb_refl].
Qed.

(** ** Temperature *)

(** C1. The temperature special case is never reached: the table is looked up
    under the lower-cased unit, the keys of the two temperature entries hold a
    capital letter, so the lookup is [undefined] and the call returns its
    input; [convertUnits(0, '°C', 'imperial')] is [{ value: 0, unit: '°C' }]
    (not 32 °F), and likewise for 100 °C and 32 °F. *)
Theorem convertUnits_temperature_passthrough :
  (forall q, Utils.convertUnits q "°C" Utils.imperial
             = Utils.Return (Utils.mkAmount q "°C")) /\
  (forall q, Utils.convertUnits q "°F" Utils.metric
             = Utils.Return (Utils.mkAmount q "°F")) /\
  Utils.convertUnits 0 "°C" Utils.imperial
    <> Utils.Return (Utils.mkAmount 32 "°F") /\
  Utils.convertUnits 100 "°C" Utils.imperial
    <> Utils.Return (Utils.mkAmount 212 "°F") /\
  Utils.convertUnits 32 "°F" Utils.metric
    <> Utils.Return (Utils.mkAmount 0 "°C").
Proof.
  repeat split; try (intro q; reflexivity); intro H; discriminate H.
Qed.

(** ** Filtering *)

Lemma guard_filter {A : Type} (c : bool) (p : A -> bool) (l : list A) :
  (if c then filter p l else l) = filter (fun x => implb c (p x)) l.
Proof.
  destruct c; simpl; [reflexivity|].
  induction l as [|x l IH]; simpl; [reflexivity | now rewrite <- IH].
Qed.

Lemma filter_twice {A : Type} (p q : A -> bool) (l : list A) :
  filter q (filter p l) = filter (fun x => p x && q x) l.
Proof.
  induction l as [|x l IH]; simpl; [reflexivity|].
  destruct (p x); simpl; [destruct (q x)|]; now rewrite IH.
Qed.

Lemma some_spec {A : Type} (p : A -> bool) (l : list A) :
  JS.some p l = true <-> exists x, In x l /\ p x = true.
Proof. apply existsb_exists. Qed.

Lemma occurs_empty_term (s : string) : Spec.occurs_ignoring_case "" s.
Proof. exists "", "", s. split; [reflexivity | exact I]. Qed.

(** The five guarded stages, each against its clause of the predicate. *)
Lemma search_stage (f : Api.Filters.t) (r : Api.Recipe) :
  implb (Api.truthy_string (Api.Filters.search f))
    (let searchLower := JS.toLowerCase (Api.get_or "" (Api.Filters.search f)) in
     JS.includes (JS.toLowerCase (Api.title r)) searchLower
     || JS.includes (JS.toLowerCase (Api.description r)) searchLower
     || JS.some (fun tag => JS.includes (JS.toLowerCase tag) searchLower) (Api.tags r))
  = true
  <-> Spec.constrains (Api.Filters.search f) (fun term => Spec.matches_search term r).
Proof.
  unfold Spec.constrains, Spec.matches_search.
  destruct (Api.Filters.search f) as [[|c term]|]; simpl Api.truthy_string.
  - split; [|reflexivity]. intros _ a [= <-]. left. apply occurs_empty_term.
  - set (t := String c term).
    cbv beta iota zeta delta [implb Api.get_or].
    rewrite !orb_true_iff, !includes_ignoring_case, some_spec.
    split.
    + intros H a [= <-]. destruct H as [[H|H]|(tag & Hin & H)]; auto.
      right; right. exists tag. split; [assumption|].
      now apply includes_ignoring_case.
    + intros H. destruct (H _ eq_refl) as [H'|[H'|(tag & Hin & H')]]; auto.
      right. exists tag. split; [assumption|].
      now apply includes_ignoring_case.
  - split; [|reflexivity]. intros _ a [=].
Qed.

Lemma member_stage (field : option (list string)) (x : string) :
  implb (Api.truthy_length field) (JS.array_includes (Api.get_or [] field) x) = true
  <-> Spec.constrains field (fun set => set <> [] -> In x set).
Proof.
  unfold Spec.constrains.
  destruct field as [[|v set]|]; simpl Api.truthy_length.
  - split; [|reflexivity]. intros _ a [= <-] H. now elim H.
  - set (vs := v :: set). cbv beta iota delta [implb Api.get_or].
    rewrite array_includes_spec. split.
    + now intros H a [= <-] _.
    + intros H. apply (H _ eq_refl). discriminate.
  - split; [|reflexivity]. intros _ a [=].
Qed.

Lemma tags_stage (field : option (list string)) (r : Api.Recipe) :
  implb (Api.truthy_length field)
    (JS.some (fun tag => JS.array_includes (Api.tags r) tag) (Api.get_or [] field)) = true
  <-> Spec.constrains field
        (fun set => set <> [] -> exists tag, In tag (Api.tags r) /\ In tag set).
Proof.
  unfold Spec.constrains.
  destruct field as [[|v set]|]; simpl Api.truthy_length.
  - split; [|reflexivity]. intros _ a [= <-] H. now elim H.
  - set (vs := v :: set). cbv beta iota delta [implb Api.get_or].
    rewrite some_spec. split.
    + intros (tag & Hin & H) a [= <-] _. apply array_includes_spec in H. now exists tag.
    + intros H. destruct (H _ eq_refl) as (tag & Hr & Hs); [discriminate|].
      exists tag. split; [assumption | now apply array_includes_spec].
  - split; [|reflexivity]. intros _ a [=].
Qed.

Lemma bound_stage (field : option Z) (n : Z) :
  implb (Api.truthy_number field) (n <=? Api.get_or 0 field)%Z = true
  <-> Spec.constrains field (fun bound => bound <> 0%Z -> (n <= bound)%Z).
Proof.
  unfold Spec.constrains.
  destruct field as [bound|]; simpl Api.truthy_number; simpl Api.get_or.
  - destruct (Z.eqb_spec bound 0) as [->|Hne]; simpl implb.
    + split; [|reflexivity]. intros _ a [= <-] H. now elim H.
    + rewrite Z.leb_le. split; [now intros H a [= <-] _ | intros H; now apply (H _ eq_refl)].
  - split; [|reflexivity]. intros _ a [=].
Qed.

(** The predicate that the chain of filters keeps. *)
Lemma apply_filters_filter (f : Api.Filters.t) (l : list Api.Recipe) :
  Api.apply_filters (Some f) l
  = filter
      (fun recipe =>
         implb (Api.truthy_string (Api.Filters.search f))
           (let searchLower := JS.toLowerCase (Api.get_or "" (Api.Filters.search f)) in
            JS.includes (JS.toLowerCase (Api.title recipe)) searchLower
            || JS.includes (JS.toLowerCase (Api.description recipe)) searchLower
            || JS.some (fun tag => JS.includes (JS.toLowerCase tag) searchLower)
                 (Api.tags recipe))
         && implb (Api.truthy_length (Api.Filters.cuisine f))
              (JS.array_includes (Api.get_or [] (Api.Filters.cuisine f)) (Api.cuisine recipe))
         && implb (Api.truthy_length (Api.Filters.tags f))
              (JS.some (fun tag => JS.array_includes (Api.tags recipe) tag)
                 (Api.get_or [] (Api.Filters.tags f)))
         && implb (Api.truthy_number (Api.Filters.maxPrepTime f))
              (Api.prepTimeMins recipe <=? Api.get_or 0 (Api.Filters.maxPrepTime f))%Z
         && implb (Api.truthy_length (Api.Filters.difficulty f))
              (JS.array_includes (Api.get_or [] (Api.Filters.difficulty f))
                 (Api.difficulty recipe)))
      l.
Proof.
  unfold Api.apply_filters. cbv zeta.
  rewrite !guard_filter, !filter_twice.
  apply filter_ext. intros recipe. now rewrite !andb_assoc.
Qed.

Lemma satisfies_reflect (f : Api.Filters.t) :
  exists keep : Api.Recipe -> bool,
    (forall r, keep r = true <-> Spec.satisfies f r)
    /\ (forall l, Api.apply_filters (Some f) l = filter keep l).
Proof.
  eexists. split; [|intros l; apply apply_filters_filter].
  intros r. cbv beta. unfold Spec.satisfies.
  rewrite !andb_true_iff, search_stage, !member_stage, tags_stage, bound_stage.
  tauto.
Qed.

Lemma kept_recipe_meets_the_sets
  (f : Api.Filters.t) (l : list Api.Recipe) (r : Api.Recipe) :
  In r (Api.apply_filters (Some f) l) ->
  Spec.constrains (Api.Filters.cuisine f) (fun set => set <> [] -> In (Api.cuisine r) set)
  /\ Spec.constrains (Api.Filters.tags f)
       (fun set => set <> [] -> exists tag, In tag (Api.tags r) /\ In tag set)
  /\ Spec.constrains (Api.Filters.difficulty f)
       (fun set => set <> [] -> In (Api.difficulty r) set).
Proof.
  destruct (satisfies_reflect f) as (keep & Hkeep & Hfilter).
  rewrite Hfilter. intros H. apply filter_In in H. destruct H as [_ H].
  apply Hkeep in H. unfold Spec.satisfies in H. tauto.
Qed.

(** C3 (amended).  For every recipe list and filter spec, a recipe is in the
    filtered output exactly when it satisfies every field predicate that the
    code applies: the search term occurs, ignoring case, in the title, the
    description or some tag; the cuisine and the difficulty are members of the
    requested set when that set is not empty; some recipe tag is in the
    requested set when that set is not empty; the preparation time is at most
    the bound when the bound is not 0.  Absent fields, empty sets and a bound
    of 0 impose no constraint, and the output is the input filtered, so the
    matching recipes keep their order.  The search is stated for a term and
    for titles, descriptions and tags in ASCII, where ignoring case is
    identifying each capital A to Z with its small letter. *)
Theorem filter_keeps_the_satisfying_recipes :
  forall (f : Api.Filters.t) (l : list Api.Recipe),
    Spec.ascii_search (Api.Filters.search f) l ->
    exists keep : Api.Recipe -> bool,
      (forall r, keep r = true <-> Spec.satisfies f r)
      /\ Api.apply_filters (Some f) l = filter keep l
      /\ (forall r, In r (Api.apply_filters (Some f) l) <-> In r l /\ Spec.satisfies f r)
      /\ Api.apply_filters None l = l
      /\ (forall parse,
            Api.recipes (Api.getMockRecipes parse l (Some f) None None None)
            = filter keep l).
Proof.
  intros f l _. destruct (satisfies_reflect f) as (keep & Hkeep & Hfilter).
  exists keep. split; [exact Hkeep|]. split; [apply Hfilter|].
  split; [|split; [reflexivity|]].
  - intros r. rewrite Hfilter, filter_In, Hkeep. reflexivity.
  - intros parse. apply Hfilter.
Qed.

Lemma filter_keeps_the_satisfying_recipes_witness :
  Spec.ascii_search (Some "STEW") [Sample.stew; Sample.pie; Sample.souffle]
  /\ exists keep : Api.Recipe -> bool,
       (forall r,
           keep r = true
           <-> Spec.satisfies
                 (Api.Filters.mk (Some ["British"]) None (Some 10%Z) None (Some "STEW")) r)
       /\ Api.apply_filters
            (Some (Api.Filters.mk (Some ["British"]) None (Some 10%Z) None (Some "STEW")))
            [Sample.stew; Sample.pie; Sample.souffle]
          = filter keep [Sample.stew; Sample.pie; Sample.souffle]
       /\ Api.apply_filters
            (Some (Api.Filters.mk (Some ["British"]) None (Some 10%Z) None (Some "STEW")))
            [Sample.stew; Sample.pie; Sample.souffle]
          = [Sample.stew].
Proof.
  split; [reflexivity|].
  destruct (filter_keeps_the_satisfying_recipes
              (Api.Filters.mk (Some ["British"]) None (Some 10%Z) None (Some "STEW"))
              [Sample.stew; Sample.pie; Sample.souffle])
    as (keep & Hkeep & Hfilter & _); [reflexivity|].
  exists keep. split; [exact Hkeep|]. split; [exact Hfilter | reflexivity].
Defined.

(** C3, as first stated, fails on a bound of 0: the guard takes it for an
    absent bound, and a recipe of 5 minutes passes [maxPrepTime: 0]. *)
Lemma filter_zero_bound_is_no_bound :
  In Sample.stew
     (Api.apply_filters (Some (Api.Filters.mk None None (Some 0%Z) None None))
        [Sample.stew; Sample.pie])
  /\ ~ Spec.satisfies_every_present
        (Api.Filters.mk None None (Some 0%Z) None None) Sample.stew.
Proof.
  split.
  - left. reflexivity.
  - intros (_ & _ & _ & H & _). specialize (H _ eq_refl). simpl in H. lia.
Qed.

(** C10.  The cuisine, tags and difficulty filters match by equality of
    strings, character for character.  Whatever the filters and the recipes,
    a recipe is kept exactly when it passes the search and the bound and each
    requested set that is not empty holds a value equal to its stored string
    (for the tags: to one of its tags).  So a recipe is excluded when every
    requested value differs from the stored string, in letter case only or
    otherwise, and kept, the search and the bound left out, when one is
    equal.  The search, in contrast, finds a tag that is the term up to
    letter case. *)
Theorem exact_filters_are_case_sensitive :
  forall (f : Api.Filters.t) (l : list Api.Recipe) (r : Api.Recipe),
    (In r (Api.apply_filters (Some f) l)
     <-> In r (Api.apply_filters (Some (Spec.without_exact_filters f)) l)
         /\ Spec.matches_exactly f r)
    /\ (forall set : list string,
          set <> [] ->
          (Api.Filters.cuisine f = Some set
           /\ forall v, In v set -> v <> Api.cuisine r)
          \/ (Api.Filters.difficulty f = Some set
              /\ forall v, In v set -> v <> Api.difficulty r)
          \/ (Api.Filters.tags f = Some set
              /\ forall v, In v set -> ~ In v (Api.tags r)) ->
          ~ In r (Api.apply_filters (Some f) l))
    /\ (forall set : list string,
          In r l ->
          (In (Api.cuisine r) set ->
           In r (Api.apply_filters
                   (Some (Api.Filters.mk (Some set) None None None None)) l))
          /\ (In (Api.difficulty r) set ->
              In r (Api.apply_filters
                      (Some (Api.Filters.mk None None None (Some set) None)) l))
          /\ ((exists tag, In tag set /\ In tag (Api.tags r)) ->
              In r (Api.apply_filters
                      (Some (Api.Filters.mk None (Some set) None None None)) l)))
    /\ (forall v : string,
          In r l ->
          (exists tag, In tag (Api.tags r) /\ Spec.same_up_to_case tag v) ->
          In r (Api.apply_filters
                  (Some (Api.Filters.mk None None None None (Some v))) l)).
Proof.
  intros f l r.
  assert (Hkept : forall g, In r (Api.apply_filters (Some g) l)
                            <-> In r l /\ Spec.satisfies g r).
  { intros g. destruct (satisfies_reflect g) as (keep & Hkeep & Hfilter).
    now rewrite Hfilter, filter_In, Hkeep. }
  split; [|split; [|split]].
  - rewrite !Hkept.
    unfold Spec.satisfies, Spec.matches_exactly, Spec.without_exact_filters,
      Spec.constrains.
    cbn [Api.Filters.cuisine Api.Filters.tags Api.Filters.maxPrepTime
         Api.Filters.difficulty Api.Filters.search].
    split.
    + intros (Hin & Hs & Hc & Ht & Hb & Hd).
      split; [split; [exact Hin|]; repeat split; (exact Hs || exact Hb || discriminate)|].
      split; [|split].
      * intros set E Hne. exists (Api.cuisine r). split; [now apply (Hc set)|reflexivity].
      * intros set E Hne. destruct (Ht set E Hne) as (tag & Hr & Hset).
        now exists tag, tag.
      * intros set E Hne. exists (Api.difficulty r).
        split; [now apply (Hd set)|reflexivity].
    + intros ((Hin & Hs & _ & _ & Hb & _) & Hc & Ht & Hd).
      split; [exact Hin|]. split; [exact Hs|]. split; [|split; [|split; [exact Hb|]]].
      * intros set E Hne. destruct (Hc set E Hne) as (v & Hv & <-). exact Hv.
      * intros set E Hne. destruct (Ht set E Hne) as (v & tag & Hv & Hr & <-).
        now exists v.
      * intros set E Hne. destruct (Hd set E Hne) as (v & Hv & <-). exact Hv.
  - intros set Hne H Hin. apply Hkept in Hin.
    destruct Hin as (_ & _ & Hc & Ht & _ & Hd).
    destruct H as [(E & Hall) | [(E & Hall) | (E & Hall)]].
    + now apply (Hall _ (Hc set E Hne)).
    + now apply (Hall _ (Hd set E Hne)).
    + destruct (Ht set E Hne) as (tag & Hr & Hset). now apply (Hall tag).
  - intros set Hin.
    split; [|split]; intros H; apply Hkept; (split; [exact Hin|]);
      unfold Spec.satisfies, Spec.constrains;
      cbn [Api.Filters.cuisine Api.Filters.tags Api.Filters.maxPrepTime
           Api.Filters.difficulty Api.Filters.search];
      repeat split; try discriminate; intros a [= <-] _.
    + exact H.
    + exact H.
    + destruct H as (tag & Hset & Hr). now exists tag.
  - intros v Hin (tag & Htag & Hsame). apply Hkept. split; [exact Hin|].
    unfold Spec.satisfies, Spec.constrains.
    cbn [Api.Filters.cuisine Api.Filters.tags Api.Filters.maxPrepTime
         Api.Filters.difficulty Api.Filters.search].
    split; [|repeat split; discriminate].
    intros a [= <-]. right; right. exists tag. split; [exact Htag|].
    exists "", tag, "". split; [|exact Hsame].
    cbn [String.append]. clear.
    induction tag as [|c t IH]; cbn [String.append]; [reflexivity | now rewrite <- IH].
Qed.

Lemma exact_filters_are_case_sensitive_witness :
  ~ In Sample.stew
      (Api.apply_filters
         (Some (Api.Filters.mk (Some ["british"; "French"]) None None None None))
         [Sample.stew; Sample.pie; Sample.souffle])
  /\ In Sample.stew
       (Api.apply_filters
          (Some (Api.Filters.mk (Some ["French"; "British"]) None None None None))
          [Sample.stew; Sample.pie; Sample.souffle])
  /\ In Sample.stew
       (Api.apply_filters
          (Some (Api.Filters.mk None None None None (Some "CLASSIC")))
          [Sample.stew; Sample.pie; Sample.souffle]).
Proof.
  destruct (exact_filters_are_case_sensitive
              (Api.Filters.mk (Some ["british"; "French"]) None None None None)
              [Sample.stew; Sample.pie; Sample.souffle] Sample.stew)
    as (_ & Hout & Hin & Hsearch).
  split; [|split].
  - apply (Hout ["british"; "French"]); [discriminate|]. left.
    split; [reflexivity|]. intros v [<-|[<-|[]]]; discriminate.
  - apply (Hin ["French"; "British"]); [left; reflexivity|]. right. left. reflexivity.
  - apply Hsearch; [left; reflexivity|]. exists "Classic". split; [right; left; reflexivity|].
    cbn. repeat split; (left; reflexivity) || (right; right; split; [cbn; lia | reflexivity]).
Defined.

(** ** Pagination *)

Lemma positions_from_start {A : Type} (l : list A) (i a : Z) (b : option Z) :
  (a <= i)%Z ->
  Spec.positions i a b l
  = match b with
    | Some b => firstn (Z.to_nat (b - i)) l
    | None => l
    end.
Proof.
  revert i; induction l as [|x l IH]; intros i Hi; simpl.
  - destruct b; [now rewrite firstn_nil | reflexivity].
  - rewrite IH by lia. destruct (Z.leb_spec a i); [|lia]. simpl.
    destruct b as [b|]; [|reflexivity].
    destruct (Z.ltb_spec i b).
    + replace (Z.to_nat (b - i)) with (S (Z.to_nat (b - (i + 1)))) by lia.
      reflexivity.
    + replace (Z.to_nat (b - i)) with 0%nat by lia.
      replace (Z.to_nat (b - (i + 1))) with 0%nat by lia. reflexivity.
Qed.

Lemma positions_before_start {A : Type} (l : list A) (i a : Z) (b : option Z) :
  (i <= a)%Z ->
  Spec.positions i a b l
  = match b with
    | Some b => firstn (Z.to_nat (b - a)) (skipn (Z.to_nat (a - i)) l)
    | None => skipn (Z.to_nat (a - i)) l
    end.
Proof.
  revert i; induction l as [|x l IH]; intros i Hi.
  - simpl. rewrite skipn_nil. destruct b; [now rewrite firstn_nil | reflexivity].
  - destruct (Z.eq_dec i a) as [->|Hne].
    + rewrite positions_from_start by lia. now rewrite Z.sub_diag.
    + simpl Spec.positions. destruct (Z.leb_spec a i); [lia|]. simpl andb. cbv iota.
      rewrite IH by lia.
      replace (Z.to_nat (a - i)) with (S (Z.to_nat (a - (i + 1)))) by lia.
      reflexivity.
Qed.

(** The clamping of [slice] changes nothing for indices that are not
    negative. *)
Lemma slice_interval {A : Type} (l : list A) (a : Z) (b : option Z) :
  (0 <= a)%Z -> (forall e, b = Some e -> a <= e)%Z ->
  JS.slice l a b = Spec.interval a b l.
Proof.
  intros Ha Hb. unfold Spec.interval. rewrite positions_before_start by assumption.
  rewrite Z.sub_0_r. unfold JS.slice, JS.relative_index.
  destruct (Z.ltb_spec a 0); [lia|].
  assert (Hlen := length_skipn (Z.to_nat a) l).
  destruct (Z.le_gt_cases a (Z.of_nat (List.length l))) as [Hin|Hout].
  - rewrite Z.min_l by assumption.
    destruct b as [e|].
    + specialize (Hb e eq_refl). destruct (Z.ltb_spec e 0); [lia|].
      destruct (Z.le_gt_cases e (Z.of_nat (List.length l))).
      * now rewrite Z.min_l.
      * rewrite Z.min_r by lia. rewrite !firstn_all2; [reflexivity | lia | lia].
    + apply firstn_all2. lia.
  - rewrite Z.min_r by lia. rewrite Nat2Z.id.
    rewrite skipn_all. rewrite firstn_nil.
    rewrite skipn_all2 by lia. destruct b; [now rewrite firstn_nil | reflexivity].
Qed.

(** C4 (amended).  Pagination returns the input unchanged when neither a
    limit nor an offset other than 0 is given, and otherwise exactly the slice
    [[offset ?? 0, (offset ?? 0) + limit)], which runs to the end of the list
    when the limit is absent or 0: a limit of 0 counts as absent.  Paginating
    ten recipes with limit 3 and offset 3 yields the fourth, fifth and
    sixth. *)
Theorem pagination_is_the_slice :
  forall (l : list Api.Recipe) (limit offset : option Z),
    (0 <= Api.get_or 0 limit)%Z ->
    (0 <= Api.get_or 0 offset)%Z ->
    Api.apply_pagination limit offset l
    = Spec.paginate (if Api.truthy_number limit then limit else None) offset l
    /\ (Api.truthy_number limit = false -> Api.truthy_number offset = false ->
        Api.apply_pagination limit offset l = l)
    /\ (forall parse filters sort,
          Api.recipes (Api.getMockRecipes parse l filters sort limit offset)
          = Spec.paginate (if Api.truthy_number limit then limit else None) offset
              (Api.apply_sorting parse sort (Api.apply_filters filters l)))
    /\ (forall r1 r2 r3 r4 r5 r6 r7 r8 r9 r10 : Api.Recipe,
          Api.apply_pagination (Some 3%Z) (Some 3%Z) [r1; r2; r3; r4; r5; r6; r7; r8; r9; r10]
          = [r4; r5; r6]).
Proof.
  intros l limit offset Hlimit Hoffset.
  assert (Hstage : forall l' : list Api.Recipe,
             Api.apply_pagination limit offset l'
             = Spec.paginate (if Api.truthy_number limit then limit else None) offset l').
  { intros l'. unfold Api.apply_pagination, Spec.paginate.
    destruct limit as [n|], offset as [o|]; simpl in *;
      repeat match goal with
             | |- context [(?x =? 0)%Z] => destruct (Z.eqb_spec x 0); subst; simpl
             end;
      try reflexivity;
      try (rewrite slice_interval; [reflexivity | lia | intros e [= <-]; lia]);
      try (rewrite slice_interval; [reflexivity | lia | intros e [=]]);
      try (unfold Spec.interval; now rewrite positions_from_start by lia). }
  split; [apply Hstage|]. split; [|split].
  - intros Hl Ho. unfold Api.apply_pagination. now rewrite Hl, Ho.
  - intros parse filters sort. unfold Api.getMockRecipes. simpl. apply Hstage.
  - reflexivity.
Qed.

(** C4, as first stated, fails on a limit of 0: the guard takes it for an
    absent limit and the whole list comes back, not the empty slice. *)
Lemma pagination_limit_zero_is_no_limit :
  Api.apply_pagination (Some 0%Z) None [Sample.stew; Sample.pie]
  = [Sample.stew; Sample.pie]
  /\ Spec.paginate (Some 0%Z) None [Sample.stew; Sample.pie] = []
  /\ Api.apply_pagination (Some 0%Z) None [Sample.stew; Sample.pie]
     <> Spec.paginate (Some 0%Z) None [Sample.stew; Sample.pie].
Proof.
  repeat split; discriminate.
Qed.

Lemma pagination_is_the_slice_witness :
  Api.apply_pagination (Some 1%Z) (Some 1%Z) [Sample.stew; Sample.pie; Sample.souffle]
  = Spec.paginate (Some 1%Z) (Some 1%Z) [Sample.stew; Sample.pie; Sample.souffle].
Proof.
  apply (pagination_is_the_slice
           [Sample.stew; Sample.pie; Sample.souffle] (Some 1%Z) (Some 1%Z));
    simpl; lia.
Defined.

(** ** Sorting *)

Section Sorting.

Context {A : Type} (comparefn : A -> A -> Z).

Lemma insert_permutation (x : A) (l : list A) :
  Permutation (JS.insert comparefn x l) (x :: l).
Proof.
  induction l as [|y l IH]; simpl; [reflexivity|].
  destruct (0 <? comparefn x y)%Z; [|reflexivity].
  rewrite IH. apply perm_swap.
Qed.

(** Whatever the comparison function, the sort returns the elements it was
    given. *)
Lemma sort_permutation (l : list A) : Permutation (JS.sort comparefn l) l.
Proof.
  induction l as [|x l IH]; simpl; [reflexivity|].
  rewrite insert_permutation. now constructor.
Qed.

(** Elements that the comparison function does not tell apart keep their
    input order: the sort is stable. *)
Lemma insert_filter (keep : A -> bool) (x : A) (l : list A) :
  (forall y, In y l -> keep x = true -> keep y = true -> (comparefn x y <= 0)%Z) ->
  filter keep (JS.insert comparefn x l) = filter keep (x :: l).
Proof.
  induction l as [|y l IH]; intros H; [reflexivity|].
  simpl JS.insert. destruct (Z.ltb_spec 0 (comparefn x y)) as [Hgt|Hle]; [|reflexivity].
  simpl filter. rewrite IH by (intros z Hz; apply H; now right). simpl filter.
  destruct (keep x) eqn:Hx, (keep y) eqn:Hy; try reflexivity.
  specialize (H y (or_introl eq_refl) eq_refl Hy). lia.
Qed.

Lemma sort_stable (keep : A -> bool) (l : list A) :
  (forall x y, In x l -> In y l -> keep x = true -> keep y = true ->
               (comparefn x y <= 0)%Z) ->
  filter keep (JS.sort comparefn l) = filter keep l.
Proof.
  induction l as [|x l IH]; intros H; [reflexivity|].
  simpl JS.sort. rewrite insert_filter.
  - simpl. rewrite IH; [reflexivity|]. intros a b Ha Hb. apply H; now right.
  - intros y Hy. apply H; [now left|]. right.
    now apply (Permutation_in _ (sort_permutation l)).
Qed.

(** [precedes a b]: the order allows [a] before [b].  When the comparison
    function agrees with such a relation, transitive on the elements in
    question (those of [domain]), the output is in order. *)
Variable domain : A -> Prop.
Variable precedes : A -> A -> Prop.
Hypothesis precedes_trans :
  forall a b c, domain a -> domain b -> domain c ->
                precedes a b -> precedes b c -> precedes a c.
Hypothesis stays :
  forall x y, domain x -> domain y -> (comparefn x y <= 0)%Z -> precedes x y.
Hypothesis moves :
  forall x y, domain x -> domain y -> (0 < comparefn x y)%Z -> precedes y x.

Lemma insert_sorted (x : A) (l : list A) :
  domain x -> Forall domain l ->
  StronglySorted precedes l -> StronglySorted precedes (JS.insert comparefn x l).
Proof.
  intros Hx Hl Hsorted. revert Hl.
  induction Hsorted as [|y l Hsorted IH Hall]; intros Hl; simpl.
  - repeat constructor.
  - inversion Hl as [|? ? Hy Hl']; subst.
    destruct (Z.ltb_spec 0 (comparefn x y)) as [Hgt|Hle].
    + constructor; [now apply IH|].
      apply (Permutation_Forall (Permutation_sym (insert_permutation x l))).
      constructor; [now apply moves | exact Hall].
    + assert (Hxy : precedes x y) by now apply stays.
      constructor; [now constructor|].
      constructor; [exact Hxy|].
      rewrite Forall_forall in Hall, Hl'. apply Forall_forall. intros z Hz.
      apply precedes_trans with y; auto.
Qed.

Lemma sort_sorted (l : list A) :
  Forall domain l -> StronglySorted precedes (JS.sort comparefn l).
Proof.
  induction 1 as [|x l Hx Hl IH]; simpl; [constructor|].
  apply insert_sorted; [exact Hx | | exact IH].
  now apply (Permutation_Forall (Permutation_sym (sort_permutation l))).
Qed.

End Sorting.

(** The order of strings that [<] computes is a strict total order. *)
Lemma ltb_lt (a b : string) : String.ltb a b = true <-> String_as_OT.lt a b.
Proof.
  unfold String.ltb. rewrite <- String_as_OT.cmp_lt. unfold String_as_OT.cmp.
  destruct (String.compare a b); split; congruence.
Qed.

Lemma ltb_asym (a b : string) : String.ltb a b = true -> String.ltb b a = false.
Proof.
  unfold String.ltb. rewrite (String.compare_antisym b a).
  destruct (String.compare a b); simpl; congruence.
Qed.

Lemma ltb_trans (a b c : string) :
  String.ltb a b = true -> String.ltb b c = true -> String.ltb a c = true.
Proof.
  rewrite !ltb_lt. apply String_as_OT.lt_trans.
Qed.

Lemma ltb_total (a b : string) :
  String.ltb a b = false -> String.ltb b a = false -> a = b.
Proof.
  unfold String.ltb. rewrite (String.compare_antisym b a).
  destruct (String.compare a b) eqn:E; simpl; try congruence.
  intros _ _. now apply String.compare_eq_iff.
Qed.

(** [a] does not come after [b]. *)
Lemma not_after_trans (a b c : string) :
  String.ltb b a = false -> String.ltb c b = false -> String.ltb c a = false.
Proof.
  intros Hba Hcb. destruct (String.ltb c a) eqn:Hca; [|reflexivity].
  destruct (String.ltb a b) eqn:Hab.
  - now rewrite (ltb_trans c a b) in Hcb.
  - rewrite (ltb_total a b Hab Hba) in Hca. congruence.
Qed.

(** C9.  Sorting by difficulty, ascending, returns the recipes in the order
    of the raw comparison of their labels: the output is a permutation of the
    input in which no recipe is followed by one whose label is smaller as a
    string.  For the three labels this is 'Easy' < 'Hard' < 'Medium', so a
    Hard recipe comes before a Medium one: not the order of severity. *)
Theorem difficulty_sort_is_lexicographic :
  forall (parse : string -> JS.TimeValue) (l : list Api.Recipe),
    let sorted :=
      Api.apply_sorting parse (Some (Api.Sort.mk Api.Sort.difficulty Api.Sort.asc)) l in
    Permutation sorted l
    /\ StronglySorted
         (fun a b => String.ltb (Api.difficulty b) (Api.difficulty a) = false) sorted
    /\ (forall label : string,
          filter (fun r => String.eqb (Api.difficulty r) label) sorted
          = filter (fun r => String.eqb (Api.difficulty r) label) l)
    /\ String.ltb "Easy" "Hard" = true
    /\ String.ltb "Hard" "Medium" = true
    /\ Api.apply_sorting parse (Some (Api.Sort.mk Api.Sort.difficulty Api.Sort.asc))
         [Sample.pie; Sample.souffle; Sample.stew]
       = [Sample.stew; Sample.souffle; Sample.pie]
    /\ map Api.difficulty [Sample.stew; Sample.souffle; Sample.pie]
       = ["Easy"; "Hard"; "Medium"].
Proof.
  intros parse l sorted. split; [apply sort_permutation|].
  split; [|split; [|repeat split]].
  apply sort_sorted with (domain := fun _ => True).
  - intros a b c _ _ _. apply not_after_trans.
  - intros x y _ _. unfold Api.comparefn, Api.less. simpl.
    destruct (String.ltb (Api.difficulty x) (Api.difficulty y)) eqn:Hxy.
    + intros _. now apply ltb_asym.
    + destruct (String.ltb (Api.difficulty y) (Api.difficulty x)); [lia | reflexivity].
  - intros x y _ _. unfold Api.comparefn, Api.less. simpl.
    destruct (String.ltb (Api.difficulty x) (Api.difficulty y)); [lia|reflexivity].
  - now apply Forall_forall.
  - intros label. apply sort_stable. intros x y _ _ Hx Hy.
    apply String.eqb_eq in Hx, Hy. unfold Api.comparefn, Api.less. simpl.
    rewrite Hx, Hy. unfold String.ltb.
    replace (String.compare label label) with Eq; [lia|].
    symmetry. now apply String_as_OT.cmp_eq.
Qed.

(** ** Dates *)

Lemma digit_cases (n : Z) :
  (0 <= n <= 9)%Z ->
  n = 0%Z \/ n = 1%Z \/ n = 2%Z \/ n = 3%Z \/ n = 4%Z
  \/ n = 5%Z \/ n = 6%Z \/ n = 7%Z \/ n = 8%Z \/ n = 9%Z.
Proof. lia. Qed.

Ltac each_digit n H :=
  destruct (digit_cases n H) as [->|[->|[->|[->|[->|[->|[->|[->|[->| ->]]]]]]]]].

Lemma digit_of_digit_char (n : Z) :
  (0 <= n <= 9)%Z -> JS.digit (Spec.digit_char n) = Some n.
Proof. intros H. each_digit n H; reflexivity. Qed.

Lemma digit_char_is_no_slash (n : Z) :
  (0 <= n <= 9)%Z -> Ascii.eqb (Spec.digit_char n) "/" = false.
Proof. intros H. each_digit n H; reflexivity. Qed.

Lemma digits2_of_two_digits (n : Z) :
  (0 <= n <= 99)%Z ->
  JS.digits2 (Spec.digit_char (n / 10)) (Spec.digit_char (n mod 10)) = Some n.
Proof.
  intros H. unfold JS.digits2.
  rewrite !digit_of_digit_char by (Z.div_mod_to_equations; lia).
  f_equal. Z.div_mod_to_equations; lia.
Qed.

Lemma digits4_of_four_digits (n : Z) :
  (0 <= n <= 9999)%Z ->
  JS.digits4 (Spec.digit_char (n / 100 / 10)) (Spec.digit_char ((n / 100) mod 10))
    (Spec.digit_char (n mod 100 / 10)) (Spec.digit_char ((n mod 100) mod 10)) = Some n.
Proof.
  intros H. unfold JS.digits4.
  rewrite !digits2_of_two_digits by (Z.div_mod_to_equations; lia).
  f_equal. Z.div_mod_to_equations; lia.
Qed.

(** Splitting at the slashes gives the three tokens. *)
Lemma split_day_month_year (d m y : Z) :
  (0 <= d <= 99)%Z -> (0 <= m <= 99)%Z -> (0 <= y <= 9999)%Z ->
  JS.split "/" (Spec.day_month_year d m y)
  = [Spec.two_digits d; Spec.two_digits m; Spec.four_digits y].
Proof.
  intros Hd Hm Hy.
  unfold Spec.day_month_year, Spec.four_digits, Spec.two_digits.
  cbn [String.append JS.split].
  rewrite !digit_char_is_no_slash by (Z.div_mod_to_equations; lia).
  reflexivity.
Qed.

Lemma date_only_year_month_day (d m y : Z) :
  Spec.calendar_date d m y ->
  JS.date_only (Spec.year_month_day y m d) = Some (y, m, d).
Proof.
  intros (Hy & Hm & Hd).
  assert (JS.DaysInMonth (JS.InLeapYear y) m <= 31)%Z.
  { unfold JS.DaysInMonth.
    destruct (m =? 2)%Z, (JS.InLeapYear y),
      ((m =? 4) || (m =? 6) || (m =? 9) || (m =? 11))%Z; lia. }
  unfold Spec.year_month_day, Spec.four_digits, Spec.two_digits.
  cbn [String.append JS.date_only].
  change (Ascii.eqb "-" "-") with true. cbn [andb].
  rewrite digits4_of_four_digits by lia.
  rewrite !digits2_of_two_digits by lia.
  destruct Hm as [Hm1 Hm2], Hd as [Hd1 Hd2].
  apply Z.leb_le in Hm1, Hm2, Hd1, Hd2.
  now rewrite Hm1, Hm2, Hd1, Hd2.
Qed.

(** The date the comparison makes of a stored [DD/MM/YYYY]: midnight UTC of
    that day, whatever else the engine recognises. *)
Lemma date_value_day_month_year (parse : string -> JS.TimeValue) (d m y : Z) :
  Spec.calendar_date d m y ->
  Api.date_value parse (Some (Spec.day_month_year d m y))
  = JS.Date parse (Spec.year_month_day y m d)
  /\ JS.Date parse (Spec.year_month_day y m d) = Some (JS.MakeDate y m d).
Proof.
  intros H. pose proof H as (Hy & Hm & Hd).
  assert (JS.DaysInMonth (JS.InLeapYear y) m <= 31)%Z.
  { unfold JS.DaysInMonth.
    destruct (m =? 2)%Z, (JS.InLeapYear y),
      ((m =? 4) || (m =? 6) || (m =? 9) || (m =? 11))%Z; lia. }
  split.
  - unfold Api.date_value. rewrite split_day_month_year by lia. reflexivity.
  - unfold JS.Date. now rewrite date_only_year_month_day.
Qed.

Lemma DayFromYear_succ (y : Z) :
  (JS.DayFromYear (y + 1)
   = JS.DayFromYear y + 365 + (if JS.InLeapYear y then 1 else 0))%Z.
Proof.
  unfold JS.DayFromYear, JS.InLeapYear.
  assert (H4 : ((y + 1 - 1969) / 4
                = (y - 1969) / 4 + (if y mod 4 =? 0 then 1 else 0))%Z).
  { destruct (Z.eqb_spec (y mod 4) 0); Z.div_mod_to_equations; lia. }
  assert (H100 : ((y + 1 - 1901) / 100
                  = (y - 1901) / 100 + (if y mod 100 =? 0 then 1 else 0))%Z).
  { destruct (Z.eqb_spec (y mod 100) 0); Z.div_mod_to_equations; lia. }
  assert (H400 : ((y + 1 - 1601) / 400
                  = (y - 1601) / 400 + (if y mod 400 =? 0 then 1 else 0))%Z).
  { destruct (Z.eqb_spec (y mod 400) 0); Z.div_mod_to_equations; lia. }
  rewrite H4, H100, H400.
  assert (D1 : (y mod 100 = 0 -> y mod 4 = 0)%Z).
  { intros H. Z.div_mod_to_equations. lia. }
  assert (D2 : (y mod 400 = 0 -> y mod 100 = 0)%Z).
  { intros H. Z.div_mod_to_equations. lia. }
  destruct (Z.eqb_spec (y mod 4) 0), (Z.eqb_spec (y mod 100) 0),
    (Z.eqb_spec (y mod 400) 0); cbn [andb orb negb]; lia.
Qed.

(** A later year starts after the whole of an earlier one. *)
Lemma DayFromYear_next (y1 y2 : Z) :
  (y1 < y2 ->
   JS.DayFromYear y1 + 365 + (if JS.InLeapYear y1 then 1 else 0)
   <= JS.DayFromYear y2)%Z.
Proof.
  intros H. rewrite <- DayFromYear_succ.
  assert (G : forall n, (0 <= n)%Z ->
                        (JS.DayFromYear (y1 + 1) <= JS.DayFromYear (y1 + 1 + n))%Z).
  { apply natlike_ind.
    - rewrite Z.add_0_r. lia.
    - intros n Hn IH. replace (y1 + 1 + Z.succ n)%Z with ((y1 + 1 + n) + 1)%Z by lia.
      rewrite (DayFromYear_succ (y1 + 1 + n)).
      destruct (JS.InLeapYear (y1 + 1 + n)); lia. }
  specialize (G (y2 - (y1 + 1))%Z).
  replace (y1 + 1 + (y2 - (y1 + 1)))%Z with y2 in G by lia.
  apply G. lia.
Qed.

Lemma month_cases (m : Z) :
  (1 <= m <= 12)%Z ->
  m = 1%Z \/ m = 2%Z \/ m = 3%Z \/ m = 4%Z \/ m = 5%Z \/ m = 6%Z
  \/ m = 7%Z \/ m = 8%Z \/ m = 9%Z \/ m = 10%Z \/ m = 11%Z \/ m = 12%Z.
Proof. lia. Qed.

Ltac each_month m H :=
  destruct (month_cases m H)
    as [->|[->|[->|[->|[->|[->|[->|[->|[->|[->|[->| ->]]]]]]]]]]].

(** The day of the year lies within the year. *)
Lemma day_within_year (leap : bool) (m d : Z) :
  (1 <= m <= 12)%Z -> (1 <= d <= JS.DaysInMonth leap m)%Z ->
  (0 <= JS.DaysBeforeMonth leap m + (d - 1) < 365 + (if leap then 1 else 0))%Z.
Proof.
  intros Hm. each_month m Hm; destruct leap;
    cbv [JS.DaysInMonth JS.DaysBeforeMonth Z.eqb Z.leb Z.compare Pos.compare
         Pos.compare_cont Pos.eqb orb];
    lia.
Qed.

(** Within a year a later month starts after the whole of an earlier one. *)
Lemma month_after_month (leap : bool) (m1 m2 : Z) :
  (1 <= m1 <= 12)%Z -> (1 <= m2 <= 12)%Z -> (m1 < m2)%Z ->
  (JS.DaysBeforeMonth leap m1 + JS.DaysInMonth leap m1
   <= JS.DaysBeforeMonth leap m2)%Z.
Proof.
  intros H1 H2. each_month m1 H1; each_month m2 H2; intros Hlt; try lia;
    destruct leap; vm_compute; discriminate.
Qed.

Lemma MakeDate_earlier (d1 m1 y1 d2 m2 y2 : Z) :
  Spec.calendar_date d1 m1 y1 -> Spec.calendar_date d2 m2 y2 ->
  Spec.earlier d1 m1 y1 d2 m2 y2 ->
  (JS.MakeDate y1 m1 d1 < JS.MakeDate y2 m2 d2)%Z.
Proof.
  intros (_ & Hm1 & Hd1) (_ & Hm2 & Hd2) He.
  unfold JS.MakeDate, JS.msPerDay.
  apply Z.mul_lt_mono_pos_r; [lia|].
  pose proof (day_within_year _ _ _ Hm1 Hd1) as W1.
  pose proof (day_within_year _ _ _ Hm2 Hd2) as W2.
  destruct He as [Hy | [-> [Hm | [-> Hd]]]].
  - pose proof (DayFromYear_next _ _ Hy). lia.
  - pose proof (month_after_month (JS.InLeapYear y2) _ _ Hm1 Hm2 Hm). lia.
  - lia.
Qed.

Lemma MakeDate_chronological (d1 m1 y1 d2 m2 y2 : Z) :
  Spec.calendar_date d1 m1 y1 -> Spec.calendar_date d2 m2 y2 ->
  (JS.MakeDate y1 m1 d1 <? JS.MakeDate y2 m2 d2)%Z = true
  <-> Spec.earlier d1 m1 y1 d2 m2 y2.
Proof.
  intros H1 H2. rewrite Z.ltb_lt. split; [|now apply MakeDate_earlier].
  intros Hlt.
  destruct (Z.lt_trichotomy y1 y2) as [Hy|[Hy|Hy]]; [now left | |].
  - destruct (Z.lt_trichotomy m1 m2) as [Hm|[Hm|Hm]]; [right; auto | |].
    + destruct (Z.lt_trichotomy d1 d2) as [Hd|[Hd|Hd]]; [right; auto | |].
      * subst. lia.
      * assert (Spec.earlier d2 m2 y2 d1 m1 y1) by (right; auto).
        pose proof (MakeDate_earlier _ _ _ _ _ _ H2 H1 H). lia.
    + assert (Spec.earlier d2 m2 y2 d1 m1 y1) by (right; auto).
      pose proof (MakeDate_earlier _ _ _ _ _ _ H2 H1 H). lia.
  - assert (Spec.earlier d2 m2 y2 d1 m1 y1) by (left; auto).
    pose proof (MakeDate_earlier _ _ _ _ _ _ H2 H1 H). lia.
Qed.

Lemma Date_lt_invalid (x : JS.TimeValue) :
  JS.Date_lt None x = false /\ JS.Date_lt x None = false.
Proof. destruct x; split; reflexivity. Qed.

Lemma less_by_date (parse : string -> JS.TimeValue) (x y : Api.Recipe)
      (dx mx yx dy my yy : Z) :
  Spec.calendar_date dx mx yx -> Spec.calendar_date dy my yy ->
  Api.datePublished x = Some (Spec.day_month_year dx mx yx) ->
  Api.datePublished y = Some (Spec.day_month_year dy my yy) ->
  Api.less parse Api.Sort.datePublished x y = true
  <-> Spec.earlier dx mx yx dy my yy.
Proof.
  intros Hx Hy Ex Ey. unfold Api.less. rewrite Ex, Ey.
  destruct (date_value_day_month_year parse _ _ _ Hx) as [-> ->].
  destruct (date_value_day_month_year parse _ _ _ Hy) as [-> ->].
  now apply MakeDate_chronological.
Qed.

Lemma calendar_date_is_valid (parse : string -> JS.TimeValue) (r : Api.Recipe) :
  Spec.has_calendar_date r ->
  exists t, Api.date_value parse (Api.datePublished r) = Some t.
Proof.
  intros (d & m & y & H & E). rewrite E.
  destruct (date_value_day_month_year parse _ _ _ H) as [-> ->]. eauto.
Qed.

Lemma StronglySorted_weaken {A : Type} (R R' : A -> A -> Prop) (l : list A) :
  (forall a b, In a l -> In b l -> R a b -> R' a b) ->
  StronglySorted R l -> StronglySorted R' l.
Proof.
  intros H Hs. induction Hs as [|x l Hs IH Hall]; constructor.
  - apply IH. intros a b Ha Hb. apply H; now right.
  - rewrite Forall_forall in *. intros z Hz. apply H; [now left | now right | auto].
Qed.

(** Recipes with dates of the calendar come out of the sort by date in the
    order of the comparison. *)
Lemma date_sort_sorted (parse : string -> JS.TimeValue)
      (direction : Api.Sort.Direction) (l : list Api.Recipe) :
  Forall Spec.has_calendar_date l ->
  StronglySorted
    (fun p q =>
       match direction with
       | Api.Sort.asc => Api.less parse Api.Sort.datePublished q p = false
       | Api.Sort.desc => Api.less parse Api.Sort.datePublished p q = false
       end)
    (JS.sort (Api.comparefn parse (Api.Sort.mk Api.Sort.datePublished direction)) l).
Proof.
  apply sort_sorted.
  - intros a b c Ha Hb Hc.
    destruct (calendar_date_is_valid parse a Ha) as [ta Ea].
    destruct (calendar_date_is_valid parse b Hb) as [tb Eb].
    destruct (calendar_date_is_valid parse c Hc) as [tc Ec].
    unfold Api.less. rewrite Ea, Eb, Ec. simpl.
    destruct direction; rewrite !Z.ltb_ge; lia.
  - intros x y Hx Hy.
    destruct (calendar_date_is_valid parse x Hx) as [tx Ex].
    destruct (calendar_date_is_valid parse y Hy) as [ty Ey].
    unfold Api.comparefn, Api.less. simpl Api.Sort.field. simpl Api.Sort.direction.
    rewrite Ex, Ey. simpl.
    destruct (Z.ltb_spec tx ty), (Z.ltb_spec ty tx), direction; lia || reflexivity.
  - intros x y Hx Hy.
    destruct (calendar_date_is_valid parse x Hx) as [tx Ex].
    destruct (calendar_date_is_valid parse y Hy) as [ty Ey].
    unfold Api.comparefn, Api.less. simpl Api.Sort.field. simpl Api.Sort.direction.
    rewrite Ex, Ey. simpl.
    destruct (Z.ltb_spec tx ty), (Z.ltb_spec ty tx), direction; lia || reflexivity.
Qed.

(** C6.  The comparison by date of publication reverses the day/month/year
    tokens of each stored string into year-month-day, makes a date of it, and
    compares the two dates chronologically: for two dates of the calendar the
    first recipe is less exactly when its date is earlier, so it goes first
    ascending and the later one goes first descending.  Two recipes of
    01/02/2024 and 15/01/2024 sorted descending give the one of 01/02/2024
    first, in whichever order they came. *)
Theorem date_sort_is_chronological :
  forall (parse : string -> JS.TimeValue) (a b : Api.Recipe)
         (d1 m1 y1 d2 m2 y2 : Z),
    Spec.calendar_date d1 m1 y1 ->
    Spec.calendar_date d2 m2 y2 ->
    Api.datePublished a = Some (Spec.day_month_year d1 m1 y1) ->
    Api.datePublished b = Some (Spec.day_month_year d2 m2 y2) ->
    Api.date_value parse (Api.datePublished a)
    = JS.Date parse (Spec.year_month_day y1 m1 d1)
    /\ (Api.less parse Api.Sort.datePublished a b = true
        <-> Spec.earlier d1 m1 y1 d2 m2 y2)
    /\ (Api.comparefn parse (Api.Sort.mk Api.Sort.datePublished Api.Sort.asc) a b
        = (-1)%Z <-> Spec.earlier d1 m1 y1 d2 m2 y2)
    /\ (Api.comparefn parse (Api.Sort.mk Api.Sort.datePublished Api.Sort.desc) a b
        = (-1)%Z <-> Spec.earlier d2 m2 y2 d1 m1 y1)
    /\ (forall l : list Api.Recipe,
          Forall Spec.has_calendar_date l ->
          Permutation
            (Api.apply_sorting parse
               (Some (Api.Sort.mk Api.Sort.datePublished Api.Sort.asc)) l) l
          /\ StronglySorted (fun p q => ~ Spec.published_before q p)
               (Api.apply_sorting parse
                  (Some (Api.Sort.mk Api.Sort.datePublished Api.Sort.asc)) l)
          /\ StronglySorted (fun p q => ~ Spec.published_before p q)
               (Api.apply_sorting parse
                  (Some (Api.Sort.mk Api.Sort.datePublished Api.Sort.desc)) l))
    /\ (forall p q : Api.Recipe,
          Api.datePublished p = Some "01/02/2024" ->
          Api.datePublished q = Some "15/01/2024" ->
          Api.apply_sorting parse
            (Some (Api.Sort.mk Api.Sort.datePublished Api.Sort.desc)) [q; p] = [p; q]
          /\ Api.apply_sorting parse
               (Some (Api.Sort.mk Api.Sort.datePublished Api.Sort.desc)) [p; q] = [p; q]).
Proof.
  intros parse a b d1 m1 y1 d2 m2 y2 H1 H2 Ha Hb.
  destruct (date_value_day_month_year parse _ _ _ H1) as [Ra Va].
  destruct (date_value_day_month_year parse _ _ _ H2) as [Rb Vb].
  pose proof (less_by_date parse a b _ _ _ _ _ _ H1 H2 Ha Hb) as Lab.
  pose proof (less_by_date parse b a _ _ _ _ _ _ H2 H1 Hb Ha) as Lba.
  assert (Hasym : Spec.earlier d1 m1 y1 d2 m2 y2 -> Spec.earlier d2 m2 y2 d1 m1 y1 -> False).
  { unfold Spec.earlier. lia. }
  split; [now rewrite Ha|]. split; [exact Lab|]. split; [|split; [|split]].
  - unfold Api.comparefn. simpl Api.Sort.field. simpl Api.Sort.direction.
    destruct (Api.less parse Api.Sort.datePublished a b).
    + split; [intros _; now apply Lab | reflexivity].
    + destruct (Api.less parse Api.Sort.datePublished b a); split;
        try discriminate; intros H; apply Lab in H; discriminate.
  - unfold Api.comparefn. simpl Api.Sort.field. simpl Api.Sort.direction.
    destruct (Api.less parse Api.Sort.datePublished a b) eqn:Eab.
    + split; [discriminate|]. intros H. exfalso. apply Hasym; [now apply Lab | exact H].
    + destruct (Api.less parse Api.Sort.datePublished b a); split;
        try discriminate; try reflexivity.
      * intros _. now apply Lba.
      * intros H. apply Lba in H. discriminate.
  - intros l Hl. split; [apply sort_permutation|].
    split; unfold Api.apply_sorting.
    + apply StronglySorted_weaken with (2 := date_sort_sorted parse Api.Sort.asc l Hl).
      intros p q _ _ Hqp (dq & mq & yq & dp & mp & yp & Cq & Cp & Eq' & Ep & He).
      apply (less_by_date parse q p _ _ _ _ _ _ Cq Cp Eq' Ep) in He. congruence.
    + apply StronglySorted_weaken with (2 := date_sort_sorted parse Api.Sort.desc l Hl).
      intros p q _ _ Hpq (dp & mp & yp & dq & mq & yq & Cp & Cq & Ep & Eq' & He).
      apply (less_by_date parse p q _ _ _ _ _ _ Cp Cq Ep Eq') in He. congruence.
  - intros p q Hp Hq.
    unfold Api.apply_sorting, JS.sort, JS.insert, fold_right, Api.comparefn, Api.less.
    simpl Api.Sort.field. simpl Api.Sort.direction.
    rewrite Hp, Hq. split; reflexivity.
Qed.

Lemma date_sort_is_chronological_witness :
  Api.less Sample.standard_only Api.Sort.datePublished Sample.stew Sample.pie = true
  <-> Spec.earlier 15 1 2024 1 2 2024.
Proof.
  apply (date_sort_is_chronological Sample.standard_only Sample.stew Sample.pie
           15 1 2024 1 2 2024).
  - unfold Spec.calendar_date. repeat split; apply Z.leb_le; reflexivity.
  - unfold Spec.calendar_date. repeat split; apply Z.leb_le; reflexivity.
  - reflexivity.
  - reflexivity.
Defined.

(** C2 (amended).  When sorting by date of publication, a recipe whose date
    string makes an invalid date compares as equal to every other recipe, in
    either position and either direction (the comparison function returns 0).
    The date gives it no place: sorted with one other recipe, the two keep the
    order they came in, whichever comes first and in either direction, so the
    sort does not move it in front of a date that parses.  The sort returns
    nonetheless, with every recipe of the input. *)
Theorem unparseable_date_compares_equal :
  forall (parse : string -> JS.TimeValue) (direction : Api.Sort.Direction)
         (a b : Api.Recipe),
    Api.date_value parse (Api.datePublished a) = None ->
    Api.comparefn parse (Api.Sort.mk Api.Sort.datePublished direction) a b = 0%Z
    /\ Api.comparefn parse (Api.Sort.mk Api.Sort.datePublished direction) b a = 0%Z
    /\ Api.apply_sorting parse (Some (Api.Sort.mk Api.Sort.datePublished direction))
         [a; b] = [a; b]
    /\ Api.apply_sorting parse (Some (Api.Sort.mk Api.Sort.datePublished direction))
         [b; a] = [b; a]
    /\ (forall (sort : Api.Sort.t) (l : list Api.Recipe),
          Permutation (Api.apply_sorting parse (Some sort) l) l).
Proof.
  intros parse direction a b Ha.
  assert (Hab : Api.comparefn parse (Api.Sort.mk Api.Sort.datePublished direction) a b
                = 0%Z
                /\ Api.comparefn parse (Api.Sort.mk Api.Sort.datePublished direction) b a
                   = 0%Z).
  { unfold Api.comparefn, Api.less. simpl Api.Sort.field. rewrite Ha.
    destruct (Date_lt_invalid (Api.date_value parse (Api.datePublished b))) as [-> ->].
    split; reflexivity. }
  destruct Hab as [Hab Hba]. split; [exact Hab|]. split; [exact Hba|].
  split; [|split].
  - unfold Api.apply_sorting. cbn [JS.sort fold_right JS.insert]. now rewrite Hab.
  - unfold Api.apply_sorting. cbn [JS.sort fold_right JS.insert]. now rewrite Hba.
  - intros sort l. apply sort_permutation.
Qed.

Lemma unparseable_date_compares_equal_witness :
  Api.comparefn Sample.standard_only
    (Api.Sort.mk Api.Sort.datePublished Api.Sort.asc) Sample.souffle Sample.stew = 0%Z
  /\ Api.apply_sorting Sample.standard_only
       (Some (Api.Sort.mk Api.Sort.datePublished Api.Sort.asc))
       [Sample.stew; Sample.souffle]
     = [Sample.stew; Sample.souffle]
  /\ Api.apply_sorting Sample.standard_only
       (Some (Api.Sort.mk Api.Sort.datePublished Api.Sort.asc))
       [Sample.souffle; Sample.stew]
     = [Sample.souffle; Sample.stew].
Proof.
  destruct (unparseable_date_compares_equal Sample.standard_only Api.Sort.asc
              Sample.souffle Sample.stew) as (Hab & _ & Hfirst & Hlast & _).
  - reflexivity.
  - split; [exact Hab|]. split; [exact Hlast | exact Hfirst].
Defined.

(** C2, as first stated, fails: the recipe whose date does not parse is not
    taken for the earliest; it compares as equal to a recipe of 15/01/2024 and
    stays behind it in the ascending sort. *)
Lemma unparseable_date_is_not_earliest :
  Api.date_value Sample.standard_only (Api.datePublished Sample.souffle) = None
  /\ Api.date_value Sample.standard_only (Api.datePublished Sample.stew)
     = Some 1705276800000%Z
  /\ Api.comparefn Sample.standard_only
       (Api.Sort.mk Api.Sort.datePublished Api.Sort.asc) Sample.souffle Sample.stew
     <> (-1)%Z
  /\ Api.apply_sorting Sample.standard_only
       (Some (Api.Sort.mk Api.Sort.datePublished Api.Sort.asc))
       [Sample.stew; Sample.souffle]
     = [Sample.stew; Sample.souffle].
Proof.
  split; [reflexivity|]. split; [reflexivity|]. split; [discriminate | reflexivity].
Qed.

(** ** Rounding and scaling *)

Local Open Scope Q_scope.

Lemma Math_round_bounds (x : Q) :
  x - (1 # 2) < JS.Math_round x <= x + (1 # 2).
Proof.
  unfold JS.Math_round.
  pose proof (Qfloor_le (x + (1 # 2))).
  pose proof (Qlt_floor (x + (1 # 2))) as H1.
  rewrite inject_Z_plus in H1. change (inject_Z 1) with 1 in H1. split; lra.
Qed.

Lemma Math_round_mono (x y : Q) : x <= y -> JS.Math_round x <= JS.Math_round y.
Proof.
  intros H. unfold JS.Math_round. rewrite <- Zle_Qle. apply Qfloor_resp_le. lra.
Qed.

Lemma Math_round_integer (k : Z) : JS.Math_round (inject_Z k) == inject_Z k.
Proof.
  pose proof (Math_round_bounds (inject_Z k)) as [Hlo Hhi].
  unfold JS.Math_round in *.
  generalize dependent (Qfloor (inject_Z k + (1 # 2))). intros f Hlo Hhi.
  replace f with k; [reflexivity|].
  unfold Qlt, Qle, Qminus, Qplus, Qopp, inject_Z in *. cbn [Qnum Qden] in *. lia.
Qed.

Lemma round_le_integer (x : Q) (k : Z) :
  x <= inject_Z k -> JS.Math_round x <= inject_Z k.
Proof.
  intros H. pose proof (Math_round_mono _ _ H). pose proof (Math_round_integer k). lra.
Qed.

Lemma integer_le_round (x : Q) (k : Z) :
  inject_Z k <= x -> inject_Z k <= JS.Math_round x.
Proof.
  intros H. pose proof (Math_round_mono _ _ H). pose proof (Math_round_integer k). lra.
Qed.

(** The three roundings of the code are the roundings to 2, 1 and 0
    decimals. *)
Lemma round_2_decimals (x : Q) : Spec.rounded_to 2 x (JS.Math_round (x * 100) / 100).
Proof.
  exists (Qfloor (x * 100 + (1 # 2))). split; [reflexivity|].
  apply (Math_round_bounds (x * 100)).
Qed.

Lemma round_1_decimal (x : Q) : Spec.rounded_to 1 x (JS.Math_round (x * 10) / 10).
Proof.
  exists (Qfloor (x * 10 + (1 # 2))). split; [reflexivity|].
  apply (Math_round_bounds (x * 10)).
Qed.

Lemma round_0_decimals (x : Q) : Spec.rounded_to 0 x (JS.Math_round x).
Proof.
  exists (Qfloor (x + (1 # 2))). split.
  - change (JS.Math_round x == JS.Math_round x * 1). now rewrite Qmult_1_r.
  - change (x * 1 - (1 # 2) < JS.Math_round x <= x * 1 + (1 # 2)).
    rewrite Qmult_1_r. apply (Math_round_bounds x).
Qed.


(** The rounding by tier does not decrease. *)
Lemma tier_rounding_mono (x y : Q) :
  x <= y ->
  (if Qlt_le_dec x 1 then JS.Math_round (x * 100) / 100
   else if Qlt_le_dec x 10 then JS.Math_round (x * 10) / 10
        else JS.Math_round x)
  <= (if Qlt_le_dec y 1 then JS.Math_round (y * 100) / 100
      else if Qlt_le_dec y 10 then JS.Math_round (y * 10) / 10
           else JS.Math_round y).
Proof.
  intros Hxy.
  assert (B100 : x < 1 -> JS.Math_round (x * 100) <= 100).
  { intros H. apply (round_le_integer _ 100). change (inject_Z 100) with 100. lra. }
  assert (B10 : x < 10 -> JS.Math_round (x * 10) <= 100).
  { intros H. apply (round_le_integer _ 100). change (inject_Z 100) with 100. lra. }
  assert (A10 : 1 <= y -> 10 <= JS.Math_round (y * 10)).
  { intros H. apply (integer_le_round _ 10). change (inject_Z 10) with 10. lra. }
  assert (A1 : 10 <= y -> 10 <= JS.Math_round y).
  { intros H. apply (integer_le_round _ 10). exact H. }
  assert (M100 : JS.Math_round (x * 100) <= JS.Math_round (y * 100)).
  { apply Math_round_mono. lra. }
  assert (M10 : JS.Math_round (x * 10) <= JS.Math_round (y * 10)).
  { apply Math_round_mono. lra. }
  assert (M1 : JS.Math_round x <= JS.Math_round y).
  { now apply Math_round_mono. }
  unfold Qdiv. change (/ 100) with (1 # 100). change (/ 10) with (1 # 10).
  destruct (Qlt_le_dec x 1), (Qlt_le_dec y 1), (Qlt_le_dec x 10), (Qlt_le_dec y 10);
    try specialize (B100 ltac:(assumption)); try specialize (B10 ltac:(assumption));
    try specialize (A10 ltac:(assumption)); try specialize (A1 ltac:(assumption));
    lra.
Qed.

(** C8.  For a positive quantity and a positive number of original servings,
    the scaled quantity does not decrease when the new number of servings
    grows, across the tiers at 1 and at 10 as well. *)
Theorem scaling_is_monotone :
  forall originalQuantity originalServings newServings1 newServings2 : Q,
    0 < originalQuantity ->
    0 < originalServings ->
    newServings1 <= newServings2 ->
    Utils.scaleIngredientQuantity originalQuantity originalServings newServings1
    <= Utils.scaleIngredientQuantity originalQuantity originalServings newServings2.
Proof.
  intros q s n1 n2 Hq Hs Hn. unfold Utils.scaleIngredientQuantity. cbv zeta.
  apply tier_rounding_mono.
  apply Qmult_le_l; [exact Hq|].
  unfold Qdiv. apply Qmult_le_compat_r; [exact Hn|].
  apply Qinv_le_0_compat. lra.
Qed.

Lemma scaling_is_monotone_witness :
  Utils.scaleIngredientQuantity (5 # 10) 4 6 <= Utils.scaleIngredientQuantity (5 # 10) 4 8.
Proof.
  apply (scaling_is_monotone (5 # 10) 4 6 8); reflexivity || discriminate.
Defined.

(** ** Conversion there and back *)

(** A unit that the table holds under its own spelling, other than the two
    of temperature, is converted by the multiplier of the target side and
    rounded for display. *)
Lemma convertUnits_entry (q : Q) (u : string) (sys : Utils.UnitSystem)
      (c : Utils.UnitConversion) :
  Utils.get Utils.conversions (JS.toLowerCase u) = Utils.Own c ->
  String.eqb u "°C" = false ->
  String.eqb u "°F" = false ->
  Utils.convertUnits q u sys
  = Utils.Return
      (Utils.mkAmount
         (if Qlt_le_dec (q * Utils.value (Utils.side c sys)) 1
          then JS.Math_round (q * Utils.value (Utils.side c sys) * 100) / 100
          else JS.Math_round (q * Utils.value (Utils.side c sys) * 10) / 10)
         (Utils.unit (Utils.side c sys))).
Proof.
  intros Hget HC HF. unfold Utils.convertUnits. now rewrite Hget, HC, HF.
Qed.

(** The rounding for display moves a value by at most 0.05. *)
Lemma display_rounding_error (x : Q) :
  - (1 # 20)
  <= (if Qlt_le_dec x 1 then JS.Math_round (x * 100) / 100
      else JS.Math_round (x * 10) / 10) - x
  <= 1 # 20.
Proof.
  pose proof (Math_round_bounds (x * 100)). pose proof (Math_round_bounds (x * 10)).
  unfold Qdiv. change (/ 100) with (1 # 100). change (/ 10) with (1 # 10).
  destruct (Qlt_le_dec x 1); lra.
Qed.

(** There and back: the two roundings, the first one scaled by the second
    multiplier. *)
Lemma two_roundings (q c1 c2 : Q) :
  0 <= c2 ->
  let there := if Qlt_le_dec (q * c1) 1 then JS.Math_round (q * c1 * 100) / 100
               else JS.Math_round (q * c1 * 10) / 10 in
  let back := if Qlt_le_dec (there * c2) 1 then JS.Math_round (there * c2 * 100) / 100
              else JS.Math_round (there * c2 * 10) / 10 in
  Qabs (back - q * c1 * c2) <= (1 + c2) * (1 # 20).
Proof.
  intros Hc2 there back.
  pose proof (display_rounding_error (q * c1)) as E1. fold there in E1.
  pose proof (display_rounding_error (there * c2)) as E2. fold back in E2.
  apply Qabs_Qle_condition.
  generalize dependent back. generalize dependent there. intros there E1 back E2.
  assert (S1 : (there - q * c1) * c2 <= (1 # 20) * c2).
  { apply Qmult_le_compat_r; lra. }
  assert (S2 : - (1 # 20) * c2 <= (there - q * c1) * c2).
  { apply Qmult_le_compat_r; lra. }
  split; lra.
Qed.

Lemma round_trip_entries (q : Q) (u u' : string) (c c' : Utils.UnitConversion) :
  Utils.get Utils.conversions (JS.toLowerCase u) = Utils.Own c ->
  String.eqb u "°C" = false -> String.eqb u "°F" = false ->
  Utils.unit (Utils.on_imperial c) = u' ->
  Utils.get Utils.conversions (JS.toLowerCase u') = Utils.Own c' ->
  String.eqb u' "°C" = false -> String.eqb u' "°F" = false ->
  0 <= Utils.value (Utils.on_metric c') ->
  exists back : Utils.Amount,
    Spec.round_trip q u = Utils.Return back
    /\ Utils.unit back = Utils.unit (Utils.on_metric c')
    /\ Qabs (Utils.value back
             - q * Utils.value (Utils.on_imperial c) * Utils.value (Utils.on_metric c'))
       <= (1 + Utils.value (Utils.on_metric c')) * (1 # 20).
Proof.
  intros Hc HC HF Hu Hc' HC' HF' Hpos. unfold Spec.round_trip.
  rewrite (convertUnits_entry q u Utils.imperial c Hc HC HF).
  cbn [Utils.value Utils.unit Utils.side]. rewrite Hu.
  rewrite (convertUnits_entry _ u' Utils.metric c' Hc' HC' HF').
  cbn [Utils.side]. eexists. split; [reflexivity|]. split; [reflexivity|].
  cbn [Utils.value]. now apply two_roundings.
Qed.

(** A distance to [q * k], for a [k] within 3 millionths of 1, is a distance
    to [q]. *)
Lemma near_the_original (v q k bound : Q) :
  1 - (3 # 1000000) <= k <= 1 + (3 # 1000000) ->
  Qabs (v - q * k) <= bound ->
  Qabs (v - q) <= bound + (3 # 1000000) * Qabs q.
Proof.
  intros Hk H. apply Qabs_Qle_condition in H. apply Qabs_Qle_condition.
  assert (Hd : Qabs (q * (k - 1)) <= Qabs q * (3 # 1000000)).
  { rewrite Qabs_Qmult. apply Qmult_le_compat_nonneg.
    - split; [apply Qabs_nonneg | apply Qle_refl].
    - split; [apply Qabs_nonneg|]. apply Qabs_Qle_condition. split; lra. }
  apply Qabs_Qle_condition in Hd.
  generalize dependent (Qabs q). intros a Hd. split; lra.
Qed.

(** C5 (amended).  For every unit of the table other than the two of
    temperature, converting a quantity [q] to imperial and back to metric
    returns, in the metric unit of the entry of the imperial unit, a value
    within [0.05 * (1 + back)] of [q * there * back], the two multipliers of
    the table: the first rounding is scaled by the second multiplier.  For g,
    kg and ml the unit is the original one and the value is within
    [0.05 * (1 + back) + 0.000003 * |q|] of the original. *)
Theorem round_trip_error :
  forall (q : Q) (u : string) (entry : Utils.UnitConversion),
    In (u, entry) Spec.non_temperature ->
    exists (entry' : Utils.UnitConversion) (back : Utils.Amount),
      Utils.own_property (Utils.unit (Utils.on_imperial entry)) Utils.conversions
      = Some entry'
      /\ Spec.round_trip q u = Utils.Return back
      /\ Utils.unit back = Utils.unit (Utils.on_metric entry')
      /\ Qabs (Utils.value back
               - q * Utils.value (Utils.on_imperial entry)
                 * Utils.value (Utils.on_metric entry'))
         <= (1 + Utils.value (Utils.on_metric entry')) * (1 # 20)
      /\ (In u ["g"; "kg"; "ml"] ->
          Utils.unit back = u
          /\ Qabs (Utils.value back - q)
             <= (1 + Utils.value (Utils.on_metric entry')) * (1 # 20)
                + (3 # 1000000) * Qabs q).
Proof.
  intros q u entry H.
  assert (Hcase :
    exists u' entry',
      Utils.get Utils.conversions (JS.toLowerCase u) = Utils.Own entry
      /\ String.eqb u "°C" = false /\ String.eqb u "°F" = false
      /\ Utils.unit (Utils.on_imperial entry) = u'
      /\ Utils.get Utils.conversions (JS.toLowerCase u') = Utils.Own entry'
      /\ String.eqb u' "°C" = false /\ String.eqb u' "°F" = false
      /\ Utils.own_property u' Utils.conversions = Some entry'
      /\ 0 <= Utils.value (Utils.on_metric entry')
      /\ (In u ["g"; "kg"; "ml"] ->
          Utils.unit (Utils.on_metric entry') = u
          /\ 1 - (3 # 1000000)
             <= Utils.value (Utils.on_imperial entry) * Utils.value (Utils.on_metric entry')
             <= 1 + (3 # 1000000))).
  { destruct H as [H|[H|[H|[H|[H|[H|[H|[H|[]]]]]]]]]; injection H as <- <-;
      do 2 eexists; (repeat (split; [reflexivity|]));
      (split; [discriminate|]);
      (intros [E|[E|[E|[]]]]; try discriminate E);
      (split; [reflexivity|]); cbn [Utils.value Utils.on_imperial Utils.on_metric];
      split; discriminate. }
  destruct Hcase as (u' & entry' & Hc & HC & HF & Hu & Hc' & HC' & HF' & Hown & Hpos & Hsame).
  destruct (round_trip_entries q u u' entry entry' Hc HC HF Hu Hc' HC' HF' Hpos)
    as (back & Hback & Hunit & Hbound).
  exists entry', back. rewrite Hu.
  split; [exact Hown|]. split; [exact Hback|]. split; [exact Hunit|].
  split; [exact Hbound|].
  intros Hin. destruct (Hsame Hin) as [Hu2 Hk]. split; [congruence|].
  apply near_the_original with
    (k := Utils.value (Utils.on_imperial entry) * Utils.value (Utils.on_metric entry'));
    [exact Hk|].
  now rewrite Qmult_assoc.
Qed.

Lemma round_trip_error_witness :
  exists (entry' : Utils.UnitConversion) (back : Utils.Amount),
    Utils.own_property "oz" Utils.conversions = Some entry'
    /\ Spec.round_trip 100 "g" = Utils.Return back
    /\ Utils.unit back = Utils.unit (Utils.on_metric entry')
    /\ Qabs (Utils.value back - 100 * (35274 # 1000000) * Utils.value (Utils.on_metric entry'))
       <= (1 + Utils.value (Utils.on_metric entry')) * (1 # 20)
    /\ (In "g" ["g"; "kg"; "ml"] ->
        Utils.unit back = "g"
        /\ Qabs (Utils.value back - 100)
           <= (1 + Utils.value (Utils.on_metric entry')) * (1 # 20)
              + (3 # 1000000) * Qabs 100).
Proof.
  apply (round_trip_error 100 "g"
           (Utils.mkConversion (Utils.mkAmount 1 "g")
              (Utils.mkAmount (35274 # 1000000) "oz"))).
  left. reflexivity.
Defined.

(** C5, as first stated, fails: 100 g are 3.5274 oz, displayed as 3.5 oz,
    which are 99.22325 g, displayed as 99.2 g: 0.8 g from the original, not
    within 0.1. *)
Lemma round_trip_of_100_g :
  Utils.convertUnits 100 "g" Utils.imperial
  = Utils.Return (Utils.mkAmount (35 # 10) "oz")
  /\ Utils.convertUnits (35 # 10) "oz" Utils.metric
     = Utils.Return (Utils.mkAmount (992 # 10) "g")
  /\ Spec.round_trip 100 "g" = Utils.Return (Utils.mkAmount (992 # 10) "g")
  /\ ~ Spec.within_rounding_tolerance 100 (992 # 10).
Proof.
  split; [reflexivity|]. split; [reflexivity|]. split; [reflexivity|].
  intros [H _]. assert (H' := H ltac:(discriminate)).
  vm_compute in H'. now apply H'.
Qed.

(** * Further properties of the conversion and the scaling *)

Lemma toLowerCase_idempotent (s : string) :
  JS.toLowerCase (JS.toLowerCase s) = JS.toLowerCase s.
Proof.
  induction s as [|c s IH]; simpl; [reflexivity|]. rewrite IH. f_equal.
  destruct c as [[] [] [] [] [] [] [] []]; reflexivity.
Qed.

(** The keys of the table are not keys of [Object.prototype]. *)
Lemma own_property_key (key : string) (c : Utils.UnitConversion) :
  Utils.own_property key Utils.conversions = Some c ->
  In key (map fst Utils.conversions).
Proof.
  unfold Utils.conversions. cbn [Utils.own_property map fst].
  repeat match goal with
         | |- context [String.eqb ?k key] =>
             destruct (String.eqb_spec k key) as [<-|_]; [intros _; cbn; tauto|]
         end.
  discriminate.
Qed.

Lemma plain_unit_entry (key : string) :
  In key Spec.plain_units ->
  exists c, Utils.get Utils.conversions key = Utils.Own c
            /\ In (key, c) Spec.non_temperature
            /\ String.eqb key "°C" = false /\ String.eqb key "°F" = false.
Proof.
  intros H. repeat (destruct H as [<-|H]; [eexists; repeat split; cbn; tauto|]).
  destruct H.
Qed.

(** A spelling whose lower case is a plain unit is not a temperature. *)
Lemma plain_unit_spelling (u : string) :
  In (JS.toLowerCase u) Spec.plain_units ->
  String.eqb u "°C" = false /\ String.eqb u "°F" = false.
Proof.
  intros H.
  split; apply String.eqb_neq; intros ->;
    repeat (destruct H as [H|H]; [discriminate H|]); destruct H.
Qed.

(** The calls that throw are those that find an inherited property. *)
Lemma throws_on_prototype_keys (q : Q) (u : string) (sys : Utils.UnitSystem) :
  Utils.convertUnits q u sys = Utils.Throw
  <-> In (JS.toLowerCase u) Utils.prototype_keys.
Proof.
  unfold Utils.convertUnits, Utils.get.
  destruct (Utils.own_property (JS.toLowerCase u) Utils.conversions) as [c|] eqn:Hown.
  - split.
    + destruct (String.eqb u "°C" && _); [discriminate|].
      destruct (String.eqb u "°F" && _); discriminate.
    + intros Hin. apply own_property_key in Hown.
      destruct Hin as [E|[E|[]]]; rewrite <- E in Hown; cbn in Hown;
        repeat (destruct Hown as [Hown|Hown]; [discriminate Hown|]); destruct Hown.
  - rewrite <- array_includes_spec.
    destruct (JS.array_includes Utils.prototype_keys (JS.toLowerCase u)) eqn:Hproto.
    + assert (HC : String.eqb u "°C" = false).
      { apply String.eqb_neq. intros ->. discriminate Hproto. }
      assert (HF : String.eqb u "°F" = false).
      { apply String.eqb_neq. intros ->. discriminate Hproto. }
      rewrite HC, HF. cbn [andb]. tauto.
    + split; discriminate.
Qed.

(** X1.  [convertUnits] throws exactly for the units whose lower-cased
    spelling names a property of [Object.prototype]: the lookup finds the
    inherited value, which is truthy and holds no side for the target system.
    Of the twelve names only [constructor] and [__proto__] can be met, the
    others holding a capital that the lower-casing removes from the key; for
    every other unit the call returns. *)
Theorem convertUnits_throws_on_inherited_keys :
  forall (q : Q) (u : string) (sys : Utils.UnitSystem),
    (Utils.convertUnits q u sys = Utils.Throw
     <-> In (JS.toLowerCase u) JS.Object_prototype_names)
    /\ (Utils.convertUnits q u sys = Utils.Throw
        <-> JS.toLowerCase u = "constructor" \/ JS.toLowerCase u = "__proto__").
Proof.
  intros q u sys. rewrite throws_on_prototype_keys.
  assert (Hnames : In (JS.toLowerCase u) JS.Object_prototype_names
                   <-> In (JS.toLowerCase u) Utils.prototype_keys).
  { pose proof (toLowerCase_idempotent u) as Hfixed. split.
    - intros Hin. unfold JS.Object_prototype_names in Hin.
      repeat (destruct Hin as [E|Hin];
              [rewrite <- E in Hfixed;
               first [discriminate Hfixed | rewrite <- E; cbn; tauto]|]).
      destruct Hin.
    - intros [E|[E|[]]]; rewrite <- E; cbn; tauto. }
  split; [symmetry; exact Hnames|].
  cbn [In Utils.prototype_keys]. split.
  - intros [E|[E|[]]]; [left | right]; now symmetry.
  - intros [E|E]; [left | right; left]; now symmetry.
Qed.

(** X2.  The lookup ignores the case of the unit: a spelling whose lower case
    is one of the eight plain units converts as the lower-case spelling does,
    to the same value and the same unit label. *)
Theorem convertUnits_ignores_case :
  forall (q : Q) (u : string) (sys : Utils.UnitSystem),
    In (JS.toLowerCase u) Spec.plain_units ->
    Utils.convertUnits q u sys = Utils.convertUnits q (JS.toLowerCase u) sys.
Proof.
  intros q u sys H.
  destruct (plain_unit_entry _ H) as (c & Hc & _ & HC & HF).
  destruct (plain_unit_spelling u H) as [HC' HF'].
  rewrite (convertUnits_entry q u sys c Hc HC' HF').
  rewrite (convertUnits_entry q (JS.toLowerCase u) sys c); auto.
  now rewrite toLowerCase_idempotent.
Qed.

Lemma convertUnits_ignores_case_witness :
  Utils.convertUnits 2 "KG" Utils.imperial = Utils.convertUnits 2 (JS.toLowerCase "KG") Utils.imperial.
Proof.
  apply (convertUnits_ignores_case 2 "KG" Utils.imperial). right. left. reflexivity.
Defined.

(** The display rounding lands on the display grid and stays within 0.05 of
    its argument, within 0.005 below 1. *)
Lemma display_rounding_grid (x : Q) :
  Spec.on_display_grid
    (if Qlt_le_dec x 1 then JS.Math_round (x * 100) / 100
     else JS.Math_round (x * 10) / 10).
Proof.
  unfold Qdiv. change (/ 100) with (1 # 100). change (/ 10) with (1 # 10).
  destruct (Qlt_le_dec x 1) as [Hlt|Hge].
  - pose proof (round_le_integer (x * 100) 100) as B.
    change (inject_Z 100) with 100 in B. specialize (B ltac:(lra)).
    destruct (Qlt_le_dec (JS.Math_round (x * 100) * (1 # 100)) 1) as [H1|H1].
    + left. split; [exact H1|]. now exists (Qfloor (x * 100 + (1 # 2))).
    + right. split; [exact H1|]. exists 10%Z. change (inject_Z 10) with 10. lra.
  - pose proof (integer_le_round (x * 10) 10) as B.
    change (inject_Z 10) with 10 in B. specialize (B ltac:(lra)).
    right. split; [lra|]. now exists (Qfloor (x * 10 + (1 # 2))).
Qed.

Lemma display_rounding_fine (x : Q) :
  x < 1 ->
  - (1 # 200)
  <= (if Qlt_le_dec x 1 then JS.Math_round (x * 100) / 100
      else JS.Math_round (x * 10) / 10) - x
  <= 1 # 200.
Proof.
  intros H. pose proof (Math_round_bounds (x * 100)).
  unfold Qdiv. change (/ 100) with (1 # 100). change (/ 10) with (1 # 10).
  destruct (Qlt_le_dec x 1); lra.
Qed.

(** The conversion of a plain unit, in any spelling of its key: the display
    rounding of the product, with the label of the target side. *)
Lemma convertUnits_plain (q : Q) (u : string) (sys : Utils.UnitSystem)
      (entry : Utils.UnitConversion) :
  In (JS.toLowerCase u, entry) Spec.non_temperature ->
  Utils.convertUnits q u sys
  = Utils.Return
      (Utils.mkAmount
         (if Qlt_le_dec (q * Utils.value (Utils.side entry sys)) 1
          then JS.Math_round (q * Utils.value (Utils.side entry sys) * 100) / 100
          else JS.Math_round (q * Utils.value (Utils.side entry sys) * 10) / 10)
         (Utils.unit (Utils.side entry sys))).
Proof.
  intros Hin.
  assert (Hkey : In (JS.toLowerCase u) Spec.plain_units).
  { apply (in_map fst) in Hin. exact Hin. }
  destruct (plain_unit_entry _ Hkey) as (c & Hc & Hc' & _).
  destruct (plain_unit_spelling u Hkey) as [HC HF].
  assert (c = entry) as ->.
  { clear - Hin Hc'. revert Hin Hc'. generalize (JS.toLowerCase u). intros key Hin Hc'.
    repeat (destruct Hin as [Hin|Hin];
            [injection Hin as <- <-;
             repeat (destruct Hc' as [Hc'|Hc'];
                     [first [injection Hc' as <-; reflexivity | discriminate Hc']|]);
             destruct Hc'|]).
    destruct Hin. }
  exact (convertUnits_entry q u sys entry Hc HC HF).
Qed.

(** X3.  The value a conversion displays for a plain unit is the quantity
    times the multiplier of the target side, moved by the rounding by at most
    0.05, and by at most 0.005 when the product is below 1; it is a number of
    tenths, or of hundredths when it is below 1, and it carries the unit
    label of the target side. *)
Theorem convertUnits_display_error :
  forall (q : Q) (u : string) (sys : Utils.UnitSystem) (entry : Utils.UnitConversion),
    In (JS.toLowerCase u, entry) Spec.non_temperature ->
    exists shown : Utils.Amount,
      Utils.convertUnits q u sys = Utils.Return shown
      /\ Utils.unit shown = Utils.unit (Utils.side entry sys)
      /\ Qabs (Utils.value shown - q * Utils.value (Utils.side entry sys)) <= 1 # 20
      /\ (q * Utils.value (Utils.side entry sys) < 1 ->
          Qabs (Utils.value shown - q * Utils.value (Utils.side entry sys)) <= 1 # 200)
      /\ Spec.on_display_grid (Utils.value shown).
Proof.
  intros q u sys entry Hin.
  rewrite (convertUnits_plain q u sys entry Hin). eexists.
  split; [reflexivity|]. cbn [Utils.value Utils.unit]. split; [reflexivity|].
  split; [|split].
  - apply Qabs_Qle_condition. apply display_rounding_error.
  - intros Hlt. apply Qabs_Qle_condition. now apply display_rounding_fine.
  - apply display_rounding_grid.
Qed.

Lemma convertUnits_display_error_witness :
  exists shown : Utils.Amount,
    Utils.convertUnits 250 "ML" Utils.imperial = Utils.Return shown
    /\ Utils.unit shown = "fl oz"
    /\ Qabs (Utils.value shown - 250 * (33814 # 1000000)) <= 1 # 20
    /\ (250 * (33814 # 1000000) < 1 ->
        Qabs (Utils.value shown - 250 * (33814 # 1000000)) <= 1 # 200)
    /\ Spec.on_display_grid (Utils.value shown).
Proof.
  apply (convertUnits_display_error 250 "ML" Utils.imperial
           (Utils.mkConversion (Utils.mkAmount 1 "ml")
              (Utils.mkAmount (33814 # 1000000) "fl oz"))).
  do 4 right. left. reflexivity.
Defined.

Lemma Math_round_comp (x y : Q) : x == y -> JS.Math_round x == JS.Math_round y.
Proof.
  intros H. unfold JS.Math_round.
  assert (E : x + (1 # 2) == y + (1 # 2)) by lra.
  now rewrite (Qfloor_comp _ _ E).
Qed.

Lemma Math_round_of_integer (x : Q) (k : Z) :
  x == inject_Z k -> JS.Math_round x == inject_Z k.
Proof.
  intros H. rewrite (Math_round_comp _ _ H). apply Math_round_integer.
Qed.

(** A value of the display grid is displayed as it is. *)
Lemma display_fixed (y : Q) :
  Spec.on_display_grid y ->
  (if Qlt_le_dec (y * 1) 1 then JS.Math_round (y * 1 * 100) / 100
   else JS.Math_round (y * 1 * 10) / 10) == y.
Proof.
  unfold Qdiv. change (/ 100) with (1 # 100). change (/ 10) with (1 # 10).
  intros [[Hlt [k Hk]]|[Hge [k Hk]]].
  - destruct (Qlt_le_dec (y * 1) 1); [|lra].
    rewrite (Math_round_of_integer (y * 1 * 100) k) by lra. lra.
  - destruct (Qlt_le_dec (y * 1) 1); [lra|].
    rewrite (Math_round_of_integer (y * 1 * 10) k) by lra. lra.
Qed.

(** The unit a conversion to a system returns is a key of the table again,
    and its own side for that system is the unit itself with multiplier 1. *)
Lemma target_is_its_own_target (key : string) (entry : Utils.UnitConversion)
      (sys : Utils.UnitSystem) :
  In (key, entry) Spec.non_temperature ->
  exists entry',
    Utils.get Utils.conversions (JS.toLowerCase (Utils.unit (Utils.side entry sys)))
    = Utils.Own entry'
    /\ String.eqb (Utils.unit (Utils.side entry sys)) "°C" = false
    /\ String.eqb (Utils.unit (Utils.side entry sys)) "°F" = false
    /\ Utils.side entry' sys = Utils.mkAmount 1 (Utils.unit (Utils.side entry sys)).
Proof.
  intros H.
  repeat (destruct H as [H|H];
          [injection H as <- <-; destruct sys; eexists; repeat split; reflexivity|]).
  destruct H.
Qed.

(** X4.  A conversion to a system is idempotent on the plain units: converting
    what it displays to the same system again returns the same unit and the
    same value. *)
Theorem convertUnits_idempotent :
  forall (q : Q) (u : string) (sys : Utils.UnitSystem) (entry : Utils.UnitConversion),
    In (JS.toLowerCase u, entry) Spec.non_temperature ->
    exists shown again : Utils.Amount,
      Utils.convertUnits q u sys = Utils.Return shown
      /\ Utils.convertUnits (Utils.value shown) (Utils.unit shown) sys
         = Utils.Return again
      /\ Utils.unit again = Utils.unit shown
      /\ Utils.value again == Utils.value shown.
Proof.
  intros q u sys entry Hin.
  destruct (target_is_its_own_target _ _ sys Hin) as (entry' & Hget & HC & HF & Hside).
  eexists. eexists. split; [exact (convertUnits_plain q u sys entry Hin)|].
  cbn [Utils.value Utils.unit].
  rewrite (convertUnits_entry _ _ sys entry' Hget HC HF). rewrite Hside.
  cbn [Utils.value Utils.unit]. split; [reflexivity|]. split; [reflexivity|].
  apply display_fixed, display_rounding_grid.
Qed.

Lemma convertUnits_idempotent_witness :
  exists shown again : Utils.Amount,
    Utils.convertUnits 100 "g" Utils.imperial = Utils.Return shown
    /\ Utils.convertUnits (Utils.value shown) (Utils.unit shown) Utils.imperial
       = Utils.Return again
    /\ Utils.unit again = Utils.unit shown
    /\ Utils.value again == Utils.value shown.
Proof.
  apply (convertUnits_idempotent 100 "g" Utils.imperial
           (Utils.mkConversion (Utils.mkAmount 1 "g")
              (Utils.mkAmount (35274 # 1000000) "oz"))).
  left. reflexivity.
Defined.

(** The rounding by tier of [scaleIngredientQuantity], on equal rationals. *)
Lemma tier_rounding_comp (x y : Q) :
  x == y ->
  (if Qlt_le_dec x 1 then JS.Math_round (x * 100) / 100
   else if Qlt_le_dec x 10 then JS.Math_round (x * 10) / 10
        else JS.Math_round x)
  == (if Qlt_le_dec y 1 then JS.Math_round (y * 100) / 100
      else if Qlt_le_dec y 10 then JS.Math_round (y * 10) / 10
           else JS.Math_round y).
Proof.
  intros H. apply Qle_antisym; apply tier_rounding_mono; lra.
Qed.

(** X5.  The scaled quantity depends on the two numbers of servings through
    their ratio only: multiplying both by the same factor changes nothing
    (4 to 6 servings scales as 2 to 3). *)
Theorem scaling_depends_on_the_ratio :
  forall q originalServings newServings factor : Q,
    ~ originalServings == 0 ->
    ~ factor == 0 ->
    Utils.scaleIngredientQuantity q (factor * originalServings) (factor * newServings)
    == Utils.scaleIngredientQuantity q originalServings newServings.
Proof.
  intros q s n k Hs Hk. unfold Utils.scaleIngredientQuantity. cbv zeta.
  apply tier_rounding_comp. field. split; assumption.
Qed.

Lemma scaling_depends_on_the_ratio_witness :
  Utils.scaleIngredientQuantity 250 (2 * 2) (2 * 3)
  == Utils.scaleIngredientQuantity 250 2 3.
Proof.
  apply (scaling_depends_on_the_ratio 250 2 3 2); discriminate.
Defined.

(** The rounding by tier lands on the display grid as well. *)
Lemma tier_rounding_grid (x : Q) :
  Spec.on_display_grid
    (if Qlt_le_dec x 1 then JS.Math_round (x * 100) / 100
     else if Qlt_le_dec x 10 then JS.Math_round (x * 10) / 10
          else JS.Math_round x).
Proof.
  destruct (Qlt_le_dec x 1) as [Hlt|Hge].
  - pose proof (display_rounding_grid x) as G. now destruct (Qlt_le_dec x 1); [|lra].
  - destruct (Qlt_le_dec x 10) as [Hlt10|Hge10].
    + pose proof (display_rounding_grid x) as G. now destruct (Qlt_le_dec x 1); [lra|].
    + pose proof (integer_le_round x 10 Hge10) as B. change (inject_Z 10) with 10 in B.
      right. split; [lra|]. exists (10 * Qfloor (x + (1 # 2)))%Z.
      rewrite inject_Z_mult. unfold JS.Math_round. change (inject_Z 10) with 10. lra.
Qed.

(** X6.  Shown in the system and unit it is stored in, a quantity scaled
    from a number of servings that is not 0 is displayed as scaled: the
    conversion multiplies by 1 and its rounding leaves the rounding of the
    scaling alone.  This holds for g, kg, ml and l in the metric system and
    for oz, lb, fl oz and pint in the imperial one, however the unit is
    spelled. *)
Theorem scaled_quantity_is_displayed_as_scaled :
  forall (q originalServings newServings : Q) (u : string) (sys : Utils.UnitSystem)
         (units : list string),
    ~ originalServings == 0 ->
    (sys = Utils.metric /\ units = ["g"; "kg"; "ml"; "l"]
     \/ sys = Utils.imperial /\ units = ["oz"; "lb"; "fl oz"; "pint"]) ->
    In (JS.toLowerCase u) units ->
    exists shown : Utils.Amount,
      Utils.convertUnits
        (Utils.scaleIngredientQuantity q originalServings newServings) u sys
      = Utils.Return shown
      /\ Utils.unit shown = JS.toLowerCase u
      /\ Utils.value shown
         == Utils.scaleIngredientQuantity q originalServings newServings.
Proof.
  intros q s n u sys units _ Hsys Hu.
  assert (Hentry : exists entry,
             Utils.get Utils.conversions (JS.toLowerCase u) = Utils.Own entry
             /\ Utils.side entry sys = Utils.mkAmount 1 (JS.toLowerCase u)
             /\ In (JS.toLowerCase u) Spec.plain_units).
  { destruct Hsys as [[-> ->]|[-> ->]];
      repeat (destruct Hu as [<-|Hu];
              [eexists; split; [reflexivity|]; split; [reflexivity|]; cbn; tauto|]);
      destruct Hu. }
  destruct Hentry as (entry & Hget & Hside & Hplain).
  destruct (plain_unit_spelling u Hplain) as [HC HF].
  rewrite (convertUnits_entry _ u sys entry Hget HC HF). rewrite Hside.
  cbn [Utils.value Utils.unit]. eexists. split; [reflexivity|].
  cbn [Utils.value Utils.unit]. split; [reflexivity|].
  apply display_fixed. unfold Utils.scaleIngredientQuantity. cbv zeta.
  apply tier_rounding_grid.
Qed.

Lemma scaled_quantity_is_displayed_as_scaled_witness :
  exists shown : Utils.Amount,
    Utils.convertUnits (Utils.scaleIngredientQuantity 250 4 6) "Kg" Utils.metric
    = Utils.Return shown
    /\ Utils.unit shown = JS.toLowerCase "Kg"
    /\ Utils.value shown == Utils.scaleIngredientQuantity 250 4 6.
Proof.
  apply (scaled_quantity_is_displayed_as_scaled 250 4 6 "Kg" Utils.metric
           ["g"; "kg"; "ml"; "l"]).
  - discriminate.
  - left. split; reflexivity.
  - right. left. reflexivity.
Defined.

Lemma Math_round_below_half (x : Q) :
  0 <= x -> x < 1 # 2 -> JS.Math_round x == 0.
Proof.
  intros H0 H1. pose proof (Math_round_bounds x) as [Hlo Hhi].
  unfold JS.Math_round in *.
  generalize dependent (Qfloor (x + (1 # 2))). intros f Hlo Hhi.
  assert (Ha : inject_Z (-1) < inject_Z f) by (change (inject_Z (-1)) with (-1 # 1); lra).
  assert (Hb : inject_Z f < inject_Z 1) by (change (inject_Z 1) with 1; lra).
  rewrite <- Zlt_Qlt in Ha, Hb. replace f with 0%Z by lia. reflexivity.
Qed.

(** X7.  A scaled quantity is never negative when the quantity and the two
    numbers of servings are not.  An ingredient whose exact scaled value is
    at least 0.01 does not vanish from the list, and one of at most 0.004 is
    displayed as 0; between the two the rounding at 0.005 decides, where the
    error of the floating-point product can tip it either way. *)
Theorem scaling_keeps_positive_quantities :
  forall q originalServings newServings : Q,
    0 <= q -> 0 < originalServings -> 0 <= newServings ->
    0 <= Utils.scaleIngredientQuantity q originalServings newServings
    /\ ((1 # 100) <= q * (newServings / originalServings) ->
        0 < Utils.scaleIngredientQuantity q originalServings newServings)
    /\ (q * (newServings / originalServings) <= 1 # 250 ->
        Utils.scaleIngredientQuantity q originalServings newServings == 0).
Proof.
  intros q s n Hq Hs Hn.
  assert (Hx : 0 <= q * (n / s)).
  { apply Qmult_le_0_compat; [exact Hq|]. unfold Qdiv.
    apply Qmult_le_0_compat; [exact Hn|]. apply Qinv_le_0_compat. lra. }
  unfold Utils.scaleIngredientQuantity. cbv zeta.
  generalize dependent (q * (n / s)). intros x Hx.
  unfold Qdiv. change (/ 100) with (1 # 100). change (/ 10) with (1 # 10).
  pose proof (integer_le_round (x * 100) 0) as P100.
  pose proof (integer_le_round (x * 10) 10) as P10.
  pose proof (integer_le_round x 10) as P1.
  change (inject_Z 0) with 0 in *. change (inject_Z 10) with 10 in *.
  split; [|split].
  - destruct (Qlt_le_dec x 1); [specialize (P100 ltac:(lra)); lra|].
    destruct (Qlt_le_dec x 10); [specialize (P10 ltac:(lra)); lra|].
    specialize (P1 ltac:(lra)). lra.
  - intros Hbig.
    destruct (Qlt_le_dec x 1).
    + pose proof (Math_round_mono (1 # 2) (x * 100) ltac:(lra)) as Q100.
      change (JS.Math_round (1 # 2)) with 1 in Q100. lra.
    + destruct (Qlt_le_dec x 10); [specialize (P10 ltac:(lra)); lra|].
      specialize (P1 ltac:(lra)). lra.
  - intros Hsmall. destruct (Qlt_le_dec x 1); [|lra].
    rewrite (Math_round_below_half (x * 100)) by lra. reflexivity.
Qed.

Lemma scaling_keeps_positive_quantities_witness :
  0 <= Utils.scaleIngredientQuantity (1 # 50) 4 2
  /\ ((1 # 100) <= (1 # 50) * (2 / 4) ->
      0 < Utils.scaleIngredientQuantity (1 # 50) 4 2)
  /\ ((1 # 50) * (2 / 4) <= 1 # 250 ->
      Utils.scaleIngredientQuantity (1 # 50) 4 2 == 0).
Proof.
  apply (scaling_keeps_positive_quantities (1 # 50) 4 2); discriminate || reflexivity.
Defined.

(** * Further properties of the query pipeline *)

Local Close Scope Q_scope.

(** X8.  The lookup by slug returns [null] exactly when no recipe of the data
    carries the slug, and otherwise the first recipe that carries it: the
    recipes before it have other slugs. *)
Theorem lookup_by_slug_finds_the_first :
  forall (mockRecipes : list Api.Recipe) (s : string),
    (Api.getMockRecipeBySlug mockRecipes s = None
     <-> forall r, In r mockRecipes -> Api.slug r <> s)
    /\ (forall r, Api.getMockRecipeBySlug mockRecipes s = Some r ->
                  Api.slug r = s
                  /\ exists before after,
                       mockRecipes = (before ++ r :: after)%list
                       /\ forall x, In x before -> Api.slug x <> s).
Proof.
  intros l s. unfold Api.getMockRecipeBySlug. induction l as [|x l [IHnone IHsome]];
    simpl.
  - split; [split; [intros _ r [] | reflexivity] | discriminate].
  - destruct (String.eqb_spec (Api.slug x) s) as [E|N].
    + split.
      * split; [discriminate|]. intros H. now elim (H x (or_introl eq_refl)).
      * intros r [= <-]. split; [exact E|]. exists [], l. split; [reflexivity|].
        intros y [].
    + split.
      * rewrite IHnone. split.
        -- intros H r [<-|Hr]; auto.
        -- intros H r Hr. apply H. now right.
      * intros r Hr. destruct (IHsome r Hr) as (Hs & before & after & -> & Hb).
        split; [exact Hs|]. exists (x :: before), after. split; [reflexivity|].
        intros y [<-|Hy]; auto.
Qed.

(** What [slice] returns lies in the array, in its order, and is no longer
    than it, whatever the indices. *)
Lemma in_firstn {A : Type} (n : nat) (l : list A) (x : A) :
  In x (firstn n l) -> In x l.
Proof.
  intros H. rewrite <- (firstn_skipn n l). apply in_or_app. now left.
Qed.

Lemma in_skipn {A : Type} (n : nat) (l : list A) (x : A) :
  In x (skipn n l) -> In x l.
Proof.
  intros H. rewrite <- (firstn_skipn n l). apply in_or_app. now right.
Qed.

Lemma filter_shorter {A : Type} (p : A -> bool) (l : list A) :
  (List.length (filter p l) <= List.length l)%nat.
Proof.
  induction l as [|x l IH]; simpl; [lia|]. destruct (p x); simpl; lia.
Qed.

Lemma slice_incl {A : Type} (l : list A) (a : Z) (b : option Z) (x : A) :
  In x (JS.slice l a b) -> In x l.
Proof.
  unfold JS.slice. intros H. apply in_firstn in H. now apply in_skipn in H.
Qed.

Lemma slice_length {A : Type} (l : list A) (a : Z) (b : option Z) :
  (List.length (JS.slice l a b) <= List.length l)%nat.
Proof.
  unfold JS.slice. rewrite length_firstn, length_skipn. lia.
Qed.

Lemma apply_pagination_incl (limit offset : option Z) (l : list Api.Recipe) (x : Api.Recipe) :
  In x (Api.apply_pagination limit offset l) -> In x l.
Proof.
  unfold Api.apply_pagination.
  destruct (Api.truthy_number offset || Api.truthy_number limit); [|auto].
  apply slice_incl.
Qed.

Lemma apply_pagination_length (limit offset : option Z) (l : list Api.Recipe) :
  (List.length (Api.apply_pagination limit offset l) <= List.length l)%nat.
Proof.
  unfold Api.apply_pagination.
  destruct (Api.truthy_number offset || Api.truthy_number limit); [|lia].
  apply slice_length.
Qed.

Lemma apply_sorting_permutation (parse : string -> JS.TimeValue)
      (sort : option Api.Sort.t) (l : list Api.Recipe) :
  Permutation (Api.apply_sorting parse sort l) l.
Proof.
  destruct sort as [sort|]; [apply sort_permutation | reflexivity].
Qed.

(** X9.  The total that [getMockRecipes] returns counts the recipes that pass
    the filters: it does not depend on the sort, the limit or the offset, every
    recipe of the returned page is one of the data that passes the filters, and
    the page is never longer than the total. *)
Theorem total_counts_the_matches :
  forall (parse : string -> JS.TimeValue) (mockRecipes : list Api.Recipe)
         (filters : option Api.Filters.t) (sort : option Api.Sort.t)
         (limit offset : option Z),
    let result := Api.getMockRecipes parse mockRecipes filters sort limit offset in
    Api.total result = Z.of_nat (List.length (Api.apply_filters filters mockRecipes))
    /\ (forall r, In r (Api.recipes result) ->
                  In r (Api.apply_filters filters mockRecipes) /\ In r mockRecipes)
    /\ (Z.of_nat (List.length (Api.recipes result)) <= Api.total result)%Z
    /\ (Api.total result <= Z.of_nat (List.length mockRecipes))%Z.
Proof.
  intros parse l filters sort limit offset result. unfold result, Api.getMockRecipes.
  cbn [Api.total Api.recipes].
  pose proof (apply_sorting_permutation parse sort (Api.apply_filters filters l)) as P.
  rewrite (Permutation_length P).
  assert (Hsub : forall r, In r (Api.apply_filters filters l) -> In r l).
  { destruct filters as [f|]; [|auto].
    destruct (satisfies_reflect f) as (keep & _ & ->). intros r Hr.
    now apply filter_In in Hr. }
  assert (Hlen : (List.length (Api.apply_filters filters l) <= List.length l)%nat).
  { destruct filters as [f|]; [|simpl; lia].
    destruct (satisfies_reflect f) as (keep & _ & ->). apply filter_shorter. }
  split; [reflexivity|]. split; [|split].
  - intros r Hr. apply apply_pagination_incl in Hr.
    apply (Permutation_in _ P) in Hr. auto.
  - pose proof (apply_pagination_length limit offset
                  (Api.apply_sorting parse sort (Api.apply_filters filters l))) as H.
    rewrite (Permutation_length P) in H. lia.
  - lia.
Qed.

(** A page of [limit] recipes from a given offset on, neither negative. *)
Lemma page_firstn_skipn (limit offset : Z) (l : list Api.Recipe) :
  (0 < limit)%Z -> (0 <= offset)%Z ->
  Api.apply_pagination (Some limit) (Some offset) l
  = firstn (Z.to_nat limit) (skipn (Z.to_nat offset) l).
Proof.
  intros Hn Ho. unfold Api.apply_pagination. cbn [Api.truthy_number Api.get_or].
  destruct (Z.eqb_spec limit 0) as [->|_]; [lia|].
  destruct (Z.eqb_spec offset 0) as [->|_]; cbn [negb orb];
    (rewrite slice_interval; [|lia|intros e [= <-]; lia]);
    unfold Spec.interval; rewrite positions_before_start by lia;
    repeat f_equal; lia.
Qed.

(** Where [getRecipes] serves the mock data: the flag is set, or the
    request to the remote API fails. *)
Lemma getRecipes_mock (parse : string -> JS.TimeValue) (USE_MOCK_DATA : bool)
      (response : Api.Response) (mockRecipes : list Api.Recipe)
      (filters : option Api.Filters.t) (sort : option Api.Sort.t)
      (limit offset : option Z) :
  USE_MOCK_DATA = true \/ response = Api.Failure ->
  Api.getRecipes parse USE_MOCK_DATA response mockRecipes filters sort limit offset
  = Api.getMockRecipes parse mockRecipes filters sort limit offset.
Proof.
  unfold Api.getRecipes. intros [->| ->]; [reflexivity|].
  destruct USE_MOCK_DATA; reflexivity.
Qed.

(** X10.  Where [getRecipes] serves the mock data (the flag
    [USE_MOCK_DATA] is set, or the request of every page to the remote API
    fails), the pages of the recipes page tile the result: for a page number
    of 1 or more, position [j] of the fetched page holds the recipe at
    position [12 * (page - 1) + j] of the whole filtered and sorted list when
    [j] is below 12, and nothing beyond; so the recipe at position [i] of the
    list is found on page [i / 12 + 1] at position [i mod 12], and on no
    page twice. *)
Theorem pages_tile_the_result :
  forall (parse : string -> JS.TimeValue) (USE_MOCK_DATA : bool)
         (response : Z -> Api.Response) (mockRecipes : list Api.Recipe)
         (filters : Api.Filters.t) (sort : Api.Sort.t) (page : Z),
    USE_MOCK_DATA = true \/ (forall p, response p = Api.Failure) ->
    (1 <= page)%Z ->
    let whole :=
      Api.recipes (Api.getMockRecipes parse mockRecipes (Some filters) (Some sort)
                     None None) in
    let fetch page :=
      RecipesPage.fetch parse USE_MOCK_DATA (response page) mockRecipes
        filters sort page in
    let fetched page := Api.recipes (fetch page) in
    (forall j : nat,
        nth_error (fetched page) j
        = if (j <? 12)%nat then nth_error whole (12 * Z.to_nat (page - 1) + j)
          else None)
    /\ (forall i : nat,
          nth_error (fetched (Z.of_nat (i / 12) + 1)%Z) (i mod 12) = nth_error whole i)
    /\ Api.total (fetch page) = Z.of_nat (List.length whole).
Proof.
  intros parse mock response l filters sort page Hmock Hpage whole fetch fetched.
  assert (Hserved : forall p,
             fetch p
             = Api.getMockRecipes parse l (Some filters) (Some sort)
                 (Some RecipesPage.recipesPerPage) (Some (RecipesPage.offset p))).
  { intros p. unfold fetch, RecipesPage.fetch. apply getRecipes_mock.
    destruct Hmock as [->|H]; [now left | right; apply H]. }
  assert (Hfetch : forall p, (1 <= p)%Z ->
             fetched p = firstn 12 (skipn (12 * Z.to_nat (p - 1)) whole)).
  { intros p Hp. unfold fetched. rewrite Hserved. unfold whole, Api.getMockRecipes.
    cbn [Api.recipes]. unfold RecipesPage.offset, RecipesPage.recipesPerPage.
    rewrite page_firstn_skipn by lia.
    change (Api.apply_pagination None None ?x) with x.
    f_equal. f_equal. lia. }
  split; [|split].
  - intros j. rewrite (Hfetch page Hpage), nth_error_firstn.
    destruct (j <? 12)%nat; [apply nth_error_skipn | reflexivity].
  - intros i. rewrite Hfetch by lia. rewrite nth_error_firstn.
    pose proof (Nat.mod_upper_bound i 12 ltac:(lia)) as Hmod.
    destruct (Nat.ltb_spec (i mod 12) 12); [|lia].
    rewrite nth_error_skipn. f_equal.
    replace (Z.to_nat (Z.of_nat (i / 12) + 1 - 1)) with (i / 12)%nat by lia.
    symmetry. apply Nat.div_mod_eq.
  - rewrite Hserved. reflexivity.
Qed.

Lemma pages_tile_the_result_witness :
  nth_error
    (Api.recipes
       (RecipesPage.fetch Sample.standard_only false Api.Failure
          [Sample.stew; Sample.pie; Sample.souffle]
          (Api.Filters.mk None None None None None)
          (Api.Sort.mk Api.Sort.title Api.Sort.asc) 1)) 2
  = if (2 <? 12)%nat
    then nth_error
           (Api.recipes
              (Api.getMockRecipes Sample.standard_only
                 [Sample.stew; Sample.pie; Sample.souffle]
                 (Some (Api.Filters.mk None None None None None))
                 (Some (Api.Sort.mk Api.Sort.title Api.Sort.asc)) None None))
           (12 * Z.to_nat (1 - 1) + 2)
    else None.
Proof.
  apply (pages_tile_the_result Sample.standard_only false (fun _ => Api.Failure)
           [Sample.stew; Sample.pie; Sample.souffle]
           (Api.Filters.mk None None None None None)
           (Api.Sort.mk Api.Sort.title Api.Sort.asc) 1).
  - right. reflexivity.
  - lia.
Defined.

(** The number of pages: the least number of twelves that covers the total. *)
Lemma totalPages_covers (total page : Z) :
  (page <= RecipesPage.totalPages total <-> 12 * (page - 1) < total)%Z.
Proof.
  unfold RecipesPage.totalPages, JS.Math_ceil, RecipesPage.recipesPerPage.
  set (q := (inject_Z total / inject_Z 12)%Q).
  pose proof (Qle_ceiling q) as Hle. pose proof (Qceiling_lt q) as Hlt.
  assert (Hq12 : (q * 12 == inject_Z total)%Q).
  { unfold q. change (inject_Z 12) with 12%Q. field. }
  assert (Hq : forall k : Z, (inject_Z k < q)%Q <-> (12 * k < total)%Z).
  { intros k. rewrite Zlt_Qlt, inject_Z_mult. change (inject_Z 12) with 12%Q.
    split; intros; lra. }
  assert (Hq' : forall k : Z, (q <= inject_Z k)%Q <-> (total <= 12 * k)%Z).
  { intros k. rewrite Zle_Qle, inject_Z_mult. change (inject_Z 12) with 12%Q.
    split; intros; lra. }
  apply Hq in Hlt. apply Hq' in Hle. lia.
Qed.

(** X11.  Where [getRecipes] serves the mock data (the flag
    [USE_MOCK_DATA] is set, or the request to the remote API fails), the
    number of pages the recipes page displays is exact: for a page number of
    1 or more, the fetched page holds a recipe exactly when the number is at
    most [Math.ceil(total / 12)], the total being the one the fetch
    returned. *)
Theorem pages_up_to_totalPages_hold_recipes :
  forall (parse : string -> JS.TimeValue) (USE_MOCK_DATA : bool)
         (response : Api.Response) (mockRecipes : list Api.Recipe)
         (filters : Api.Filters.t) (sort : Api.Sort.t) (page : Z),
    USE_MOCK_DATA = true \/ response = Api.Failure ->
    (1 <= page)%Z ->
    let result :=
      RecipesPage.fetch parse USE_MOCK_DATA response mockRecipes filters sort page in
    Api.recipes result <> []
    <-> (page <= RecipesPage.totalPages (Api.total result))%Z.
Proof.
  intros parse mock response l filters sort page Hmock Hpage result.
  rewrite totalPages_covers.
  unfold result, RecipesPage.fetch. rewrite (getRecipes_mock _ _ _ _ _ _ _ _ Hmock).
  unfold Api.getMockRecipes. cbn [Api.recipes Api.total].
  unfold RecipesPage.offset, RecipesPage.recipesPerPage.
  rewrite page_firstn_skipn by lia.
  set (whole := Api.apply_sorting parse (Some sort) (Api.apply_filters (Some filters) l)).
  pose proof (length_skipn (Z.to_nat ((page - 1) * 12)) whole) as Hlen.
  change (Z.to_nat 12) with 12%nat.
  destruct (skipn (Z.to_nat ((page - 1) * 12)) whole) as [|x rest] eqn:E;
    cbn [List.length firstn] in Hlen |- *.
  - split; [congruence | lia].
  - split; [lia | discriminate].
Qed.

Lemma pages_up_to_totalPages_hold_recipes_witness :
  Api.recipes
    (RecipesPage.fetch Sample.standard_only true
       (Api.Answer (Api.mkResult [] 0))
       [Sample.stew; Sample.pie; Sample.souffle]
       (Api.Filters.mk None None None None None)
       (Api.Sort.mk Api.Sort.title Api.Sort.asc) 2) <> []
  <-> (2 <= RecipesPage.totalPages
              (Api.total
                 (RecipesPage.fetch Sample.standard_only true
                    (Api.Answer (Api.mkResult [] 0))
                    [Sample.stew; Sample.pie; Sample.souffle]
                    (Api.Filters.mk None None None None None)
                    (Api.Sort.mk Api.Sort.title Api.Sort.asc) 2)))%Z.
Proof.
  apply (pages_up_to_totalPages_hold_recipes Sample.standard_only true
           (Api.Answer (Api.mkResult [] 0))
           [Sample.stew; Sample.pie; Sample.souffle]
           (Api.Filters.mk None None None None None)
           (Api.Sort.mk Api.Sort.title Api.Sort.asc) 2).
  - left. reflexivity.
  - lia.
Defined.

Lemma ltb_irrefl (a : string) : String.ltb a a = false.
Proof.
  destruct (String.ltb a a) eqn:E; [|reflexivity].
  now rewrite (ltb_asym a a E) in E.
Qed.

Lemma leb_not_ltb (a b : string) : String.leb a b = true <-> String.ltb b a = false.
Proof.
  unfold String.leb, String.ltb. rewrite (String.compare_antisym b a).
  destruct (String.compare a b); simpl; split; congruence.
Qed.

(** The comparison of the code on a field other than the date. *)
Lemma less_not_after (parse : string -> JS.TimeValue) (field : Api.Sort.Field)
      (p q : Api.Recipe) :
  field <> Api.Sort.datePublished ->
  Api.less parse field q p = false <-> Spec.not_after field p q.
Proof.
  intros Hf. destruct field; cbn [Api.less Spec.not_after];
    try (symmetry; apply leb_not_ltb); try apply Z.ltb_ge. now elim Hf.
Qed.

Lemma less_asym (parse : string -> JS.TimeValue) (field : Api.Sort.Field)
      (p q : Api.Recipe) :
  Api.less parse field p q = true -> Api.less parse field q p = false.
Proof.
  destruct field; cbn [Api.less]; try apply ltb_asym.
  - rewrite Z.ltb_lt, Z.ltb_ge. lia.
  - destruct (Api.date_value parse (Api.datePublished p)),
      (Api.date_value parse (Api.datePublished q)); cbn; try discriminate.
    rewrite Z.ltb_lt, Z.ltb_ge. lia.
Qed.

Lemma less_not_after_trans (parse : string -> JS.TimeValue) (field : Api.Sort.Field)
      (a b c : Api.Recipe) :
  field <> Api.Sort.datePublished ->
  Api.less parse field b a = false -> Api.less parse field c b = false ->
  Api.less parse field c a = false.
Proof.
  intros Hf. destruct field; cbn [Api.less]; try apply not_after_trans.
  - rewrite !Z.ltb_ge. lia.
  - now elim Hf.
Qed.

(** X12.  Sorting by the title, the total time or the difficulty, in either
    direction, returns a permutation of the recipes that is in order (no
    recipe is followed by one that belongs before it) and stable: recipes with
    the same value in the field keep the order they came in, ascending and
    descending alike.  The titles and the difficulties are ASCII, on which
    the order of [<] is the order of the bytes. *)
Theorem sort_is_ordered_and_stable :
  forall (parse : string -> JS.TimeValue) (field : Api.Sort.Field)
         (direction : Api.Sort.Direction) (l : list Api.Recipe),
    field <> Api.Sort.datePublished ->
    forallb (fun r => Spec.ascii_text (Api.title r)
                      && Spec.ascii_text (Api.difficulty r)) l = true ->
    let sorted := Api.apply_sorting parse (Some (Api.Sort.mk field direction)) l in
    Permutation sorted l
    /\ StronglySorted
         (fun p q => match direction with
                     | Api.Sort.asc => Spec.not_after field p q
                     | Api.Sort.desc => Spec.not_after field q p
                     end) sorted
    /\ (forall keep : Api.Recipe -> bool,
          (forall x y, keep x = true -> keep y = true -> Spec.same_value field x y) ->
          filter keep sorted = filter keep l).
Proof.
  intros parse field direction l Hf _ sorted. unfold sorted, Api.apply_sorting.
  split; [apply sort_permutation|]. split.
  - apply StronglySorted_weaken with
      (R := fun p q => match direction with
                       | Api.Sort.asc => Api.less parse field q p = false
                       | Api.Sort.desc => Api.less parse field p q = false
                       end).
    + intros a b _ _. destruct direction; now rewrite less_not_after.
    + apply sort_sorted with (domain := fun _ => True); [| | |now apply Forall_forall].
      * intros a b c _ _ _. destruct direction; intros H1 H2.
        -- now apply less_not_after_trans with b.
        -- now apply less_not_after_trans with b.
      * intros x y _ _. unfold Api.comparefn. cbn [Api.Sort.field Api.Sort.direction].
        destruct (Api.less parse field x y) eqn:Hxy.
        -- destruct direction; [intros _; now apply less_asym | lia].
        -- destruct (Api.less parse field y x), direction; lia || reflexivity.
      * intros x y _ _. unfold Api.comparefn. cbn [Api.Sort.field Api.Sort.direction].
        destruct (Api.less parse field x y) eqn:Hxy.
        -- destruct direction; [lia | intros _; now apply less_asym].
        -- destruct (Api.less parse field y x) eqn:Hyx, direction; lia || reflexivity.
  - intros keep Hkeep. apply sort_stable. intros x y _ _ Hx Hy.
    specialize (Hkeep x y Hx Hy).
    assert (Api.less parse field x y = false /\ Api.less parse field y x = false) as [E1 E2].
    { destruct field; cbn [Api.less Spec.same_value] in *; rewrite ?Hkeep;
        try (split; apply ltb_irrefl); try (split; apply Z.ltb_irrefl). now elim Hf. }
    unfold Api.comparefn. cbn [Api.Sort.field]. rewrite E1, E2. lia.
Qed.

Lemma sort_is_ordered_and_stable_witness :
  Permutation
    (Api.apply_sorting Sample.standard_only
       (Some (Api.Sort.mk Api.Sort.totalTimeMins Api.Sort.desc))
       [Sample.stew; Sample.pie; Sample.souffle])
    [Sample.stew; Sample.pie; Sample.souffle].
Proof.
  apply (sort_is_ordered_and_stable Sample.standard_only Api.Sort.totalTimeMins
           Api.Sort.desc [Sample.stew; Sample.pie; Sample.souffle]).
  - discriminate.
  - reflexivity.
Defined.

(** X13.  For a query and recipes in ASCII, the instant search returns, in
    the order of the data, the recipes in which the query occurs (in the
    title, the description or a tag, case ignored): the first [limit] of them
    for a positive limit, and all of them for a limit of 0; an empty query
    matches every recipe. *)
Theorem search_results_are_the_first_matches :
  forall (parse : string -> JS.TimeValue) (mockRecipes : list Api.Recipe)
         (query : string) (limit : Z),
    Spec.ascii_search (Some query) mockRecipes ->
    (0 <= limit)%Z ->
    exists keep : Api.Recipe -> bool,
      (forall r, keep r = true <-> Spec.matches_search query r)
      /\ Api.getMockSearchResults parse mockRecipes query limit
         = (if (limit =? 0)%Z then filter keep mockRecipes
            else firstn (Z.to_nat limit) (filter keep mockRecipes))
      /\ (query = "" -> filter keep mockRecipes = mockRecipes).
Proof.
  intros parse l query limit _ Hlimit.
  destruct (satisfies_reflect (Api.Filters.mk None None None None (Some query)))
    as (keep & Hkeep & Hfilter).
  assert (Hmatch : forall r, keep r = true <-> Spec.matches_search query r).
  { intros r. rewrite Hkeep. unfold Spec.satisfies, Spec.constrains. cbn.
    split.
    - intros (H & _). now apply H.
    - intros H. split; [now intros a [= <-]|]. repeat split; intros a [=]. }
  exists keep. split; [exact Hmatch|]. split.
  - unfold Api.getMockSearchResults, Api.getMockRecipes. cbn [Api.recipes Api.apply_sorting].
    rewrite Hfilter. unfold Api.apply_pagination. cbn [Api.truthy_number Api.get_or orb].
    destruct (Z.eqb_spec limit 0) as [->|Hne]; [reflexivity|]. cbn [negb].
    rewrite slice_interval; [|lia|intros e [= <-]; lia].
    unfold Spec.interval. rewrite positions_before_start by lia.
    now rewrite Z.add_0_l, !Z.sub_0_r.
  - intros ->. clear - Hmatch. induction l as [|x l IH]; [reflexivity|]. simpl.
    replace (keep x) with true; [now rewrite IH|].
    symmetry. apply Hmatch. left. apply occurs_empty_term.
Qed.

Lemma search_results_are_the_first_matches_witness :
  exists keep : Api.Recipe -> bool,
    (forall r, keep r = true <-> Spec.matches_search "PIE" r)
    /\ Api.getMockSearchResults Sample.standard_only
         [Sample.stew; Sample.pie; Sample.souffle] "PIE" 10
       = (if (10 =? 0)%Z then filter keep [Sample.stew; Sample.pie; Sample.souffle]
          else firstn (Z.to_nat 10) (filter keep [Sample.stew; Sample.pie; Sample.souffle]))
    /\ ("PIE" = "" -> filter keep [Sample.stew; Sample.pie; Sample.souffle]
                      = [Sample.stew; Sample.pie; Sample.souffle]).
Proof.
  apply (search_results_are_the_first_matches Sample.standard_only
           [Sample.stew; Sample.pie; Sample.souffle] "PIE" 10).
  - reflexivity.
  - lia.
Defined.

(** X14.  The featured recipes are the first [limit] recipes of the data, in
    the order of the data, and none for a limit of 0; a negative limit, which
    [slice] counts from the end, leaves out that many of the last recipes
    instead. *)
Theorem featured_recipes_are_the_first :
  forall (parse : string -> JS.TimeValue) (mockRecipes : list Api.Recipe) (limit : Z),
    Api.getMockFeaturedRecipes parse mockRecipes limit
    = firstn (if (limit <? 0)%Z
              then List.length mockRecipes - Z.to_nat (- limit)
              else Z.to_nat limit)%nat
             mockRecipes.
Proof.
  intros parse l limit.
  unfold Api.getMockFeaturedRecipes, Api.getMockRecipes. cbn [Api.recipes].
  change (Api.apply_pagination None None ?x) with x.
  cbn [Api.apply_sorting Api.apply_filters].
  unfold JS.slice, JS.relative_index. cbn [skipn].
  change (0 <? 0)%Z with false. cbv iota.
  rewrite (Z.min_l 0) by lia. cbn [Z.to_nat skipn]. rewrite Z.sub_0_r.
  destruct (Z.ltb_spec limit 0).
  - f_equal. lia.
  - destruct (Z.le_gt_cases limit (Z.of_nat (List.length l))).
    + now rewrite Z.min_l.
    + rewrite Z.min_r by lia. rewrite Nat2Z.id, !firstn_all2; [reflexivity | lia | lia].
Qed.

Section SortingFiltered.

Context {A : Type} (comparefn : A -> A -> Z) (precedes : A -> A -> Prop).
Hypothesis precedes_trans : forall a b c, precedes a b -> precedes b c -> precedes a c.
Hypothesis stays : forall x y, (comparefn x y <= 0)%Z -> precedes x y.
Hypothesis moves : forall x y, (0 < comparefn x y)%Z -> precedes y x.
Hypothesis agrees : forall x y, precedes x y -> (comparefn x y <= 0)%Z.

Lemma insert_dropped (keep : A -> bool) (x : A) (l : list A) :
  keep x = false -> filter keep (JS.insert comparefn x l) = filter keep l.
Proof.
  intros Hx. induction l as [|y l IH]; simpl; [now rewrite Hx|].
  destruct (0 <? comparefn x y)%Z; simpl; [now rewrite IH | now rewrite Hx].
Qed.

Lemma insert_kept (keep : A -> bool) (x : A) (l : list A) :
  keep x = true -> StronglySorted precedes l ->
  filter keep (JS.insert comparefn x l) = JS.insert comparefn x (filter keep l).
Proof.
  intros Hx Hs. induction Hs as [|y l Hs IH Hall]; [simpl; now rewrite Hx|].
  change (JS.insert comparefn x (y :: l))
    with (if (0 <? comparefn x y)%Z then y :: JS.insert comparefn x l else x :: y :: l).
  destruct (Z.ltb_spec 0 (comparefn x y)) as [Hgt|Hle].
  - cbn [filter]. destruct (keep y); [|exact IH]. cbn [JS.insert].
    destruct (Z.ltb_spec 0 (comparefn x y)); [now rewrite IH | lia].
  - assert (Hhead : forall z, In z (y :: l) -> (comparefn x z <= 0)%Z).
    { intros z [<-|Hz]; [exact Hle|]. apply agrees.
      apply precedes_trans with y; [now apply stays|].
      rewrite Forall_forall in Hall. now apply Hall. }
    change (filter keep (x :: y :: l)) with
      (if keep x then x :: filter keep (y :: l) else filter keep (y :: l)).
    rewrite Hx. destruct (filter keep (y :: l)) as [|z rest] eqn:E; [reflexivity|].
    cbn [JS.insert]. assert (Hz : In z (y :: l)).
    { apply (proj1 (filter_In keep z (y :: l))). rewrite E. now left. }
    destruct (Z.ltb_spec 0 (comparefn x z)); [specialize (Hhead z Hz); lia | reflexivity].
Qed.

Lemma sort_filter_commute (keep : A -> bool) (l : list A) :
  filter keep (JS.sort comparefn l) = JS.sort comparefn (filter keep l).
Proof.
  induction l as [|x l IH]; [reflexivity|].
  change (JS.sort comparefn (x :: l))
    with (JS.insert comparefn x (JS.sort comparefn l)).
  assert (Hsorted : StronglySorted precedes (JS.sort comparefn l)).
  { apply sort_sorted with (domain := fun _ => True).
    - intros a b c _ _ _. apply precedes_trans.
    - intros a b _ _. apply stays.
    - intros a b _ _. apply moves.
    - now apply Forall_forall. }
  cbn [filter]. destruct (keep x) eqn:Hx.
  - rewrite (insert_kept keep x _ Hx Hsorted), IH. reflexivity.
  - rewrite insert_dropped by exact Hx. exact IH.
Qed.

End SortingFiltered.

(** X15.  Filtering and sorting commute for the title, the total time and the
    difficulty: sorting the recipes that pass the filters, as the pipeline
    does, returns the same list as filtering the sorted data. *)
Theorem filtering_and_sorting_commute :
  forall (parse : string -> JS.TimeValue) (field : Api.Sort.Field)
         (direction : Api.Sort.Direction) (filters : option Api.Filters.t)
         (l : list Api.Recipe),
    field <> Api.Sort.datePublished ->
    Api.apply_sorting parse (Some (Api.Sort.mk field direction))
      (Api.apply_filters filters l)
    = Api.apply_filters filters
        (Api.apply_sorting parse (Some (Api.Sort.mk field direction)) l).
Proof.
  intros parse field direction filters l Hf.
  destruct filters as [f|]; [|reflexivity].
  destruct (satisfies_reflect f) as (keep & _ & Hfilter). rewrite !Hfilter.
  unfold Api.apply_sorting. symmetry.
  apply sort_filter_commute with
    (precedes := fun p q => match direction with
                            | Api.Sort.asc => Api.less parse field q p = false
                            | Api.Sort.desc => Api.less parse field p q = false
                            end).
  - intros a b c. destruct direction; intros H1 H2.
    + now apply less_not_after_trans with b.
    + now apply less_not_after_trans with b.
  - intros x y. unfold Api.comparefn. cbn [Api.Sort.field Api.Sort.direction].
    destruct (Api.less parse field x y) eqn:Hxy.
    + destruct direction; [intros _; now apply less_asym | lia].
    + destruct (Api.less parse field y x), direction; lia || reflexivity.
  - intros x y. unfold Api.comparefn. cbn [Api.Sort.field Api.Sort.direction].
    destruct (Api.less parse field x y) eqn:Hxy.
    + destruct direction; [lia | intros _; now apply less_asym].
    + destruct (Api.less parse field y x) eqn:Hyx, direction; lia || reflexivity.
  - intros x y. unfold Api.comparefn. cbn [Api.Sort.field Api.Sort.direction].
    destruct direction; intros H.
    + rewrite H. destruct (Api.less parse field x y); lia.
    + rewrite H. destruct (Api.less parse field y x) ; lia.
Qed.

Lemma filtering_and_sorting_commute_witness :
  Api.apply_sorting Sample.standard_only (Some (Api.Sort.mk Api.Sort.title Api.Sort.desc))
    (Api.apply_filters (Some (Api.Filters.mk (Some ["British"]) None None None None))
       [Sample.stew; Sample.pie; Sample.souffle])
  = Api.apply_filters (Some (Api.Filters.mk (Some ["British"]) None None None None))
      (Api.apply_sorting Sample.standard_only
         (Some (Api.Sort.mk Api.Sort.title Api.Sort.desc))
         [Sample.stew; Sample.pie; Sample.souffle]).
Proof.
  apply (filtering_and_sorting_commute Sample.standard_only Api.Sort.title Api.Sort.desc
           (Some (Api.Filters.mk (Some ["British"]) None None None None))
           [Sample.stew; Sample.pie; Sample.souffle]).
  discriminate.
Defined.

(** * Properties of the filter panel and of the recipes page *)

Lemma read_updateFilters (f : Api.Filters.t) (key key' : RecipeFiltersPanel.ArrayKey)
      (value : option (list string)) :
  RecipeFiltersPanel.read (RecipeFiltersPanel.updateFilters f key value) key'
  = if match key, key' with
       | RecipeFiltersPanel.cuisine, RecipeFiltersPanel.cuisine
       | RecipeFiltersPanel.tags, RecipeFiltersPanel.tags
       | RecipeFiltersPanel.difficulty, RecipeFiltersPanel.difficulty => true
       | _, _ => false
       end
    then value else RecipeFiltersPanel.read f key'.
Proof. destruct key, key'; reflexivity. Qed.

Lemma in_removed (v w : string) (l : list string) :
  In w (filter (fun item => negb (String.eqb item v)) l) <-> In w l /\ w <> v.
Proof.
  rewrite filter_In, negb_true_iff, String.eqb_neq. reflexivity.
Qed.

(** X16.  Toggling a value in one of the three array filters flips whether
    the value is selected and leaves every other value, every other filter and
    the order of the values that stay as they were; the array it stores is
    never empty (an emptied selection is stored as absent) and has no
    duplicates if it had none. *)
Theorem toggle_flips_one_value :
  forall (f : Api.Filters.t) (key : RecipeFiltersPanel.ArrayKey) (v : string),
    let selected g := Api.get_or [] (RecipeFiltersPanel.read g key) in
    let f' := RecipeFiltersPanel.toggleArrayFilter f key v in
    (In v (selected f') <-> ~ In v (selected f))
    /\ (forall w, w <> v -> (In w (selected f') <-> In w (selected f)))
    /\ filter (fun item => negb (String.eqb item v)) (selected f')
       = filter (fun item => negb (String.eqb item v)) (selected f)
    /\ RecipeFiltersPanel.read f' key <> Some []
    /\ (NoDup (selected f) -> NoDup (selected f'))
    /\ (forall key', key' <> key ->
                     RecipeFiltersPanel.read f' key' = RecipeFiltersPanel.read f key')
    /\ Api.Filters.search f' = Api.Filters.search f
    /\ Api.Filters.maxPrepTime f' = Api.Filters.maxPrepTime f.
Proof.
  intros f key v selected f'.
  set (current := selected f).
  set (newArray := if JS.array_includes current v
                   then filter (fun item => negb (String.eqb item v)) current
                   else (current ++ [v])%list).
  assert (Hread : RecipeFiltersPanel.read f' key
                  = if (0 <? List.length newArray)%nat then Some newArray else None).
  { unfold f', RecipeFiltersPanel.toggleArrayFilter. fold current. fold newArray.
    rewrite read_updateFilters. now destruct key. }
  assert (Hsel : selected f' = newArray).
  { unfold selected at 1. rewrite Hread. destruct newArray; reflexivity. }
  assert (Hnew : (In v newArray <-> ~ In v current)
                 /\ (forall w, w <> v -> (In w newArray <-> In w current))
                 /\ filter (fun item => negb (String.eqb item v)) newArray
                    = filter (fun item => negb (String.eqb item v)) current
                 /\ (NoDup current -> NoDup newArray)).
  { unfold newArray. destruct (JS.array_includes current v) eqn:E.
    - apply array_includes_spec in E. split; [|split; [|split]].
      + rewrite in_removed. tauto.
      + intros w Hw. rewrite in_removed. tauto.
      + rewrite filter_twice. apply filter_ext. intros a. now rewrite andb_diag.
      + apply NoDup_filter.
    - assert (Hnot : ~ In v current).
      { intros H. apply array_includes_spec in H. congruence. }
      split; [|split; [|split]].
      + split; [auto|]. intros _. apply in_or_app. right. now left.
      + intros w Hw. split.
        * intros H. apply in_app_or in H. destruct H as [H|[H|[]]]; [exact H | congruence].
        * intros H. apply in_or_app. now left.
      + rewrite filter_app. cbn [filter]. rewrite String.eqb_refl. cbn [negb].
        now rewrite app_nil_r.
      + intros H. apply NoDup_app; [exact H | repeat constructor; intros [] | ].
        intros a Ha [<-|[]]. contradiction. }
  destruct Hnew as (H1 & H2 & H3 & H4). rewrite Hsel.
  split; [exact H1|]. split; [exact H2|]. split; [exact H3|]. split; [|split; [exact H4|]].
  - rewrite Hread. destruct newArray; cbn; congruence.
  - split; [|split].
    + intros key' Hne. unfold f', RecipeFiltersPanel.toggleArrayFilter.
      rewrite read_updateFilters. destruct key, key'; congruence.
    + unfold f', RecipeFiltersPanel.toggleArrayFilter. now destruct key.
    + unfold f', RecipeFiltersPanel.toggleArrayFilter. now destruct key.
Qed.

(** X17.  Toggling a value on and off again restores the filters exactly,
    when the value was not selected before and the array filter was not
    stored as an empty array. *)
Theorem toggle_twice_restores :
  forall (f : Api.Filters.t) (key : RecipeFiltersPanel.ArrayKey) (v : string),
    ~ In v (Api.get_or [] (RecipeFiltersPanel.read f key)) ->
    RecipeFiltersPanel.read f key <> Some [] ->
    RecipeFiltersPanel.toggleArrayFilter
      (RecipeFiltersPanel.toggleArrayFilter f key v) key v = f.
Proof.
  intros f key v Hnot Hnonempty.
  set (current := Api.get_or [] (RecipeFiltersPanel.read f key)) in *.
  assert (H1 : RecipeFiltersPanel.read (RecipeFiltersPanel.toggleArrayFilter f key v) key
               = Some (current ++ [v])%list).
  { unfold RecipeFiltersPanel.toggleArrayFilter. fold current.
    rewrite read_updateFilters.
    replace (JS.array_includes current v) with false.
    - destruct key; destruct current; reflexivity.
    - symmetry. destruct (JS.array_includes current v) eqn:E; [|reflexivity].
      apply array_includes_spec in E. contradiction. }
  unfold RecipeFiltersPanel.toggleArrayFilter at 1. rewrite H1. cbn [Api.get_or].
  replace (JS.array_includes (current ++ [v]) v) with true.
  - rewrite filter_app. cbn [filter]. rewrite String.eqb_refl. cbn [negb].
    rewrite app_nil_r.
    replace (filter (fun item => negb (String.eqb item v)) current) with current.
    + assert (Hback : (if (0 <? List.length current)%nat then Some current else None)
                      = RecipeFiltersPanel.read f key).
      { unfold current in *. destruct (RecipeFiltersPanel.read f key) as [[|x l]|];
          cbn; congruence. }
      rewrite Hback. unfold RecipeFiltersPanel.toggleArrayFilter.
      destruct f, key; reflexivity.
    + symmetry. clear - Hnot. induction current as [|x l IH]; [reflexivity|].
      cbn [filter]. destruct (String.eqb_spec x v) as [->|Hne].
      * elim Hnot. now left.
      * cbn [negb]. f_equal. apply IH. intros H. apply Hnot. now right.
  - symmetry. apply array_includes_spec. apply in_or_app. right. now left.
Qed.

Lemma toggle_twice_restores_witness :
  RecipeFiltersPanel.toggleArrayFilter
    (RecipeFiltersPanel.toggleArrayFilter
       (Api.Filters.mk (Some ["British"]) None None None None)
       RecipeFiltersPanel.cuisine "Indian")
    RecipeFiltersPanel.cuisine "Indian"
  = Api.Filters.mk (Some ["British"]) None None None None.
Proof.
  apply (toggle_twice_restores (Api.Filters.mk (Some ["British"]) None None None None)
           RecipeFiltersPanel.cuisine "Indian").
  - intros [H|[]]. discriminate H.
  - discriminate.
Defined.

(** * Properties of the slugs *)

Lemma all_chars_impl (P Q : ascii -> bool) (s : string) :
  (forall c, P c = true -> Q c = true) ->
  Spec.all_chars P s = true -> Spec.all_chars Q s = true.
Proof.
  intros H. induction s as [|c r IH]; simpl; [reflexivity|].
  rewrite !andb_true_iff. intros [Hc Hr]. auto.
Qed.

Lemma all_chars_and (P Q : ascii -> bool) (s : string) :
  Spec.all_chars P s = true -> Spec.all_chars Q s = true ->
  Spec.all_chars (fun c => P c && Q c) s = true.
Proof.
  induction s as [|c r IH]; simpl; [reflexivity|].
  rewrite !andb_true_iff. intros [Hc Hr] [Hc' Hr']. auto.
Qed.

(** Lower case holds no capital, and is the string itself when it held
    none. *)
Lemma toLowerCase_fixes (c : ascii) : JS.lower_ascii (JS.lower_ascii c) = JS.lower_ascii c.
Proof. destruct c as [[] [] [] [] [] [] [] []]; reflexivity. Qed.

Lemma toLowerCase_lowered (s : string) :
  Spec.all_chars (fun c => Ascii.eqb (JS.lower_ascii c) c) (JS.toLowerCase s) = true.
Proof.
  induction s as [|c r IH]; simpl; [reflexivity|].
  rewrite toLowerCase_fixes, Ascii.eqb_refl. exact IH.
Qed.

Lemma toLowerCase_id (s : string) :
  Spec.all_chars (fun c => Ascii.eqb (JS.lower_ascii c) c) s = true ->
  JS.toLowerCase s = s.
Proof.
  induction s as [|c r IH]; simpl; [reflexivity|].
  rewrite andb_true_iff, Ascii.eqb_eq. intros [-> Hr]. now rewrite IH.
Qed.

Lemma remove_all_chars (class P : ascii -> bool) (s : string) :
  Spec.all_chars P s = true ->
  Spec.all_chars (fun c => negb (class c) && P c) (JS.remove_all class s) = true.
Proof.
  induction s as [|c r IH]; simpl; [reflexivity|].
  rewrite andb_true_iff. intros [Hc Hr].
  destruct (class c) eqn:E; simpl; [auto|]. rewrite E, Hc. simpl. auto.
Qed.

Lemma remove_all_id (class : ascii -> bool) (s : string) :
  Spec.all_chars (fun c => negb (class c)) s = true -> JS.remove_all class s = s.
Proof.
  induction s as [|c r IH]; simpl; [reflexivity|].
  rewrite andb_true_iff, negb_true_iff. intros [-> Hr]. now rewrite IH.
Qed.

Lemma remove_all_ext (class class' : ascii -> bool) (s : string) :
  Spec.all_chars (fun c => Bool.eqb (class c) (class' c)) s = true ->
  JS.remove_all class s = JS.remove_all class' s.
Proof.
  induction s as [|c r IH]; simpl; [reflexivity|].
  rewrite andb_true_iff. intros [Hc Hr]. apply Bool.eqb_prop in Hc.
  now rewrite Hc, IH.
Qed.

Lemma replace_runs_chars (class P Q : ascii -> bool) (by_ : ascii) (run : bool)
      (s : string) :
  Q by_ = true ->
  (forall c, P c = true -> class c = false -> Q c = true) ->
  Spec.all_chars P s = true ->
  Spec.all_chars Q (JS.replace_runs class by_ run s) = true.
Proof.
  intros Hby HPQ. revert run. induction s as [|c r IH]; intros run; simpl; [reflexivity|].
  rewrite andb_true_iff. intros [Hc Hr].
  destruct (class c) eqn:E.
  - destruct run; simpl; [auto|]. rewrite Hby. simpl. auto.
  - simpl. rewrite (HPQ c Hc E). simpl. auto.
Qed.

Lemma replace_runs_id (class : ascii -> bool) (by_ : ascii) (run : bool) (s : string) :
  Spec.all_chars (fun c => negb (class c)) s = true ->
  JS.replace_runs class by_ run s = s.
Proof.
  revert run. induction s as [|c r IH]; intros run; simpl; [reflexivity|].
  rewrite andb_true_iff, negb_true_iff. intros [-> Hr]. now rewrite IH.
Qed.

(** After the runs of hyphens are replaced no two hyphens are in a row, and
    none comes first when the run was on already. *)
Lemma replace_hyphens_no_double (run : bool) (s : string) :
  Spec.no_double_hyphen (JS.replace_runs JS.is_hyphen "-" run s) = true
  /\ (run = true ->
      match JS.replace_runs JS.is_hyphen "-" run s with
      | String d _ => JS.is_hyphen d = false
      | EmptyString => True
      end).
Proof.
  revert run. induction s as [|c r IH]; intros run; [simpl; auto|].
  cbn [JS.replace_runs]. destruct (JS.is_hyphen c) eqn:E.
  - destruct (IH true) as [Hnd Hhead]. specialize (Hhead eq_refl). destruct run.
    + split; [exact Hnd | intros _; exact Hhead].
    + split; [|discriminate]. cbn [Spec.no_double_hyphen]. rewrite Hnd.
      destruct (JS.replace_runs JS.is_hyphen "-" true r); [reflexivity|].
      rewrite Hhead. now rewrite andb_false_r.
  - destruct (IH false) as [Hnd _]. split; [|intros _; exact E].
    cbn [Spec.no_double_hyphen]. rewrite Hnd, E.
    destruct (JS.replace_runs JS.is_hyphen "-" false r); reflexivity.
Qed.

Lemma replace_hyphens_id (s : string) :
  Spec.no_double_hyphen s = true ->
  JS.replace_runs JS.is_hyphen "-" false s = s
  /\ (match s with
      | String d _ => JS.is_hyphen d = false
      | EmptyString => True
      end -> JS.replace_runs JS.is_hyphen "-" true s = s).
Proof.
  induction s as [|c r IH]; [simpl; auto|].
  cbn [Spec.no_double_hyphen JS.replace_runs]. rewrite andb_true_iff. intros [Hc Hr].
  destruct (IH Hr) as [Hfalse Htrue].
  destruct (JS.is_hyphen c) eqn:E.
  - split; [|discriminate].
    assert (c = "-"%char) as -> by now apply Ascii.eqb_eq.
    f_equal. apply Htrue. destruct r as [|d r']; [exact I|].
    now destruct (JS.is_hyphen d).
  - split; [now rewrite Hfalse | intros _; now rewrite Hfalse].
Qed.

Lemma trimStart_id (s : string) :
  Spec.all_chars (fun c => negb (JS.is_space c)) s = true -> JS.trimStart s = s.
Proof.
  destruct s as [|c r]; simpl; [reflexivity|].
  rewrite andb_true_iff, negb_true_iff. now intros [-> _].
Qed.

Lemma trimEnd_id (s : string) :
  Spec.all_chars (fun c => negb (JS.is_space c)) s = true -> JS.trimEnd s = s.
Proof.
  induction s as [|c r IH]; simpl; [reflexivity|].
  rewrite andb_true_iff, negb_true_iff. intros [Hc Hr]. rewrite (IH Hr), Hc.
  now destruct r.
Qed.

Lemma trim_id (s : string) :
  Spec.all_chars (fun c => negb (JS.is_space c)) s = true -> JS.trim s = s.
Proof.
  intros H. unfold JS.trim. rewrite (trimStart_id s H). now apply trimEnd_id.
Qed.

(** Facts about single characters, by cases on the eight bits. *)
Lemma kept_lowered_char (c : ascii) :
  Ascii.eqb (JS.lower_ascii c) c = true ->
  JS.is_word c || JS.is_space c || JS.is_hyphen c = true ->
  JS.is_space c = false ->
  Spec.slug_char c = true.
Proof. destruct c as [[] [] [] [] [] [] [] []]; cbn; intros; congruence. Qed.

Lemma slug_char_facts (c : ascii) :
  Spec.slug_char c = true ->
  JS.is_space c = false
  /\ Ascii.eqb (JS.lower_ascii c) c = true
  /\ JS.is_word c || JS.is_space c || JS.is_hyphen c = true.
Proof. destruct c as [[] [] [] [] [] [] [] []]; cbn; intros; auto; congruence. Qed.

(** The slug before the final [trim], and what its characters are. *)
Lemma slug_before_trim (title : string) :
  let kept := JS.remove_all
                (fun c => negb (JS.is_word c || JS.is_space c || JS.is_hyphen c))
                (JS.toLowerCase title) in
  let hyphened := JS.replace_runs JS.is_hyphen "-" false
                    (JS.replace_runs JS.is_space "-" false kept) in
  Spec.all_chars Spec.slug_char hyphened = true
  /\ Spec.no_double_hyphen hyphened = true
  /\ Utils.generateSlug title = hyphened.
Proof.
  intros kept hyphened.
  assert (Hkept : Spec.all_chars
                    (fun c => negb (negb (JS.is_word c || JS.is_space c || JS.is_hyphen c))
                              && Ascii.eqb (JS.lower_ascii c) c) kept = true).
  { apply remove_all_chars. apply toLowerCase_lowered. }
  assert (Hspaced : Spec.all_chars Spec.slug_char
                      (JS.replace_runs JS.is_space "-" false kept) = true).
  { eapply replace_runs_chars; [reflexivity | | exact Hkept].
    intros c Hc Hs. apply andb_true_iff in Hc. destruct Hc as [Hc1 Hc2].
    apply negb_true_iff, negb_false_iff in Hc1. now apply kept_lowered_char. }
  assert (Hall : Spec.all_chars Spec.slug_char hyphened = true).
  { eapply replace_runs_chars; [reflexivity | | exact Hspaced]. auto. }
  split; [exact Hall|]. split; [apply replace_hyphens_no_double|].
  unfold Utils.generateSlug. fold kept. fold hyphened. apply trim_id.
  eapply all_chars_impl; [|exact Hall].
  intros c Hc. apply slug_char_facts in Hc. destruct Hc as [-> _]. reflexivity.
Qed.

(** X18.  For an ASCII title the slug consists of small letters, digits,
    underscores and hyphens only and holds no two hyphens in a row. *)
Theorem slug_is_well_formed :
  forall title : string,
    Spec.ascii_only title ->
    Spec.all_chars Spec.slug_char (Utils.generateSlug title) = true
    /\ Spec.no_double_hyphen (Utils.generateSlug title) = true
    /\ Spec.all_chars (fun c => negb (JS.is_space c)) (Utils.generateSlug title) = true.
Proof.
  intros title _. destruct (slug_before_trim title) as (Hall & Hnd & ->).
  split; [exact Hall|]. split; [exact Hnd|].
  eapply all_chars_impl; [|exact Hall].
  intros c Hc. apply slug_char_facts in Hc. destruct Hc as [-> _]. reflexivity.
Qed.

Lemma slug_is_well_formed_witness :
  Spec.all_chars Spec.slug_char (Utils.generateSlug "Fish & Chips -- the Classic") = true.
Proof.
  apply (slug_is_well_formed "Fish & Chips -- the Classic"). reflexivity.
Defined.

(** A string of slug characters without two hyphens in a row is its own
    slug. *)
Lemma slug_of_slug (s : string) :
  Spec.all_chars Spec.slug_char s = true ->
  Spec.no_double_hyphen s = true ->
  Utils.generateSlug s = s.
Proof.
  intros Hall Hnd. unfold Utils.generateSlug.
  rewrite toLowerCase_id.
  2:{ eapply all_chars_impl; [|exact Hall]. intros c Hc. now apply slug_char_facts in Hc. }
  rewrite remove_all_id.
  2:{ eapply all_chars_impl; [|exact Hall]. intros c Hc.
      apply slug_char_facts in Hc. destruct Hc as (_ & _ & ->). reflexivity. }
  rewrite (replace_runs_id JS.is_space).
  2:{ eapply all_chars_impl; [|exact Hall]. intros c Hc.
      apply slug_char_facts in Hc. destruct Hc as (-> & _). reflexivity. }
  rewrite (proj1 (replace_hyphens_id s Hnd)).
  apply trim_id. eapply all_chars_impl; [|exact Hall]. intros c Hc.
  apply slug_char_facts in Hc. destruct Hc as (-> & _). reflexivity.
Qed.

(** X19.  Making a slug is idempotent: the slug of an ASCII title is its own
    slug, so a slug that is edited back into the title field is kept. *)
Theorem slug_is_idempotent :
  forall title : string,
    Spec.ascii_only title ->
    Utils.generateSlug (Utils.generateSlug title) = Utils.generateSlug title.
Proof.
  intros title _. destruct (slug_before_trim title) as (Hall & Hnd & ->).
  now apply slug_of_slug.
Qed.

Lemma slug_is_idempotent_witness :
  Utils.generateSlug (Utils.generateSlug "  Hello,   World!  ")
  = Utils.generateSlug "  Hello,   World!  ".
Proof.
  apply (slug_is_idempotent "  Hello,   World!  "). reflexivity.
Defined.

(** X20.  The final [trim] of [generateSlug] removes nothing, the white
    space being hyphens by then: a title that starts with white space gets a
    slug that starts with a hyphen. *)
Theorem slug_keeps_a_leading_hyphen :
  forall (c : ascii) (title : string),
    JS.is_space c = true ->
    Spec.ascii_only title ->
    exists rest, Utils.generateSlug (String c title) = String "-" rest.
Proof.
  intros c title Hc _. destruct (slug_before_trim (String c title)) as (_ & _ & ->).
  assert (Hlow : JS.lower_ascii c = c).
  { destruct c as [[] [] [] [] [] [] [] []]; try discriminate Hc; reflexivity. }
  cbn [JS.toLowerCase JS.remove_all]. rewrite Hlow, Hc.
  rewrite orb_true_r. cbn [orb negb JS.replace_runs]. rewrite Hc.
  cbn [JS.replace_runs]. change (JS.is_hyphen "-") with true. cbv iota.
  eexists. reflexivity.
Qed.

Lemma slug_keeps_a_leading_hyphen_witness :
  exists rest, Utils.generateSlug (String " " "Hello") = String "-" rest.
Proof.
  apply (slug_keeps_a_leading_hyphen " " "Hello"); reflexivity.
Defined.

(** X21.  The slug generator of the admin form and the one of the site agree
    on every ASCII title that holds no underscore; the underscore is the one
    character the site keeps and the form drops. *)
Theorem the_two_slug_generators_agree :
  forall title : string,
    Spec.ascii_only title ->
    Spec.all_chars (fun c => negb (Ascii.eqb c "_")) title = true ->
    RecipeForm.generateSlug title = Utils.generateSlug title.
Proof.
  intros title _ Hno. unfold RecipeForm.generateSlug, Utils.generateSlug.
  do 3 f_equal. apply remove_all_ext.
  assert (Hlow : Spec.all_chars
                   (fun c => Ascii.eqb (JS.lower_ascii c) c && negb (Ascii.eqb c "_"))
                   (JS.toLowerCase title) = true).
  { apply all_chars_and; [apply toLowerCase_lowered|].
    clear - Hno. induction title as [|c r IH]; simpl in *; [reflexivity|].
    apply andb_true_iff in Hno. destruct Hno as [Hc Hr]. rewrite (IH Hr), andb_true_r.
    destruct c as [[] [] [] [] [] [] [] []]; try discriminate Hc; reflexivity. }
  eapply all_chars_impl; [|exact Hlow].
  intros c. destruct c as [[] [] [] [] [] [] [] []]; cbn; intros; congruence.
Qed.

Lemma the_two_slug_generators_agree_witness :
  RecipeForm.generateSlug "Shepherd's Pie" = Utils.generateSlug "Shepherd's Pie".
Proof.
  apply (the_two_slug_generators_agree "Shepherd's Pie"); reflexivity.
Defined.

(** * Properties of the numbers written as text *)

Lemma digits_of_app (fuel : nat) (n : Z) (acc rest : string) :
  JS.digits_of fuel n acc ++ rest = JS.digits_of fuel n (acc ++ rest).
Proof.
  revert n acc. induction fuel as [|fuel IH]; intros n acc; [reflexivity|].
  cbn [JS.digits_of]. destruct (n <? 10)%Z; [reflexivity | apply IH].
Qed.

Lemma digit_value_of_char (d : Z) :
  (0 <= d <= 9)%Z -> JS.digit_value (JS.char_of_digit d) = Some d.
Proof. intros H. each_digit d H; reflexivity. Qed.

Lemma char_of_digit_is_digit (d : Z) :
  (0 <= d <= 9)%Z -> JS.is_digit (JS.char_of_digit d) = true.
Proof. intros H. each_digit d H; reflexivity. Qed.

(** Reading the digits that [digits_of] wrote gives the number back and
    goes on with what follows them. *)
Lemma digits_prefix_of_digits (fuel : nat) (n : Z) (acc : string) :
  (0 <= n < Z.of_nat fuel)%Z ->
  JS.digits_prefix 10 (JS.digits_of fuel n acc) None
  = JS.digits_prefix 10 acc (Some n).
Proof.
  revert n acc. induction fuel as [|fuel IH]; intros n acc Hn; [lia|].
  cbn [JS.digits_of]. destruct (Z.ltb_spec n 10) as [Hlt|Hge].
  - cbn [JS.digits_prefix]. rewrite digit_value_of_char by (Z.div_mod_to_equations; lia).
    destruct (Z.ltb_spec (n mod 10) 10) as [_|H]; [|Z.div_mod_to_equations; lia].
    f_equal. f_equal. Z.div_mod_to_equations; lia.
  - rewrite IH by (Z.div_mod_to_equations; lia).
    cbn [JS.digits_prefix]. rewrite digit_value_of_char by (Z.div_mod_to_equations; lia).
    destruct (Z.ltb_spec (n mod 10) 10) as [_|H]; [|Z.div_mod_to_equations; lia].
    f_equal. f_equal. Z.div_mod_to_equations; lia.
Qed.

Lemma digits_of_are_digits (fuel : nat) (n : Z) (acc : string) :
  (0 <= n)%Z ->
  Spec.all_chars JS.is_digit acc = true ->
  Spec.all_chars JS.is_digit (JS.digits_of fuel n acc) = true.
Proof.
  revert n acc. induction fuel as [|fuel IH]; intros n acc Hn Hacc; [exact Hacc|].
  cbn [JS.digits_of].
  assert (Hd : Spec.all_chars JS.is_digit (String (JS.char_of_digit (n mod 10)) acc) = true).
  { cbn [Spec.all_chars]. rewrite char_of_digit_is_digit by (Z.div_mod_to_equations; lia).
    exact Hacc. }
  destruct (n <? 10)%Z; [exact Hd|]. apply IH; [Z.div_mod_to_equations; lia | exact Hd].
Qed.

Lemma digits_of_starts (fuel : nat) (n : Z) (acc : string) :
  exists c r, JS.digits_of (S fuel) n acc = String c r.
Proof.
  revert n acc. induction fuel as [|fuel IH]; intros n acc.
  - cbn [JS.digits_of]. destruct (n <? 10)%Z; eauto.
  - change (JS.digits_of (S (S fuel)) n acc)
      with (if (n <? 10)%Z then String (JS.char_of_digit (n mod 10)) acc
            else JS.digits_of (S fuel) (n / 10)
                   (String (JS.char_of_digit (n mod 10)) acc)).
    destruct (n <? 10)%Z; [eauto | apply IH].
Qed.

(** [parseInt] on a string of decimal digits reads them all. *)
Lemma parseInt_of_digits (s : string) :
  s <> "" -> Spec.all_chars JS.is_digit s = true ->
  JS.parseInt s
  = match fst (JS.digits_prefix 10 s None) with
    | Some n => Some (1 * n)%Z
    | None => None
    end.
Proof.
  destruct s as [|c r]; [congruence|]. intros _ H. cbn [Spec.all_chars] in H.
  apply andb_true_iff in H. destruct H as [Hc Hr].
  destruct c as [[] [] [] [] [] [] [] []]; try discriminate Hc; try reflexivity.
  destruct r as [|d r]; [reflexivity|]. cbn [Spec.all_chars] in Hr.
  apply andb_true_iff in Hr. destruct Hr as [Hd _].
  destruct d as [[] [] [] [] [] [] [] []]; try discriminate Hd; reflexivity.
Qed.

Lemma parseInt_of_minus_digits (s : string) :
  s <> "" -> Spec.all_chars JS.is_digit s = true ->
  JS.parseInt (String "-" s)
  = match fst (JS.digits_prefix 10 s None) with
    | Some n => Some (-1 * n)%Z
    | None => None
    end.
Proof.
  destruct s as [|c r]; [congruence|]. intros _ H. cbn [Spec.all_chars] in H.
  apply andb_true_iff in H. destruct H as [Hc Hr].
  destruct c as [[] [] [] [] [] [] [] []]; try discriminate Hc; try reflexivity.
  destruct r as [|d r]; [reflexivity|]. cbn [Spec.all_chars] in Hr.
  apply andb_true_iff in Hr. destruct Hr as [Hd _].
  destruct d as [[] [] [] [] [] [] [] []]; try discriminate Hd; reflexivity.
Qed.

(** [parseInt] reads back what [toString] writes. *)
Lemma parseInt_reads_toString :
  forall n : Z, JS.parseInt (JS.Number_toString n) = Some n.
Proof.
  intros n. unfold JS.Number_toString. destruct (Z.ltb_spec n 0) as [Hneg|Hpos].
  - destruct (digits_of_starts (Z.to_nat (- n)) (- n) "") as (c & r & E).
    rewrite parseInt_of_minus_digits.
    + rewrite digits_prefix_of_digits by lia. cbn [JS.digits_prefix fst]. f_equal. lia.
    + rewrite E. discriminate.
    + apply digits_of_are_digits; [lia | reflexivity].
  - destruct (digits_of_starts (Z.to_nat n) n "") as (c & r & E).
    rewrite parseInt_of_digits.
    + rewrite digits_prefix_of_digits by lia. cbn [JS.digits_prefix fst]. f_equal. lia.
    + rewrite E. discriminate.
    + apply digits_of_are_digits; [lia | reflexivity].
Qed.

Lemma toString_starts (n : Z) : exists c r, JS.Number_toString n = String c r.
Proof.
  unfold JS.Number_toString. destruct (n <? 0)%Z; [eauto|].
  apply digits_of_starts.
Qed.

(** ** The filters in the address of the page *)

Lemma split_free (sep : ascii) (x : string) :
  Spec.free_of sep x = true -> JS.split sep x = [x].
Proof.
  induction x as [|c x IH]; [reflexivity|]. unfold Spec.free_of. cbn [Spec.all_chars].
  intros H. apply andb_true_iff in H. destruct H as [Hc Hx].
  cbn [JS.split]. apply negb_true_iff in Hc. rewrite Hc, (IH Hx). reflexivity.
Qed.

Lemma split_app_free (sep : ascii) (x r : string) :
  Spec.free_of sep x = true ->
  JS.split sep (x ++ String sep r) = x :: JS.split sep r.
Proof.
  induction x as [|c x IH].
  - intros _. cbn [String.append JS.split]. now rewrite Ascii.eqb_refl.
  - unfold Spec.free_of. cbn [Spec.all_chars]. intros H.
    apply andb_true_iff in H. destruct H as [Hc Hx].
    cbn [String.append JS.split]. apply negb_true_iff in Hc.
    rewrite Hc, (IH Hx). reflexivity.
Qed.

(** [split] undoes [join] on a list, not empty, of values without the
    separator. *)
Lemma split_join (sep : ascii) (l : list string) :
  l <> [] -> forallb (Spec.free_of sep) l = true ->
  JS.split sep (JS.join (String sep "") l) = l.
Proof.
  induction l as [|x l IH]; [congruence|]. intros _ H. cbn [forallb] in H.
  apply andb_true_iff in H. destruct H as [Hx Hl].
  destruct l as [|y l].
  - cbn [JS.join String.concat]. now apply split_free.
  - change (JS.join (String sep "") (x :: y :: l))
      with (x ++ String sep (JS.join (String sep "") (y :: l))).
    rewrite split_app_free by exact Hx. f_equal. apply IH; [discriminate | exact Hl].
Qed.

Lemma join_is_not_empty (sep : ascii) (l : list string) :
  l <> [] -> l <> [""] -> JS.join (String sep "") l <> "".
Proof.
  destruct l as [|x [|y l]]; [congruence| |].
  - cbn [JS.join String.concat]. intros _ H E. apply H. now rewrite E.
  - intros _ _. change (JS.join (String sep "") (x :: y :: l))
      with (x ++ String sep (JS.join (String sep "") (y :: l))).
    destruct x; discriminate.
Qed.

Lemma url_params_get (f : Api.Filters.t) :
  let p := RecipesPage.url_params f in
  RecipesPage.params_get p "search"
  = (if Api.truthy_string (Api.Filters.search f)
     then Some (Api.get_or "" (Api.Filters.search f)) else None)
  /\ RecipesPage.params_get p "cuisine"
     = (if Api.truthy_length (Api.Filters.cuisine f)
        then Some (JS.join "," (Api.get_or [] (Api.Filters.cuisine f))) else None)
  /\ RecipesPage.params_get p "tags"
     = (if Api.truthy_length (Api.Filters.tags f)
        then Some (JS.join "," (Api.get_or [] (Api.Filters.tags f))) else None)
  /\ RecipesPage.params_get p "difficulty"
     = (if Api.truthy_length (Api.Filters.difficulty f)
        then Some (JS.join "," (Api.get_or [] (Api.Filters.difficulty f))) else None)
  /\ RecipesPage.params_get p "maxPrepTime"
     = (if Api.truthy_number (Api.Filters.maxPrepTime f)
        then Some (JS.Number_toString (Api.get_or 0%Z (Api.Filters.maxPrepTime f)))
        else None).
Proof.
  unfold RecipesPage.url_params.
  generalize (Api.get_or "" (Api.Filters.search f)).
  generalize (JS.join "," (Api.get_or [] (Api.Filters.cuisine f))).
  generalize (JS.join "," (Api.get_or [] (Api.Filters.tags f))).
  generalize (JS.join "," (Api.get_or [] (Api.Filters.difficulty f))).
  generalize (JS.Number_toString (Api.get_or 0%Z (Api.Filters.maxPrepTime f))).
  intros n d t c s.
  destruct (Api.truthy_string (Api.Filters.search f)),
    (Api.truthy_length (Api.Filters.cuisine f)),
    (Api.truthy_length (Api.Filters.tags f)),
    (Api.truthy_length (Api.Filters.difficulty f)),
    (Api.truthy_number (Api.Filters.maxPrepTime f));
    repeat split; reflexivity.
Qed.

Lemma list_through_the_url (l : option (list string)) :
  Spec.listed l = true ->
  let written :=
    if Api.truthy_length l then Some (JS.join "," (Api.get_or [] l)) else None in
  (if Api.truthy_string written
   then Some (JS.split "," (Api.get_or "" written)) else None)
  = (if Api.truthy_length l then l else None).
Proof.
  destruct l as [[|x l]|]; [reflexivity| |reflexivity]. intros H.
  assert (Hl : forallb (Spec.free_of ",") (x :: l) = true).
  { destruct x; [destruct l; [discriminate H|] |]; exact H. }
  assert (Hne : x :: l <> [""]).
  { intros E. injection E as -> ->. discriminate H. }
  cbn [Api.truthy_length Api.get_or].
  pose proof (join_is_not_empty "," (x :: l)) as Hj.
  pose proof (split_join "," (x :: l)) as Hs.
  destruct (JS.join "," (x :: l)) as [|c s] eqn:E.
  - exfalso. apply Hj; [discriminate | exact Hne | reflexivity].
  - cbn [Api.truthy_string Api.get_or]. f_equal. apply Hs; [discriminate | exact Hl].
Qed.

Lemma number_through_the_url (n : option Z) :
  let written :=
    if Api.truthy_number n then Some (JS.Number_toString (Api.get_or 0%Z n)) else None in
  (if Api.truthy_string written then JS.parseInt (Api.get_or "" written) else None)
  = (if Api.truthy_number n then n else None).
Proof.
  destruct n as [n|]; [|reflexivity]. cbn [Api.truthy_number Api.get_or].
  destruct (negb (n =? 0)%Z); [|reflexivity].
  pose proof (parseInt_reads_toString n) as Hp.
  destruct (toString_starts n) as (c & r & E). rewrite E in *.
  exact Hp.
Qed.

Lemma filters_through_the_url (f : Api.Filters.t) :
  Spec.url_safe f ->
  RecipesPage.initialFilters (RecipesPage.url_params f) = Spec.effective f.
Proof.
  intros (Hc & Ht & Hd & _).
  destruct (url_params_get f) as (Es & Ec & Et & Ed & En).
  unfold RecipesPage.initialFilters, Spec.effective.
  rewrite Es, Ec, Et, Ed, En.
  rewrite (list_through_the_url _ Hc), (list_through_the_url _ Ht),
    (list_through_the_url _ Hd), number_through_the_url.
  f_equal. destruct (Api.Filters.search f) as [[|c s]|]; reflexivity.
Qed.

Lemma apply_filters_effective (f : Api.Filters.t) (l : list Api.Recipe) :
  Api.apply_filters (Some (Spec.effective f)) l = Api.apply_filters (Some f) l.
Proof.
  destruct f as [cu ta mp di se]. unfold Api.apply_filters, Spec.effective.
  cbn [Api.Filters.cuisine Api.Filters.tags Api.Filters.maxPrepTime
       Api.Filters.difficulty Api.Filters.search].
  destruct se as [[|c s]|], cu as [[|x1 l1]|], ta as [[|x2 l2]|], di as [[|x3 l3]|];
    cbn [Api.truthy_string Api.truthy_length Api.get_or];
    (destruct mp as [n|]; [|reflexivity]);
    (destruct (Z.eqb_spec n 0) as [->|Hn]; [reflexivity|]);
    apply Z.eqb_neq in Hn; unfold Api.truthy_number; rewrite !Hn; cbn [negb];
    rewrite ?Hn; reflexivity.
Qed.

(** X22.  The filters survive the address of the page: the filters read
    back from the parameters that the page wrote for them select, sort and
    page the same recipes, as long as no value of a list filter holds a
    comma, no list filter is the list of the empty string alone, and the
    bound, a whole number, is below [2^53] in absolute value, where
    [toString] writes all its digits. *)
Theorem filters_survive_the_url :
  forall (parse : string -> JS.TimeValue) (f : Api.Filters.t),
    Spec.url_safe f ->
    forall (mockRecipes : list Api.Recipe) (sort : option Api.Sort.t)
           (limit offset : option Z),
      Api.getMockRecipes parse mockRecipes
        (Some (RecipesPage.initialFilters (RecipesPage.url_params f))) sort limit offset
      = Api.getMockRecipes parse mockRecipes (Some f) sort limit offset.
Proof.
  intros parse f H mockRecipes sort limit offset. unfold Api.getMockRecipes.
  rewrite (filters_through_the_url f H), apply_filters_effective. reflexivity.
Qed.

Lemma filters_survive_the_url_witness :
  Spec.url_safe
    (Api.Filters.mk (Some ["British"; "French"]) (Some []) (Some 30%Z) None (Some ""))
  /\ Api.getMockRecipes Sample.standard_only [Sample.stew; Sample.pie; Sample.souffle]
       (Some (RecipesPage.initialFilters
                (RecipesPage.url_params
                   (Api.Filters.mk (Some ["British"; "French"]) (Some []) (Some 30%Z)
                      None (Some "")))))
       None (Some 12%Z) None
     = Api.getMockRecipes Sample.standard_only [Sample.stew; Sample.pie; Sample.souffle]
         (Some (Api.Filters.mk (Some ["British"; "French"]) (Some []) (Some 30%Z)
                  None (Some "")))
         None (Some 12%Z) None.
Proof.
  split.
  - repeat split; reflexivity.
  - apply (filters_survive_the_url Sample.standard_only). repeat split; reflexivity.
Defined.

(** ** Dates for display *)

Lemma digits_of_step (fuel : nat) (n : Z) (acc : string) :
  JS.digits_of (S fuel) n acc
  = if (n <? 10)%Z then String (JS.char_of_digit (n mod 10)) acc
    else JS.digits_of fuel (n / 10) (String (JS.char_of_digit (n mod 10)) acc).
Proof. reflexivity. Qed.

Lemma toString_nonneg (n : Z) :
  (0 <= n)%Z -> JS.Number_toString n = JS.digits_of (S (Z.to_nat n)) n "".
Proof.
  intros H. unfold JS.Number_toString.
  destruct (Z.ltb_spec n 0); [lia | reflexivity].
Qed.

Lemma padded_two_digits (n : Z) :
  (0 <= n <= 99)%Z -> JS.padStart 2 "0" (JS.Number_toString n) = Spec.two_digits n.
Proof.
  intros H. rewrite toString_nonneg by lia. rewrite digits_of_step.
  unfold Spec.two_digits. destruct (Z.ltb_spec n 10) as [Hlt|Hge].
  - rewrite Z.div_small, Z.mod_small by lia. reflexivity.
  - destruct (Z.to_nat n) as [|fuel] eqn:E; [lia|]. rewrite digits_of_step.
    destruct (Z.ltb_spec (n / 10) 10) as [_|Hbig]; [|Z.div_mod_to_equations; lia].
    rewrite (Z.mod_small (n / 10)) by (Z.div_mod_to_equations; lia). reflexivity.
Qed.

Lemma toString_four_digits (y : Z) :
  (1000 <= y <= 9999)%Z -> JS.Number_toString y = Spec.four_digits y.
Proof.
  intros H. rewrite toString_nonneg by lia.
  assert (E : exists fuel, Z.to_nat y = S (S (S fuel))).
  { exists (Z.to_nat y - 3)%nat. lia. }
  destruct E as (fuel & ->). rewrite !digits_of_step.
  destruct (Z.ltb_spec y 10); [lia|].
  destruct (Z.ltb_spec (y / 10) 10); [Z.div_mod_to_equations; lia|].
  destruct (Z.ltb_spec (y / 10 / 10) 10); [Z.div_mod_to_equations; lia|].
  destruct (Z.ltb_spec (y / 10 / 10 / 10) 10); [|Z.div_mod_to_equations; lia].
  unfold Spec.four_digits, Spec.two_digits. cbn [String.append].
  replace (y / 10 / 10 / 10 mod 10)%Z with (y / 100 / 10)%Z
    by (Z.div_mod_to_equations; lia).
  replace (y / 10 / 10 mod 10)%Z with ((y / 100) mod 10)%Z
    by (Z.div_mod_to_equations; lia).
  replace (y / 10 mod 10)%Z with (y mod 100 / 10)%Z by (Z.div_mod_to_equations; lia).
  replace (y mod 10)%Z with ((y mod 100) mod 10)%Z at 1
    by (Z.div_mod_to_equations; lia).
  reflexivity.
Qed.

Lemma digit_char_is_digit (n : Z) :
  (0 <= n <= 9)%Z -> JS.is_digit (Spec.digit_char n) = true.
Proof. intros H. each_digit n H; reflexivity. Qed.

Lemma test_day_month_year (d m y : Z) :
  (0 <= d <= 99)%Z -> (0 <= m <= 99)%Z -> (0 <= y <= 9999)%Z ->
  JS.test_dd_mm_yyyy (Spec.day_month_year d m y) = true.
Proof.
  intros Hd Hm Hy.
  unfold Spec.day_month_year, Spec.four_digits, Spec.two_digits.
  cbn [String.append JS.test_dd_mm_yyyy].
  rewrite !digit_char_is_digit by (Z.div_mod_to_equations; lia). reflexivity.
Qed.

(** What [formatDateUK] writes for a date that the engine reads. *)
Lemma formatDateUK_of_fields (local_fields : string -> option (Z * Z * Z))
      (s : string) (d m y : Z) :
  s <> "" -> JS.test_dd_mm_yyyy s = false ->
  local_fields s = Some (d, m, y) ->
  (1 <= d <= 31)%Z -> (0 <= m <= 11)%Z -> (1000 <= y <= 9999)%Z ->
  Utils.formatDateUK local_fields s = Spec.day_month_year d (m + 1) y.
Proof.
  intros Hs Ht Hl Hd Hm Hy. unfold Utils.formatDateUK.
  destruct s as [|c s]; [congruence|]. rewrite Ht, Hl.
  rewrite !padded_two_digits, toString_four_digits by lia. reflexivity.
Qed.

(** X23.  [formatDateUK] is idempotent: formatting a formatted date changes
    nothing, when the year that the engine reads has four digits (the day
    is 1 to 31 and the month 0 to 11 for every date). *)
Theorem formatDateUK_is_idempotent :
  forall (local_fields : string -> option (Z * Z * Z)) (dateString : string),
    (forall d m y, local_fields dateString = Some (d, m, y) ->
                   (1 <= d <= 31)%Z /\ (0 <= m <= 11)%Z /\ (1000 <= y <= 9999)%Z) ->
    Utils.formatDateUK local_fields (Utils.formatDateUK local_fields dateString)
    = Utils.formatDateUK local_fields dateString.
Proof.
  intros local_fields s H.
  destruct s as [|c s]; [reflexivity|]. set (t := String c s) in *.
  destruct (JS.test_dd_mm_yyyy t) eqn:Ht.
  - assert (E : Utils.formatDateUK local_fields t = t).
    { unfold Utils.formatDateUK, t. fold t. now rewrite Ht. }
    now rewrite !E.
  - destruct (local_fields t) as [[[d m] y]|] eqn:Hl.
    + destruct (H d m y eq_refl) as (Hd & Hm & Hy).
      rewrite (formatDateUK_of_fields local_fields t d m y) by (assumption || discriminate).
      pose proof (test_day_month_year d (m + 1) y) as Ht'.
      unfold Utils.formatDateUK.
      destruct (Spec.day_month_year d (m + 1) y) as [|c' s'] eqn:E; [reflexivity|].
      rewrite Ht' by lia. reflexivity.
    + assert (E : Utils.formatDateUK local_fields t = t).
      { unfold Utils.formatDateUK, t. fold t. now rewrite Ht, Hl. }
      now rewrite !E.
Qed.

Lemma formatDateUK_is_idempotent_witness :
  Utils.formatDateUK (fun _ => Some (5, 2, 2024)%Z)
    (Utils.formatDateUK (fun _ => Some (5, 2, 2024)%Z) "2024-03-05")
  = Utils.formatDateUK (fun _ => Some (5, 2, 2024)%Z) "2024-03-05"
  /\ Utils.formatDateUK (fun _ => Some (5, 2, 2024)%Z) "2024-03-05" = "05/03/2024".
Proof.
  split; [|reflexivity].
  apply (formatDateUK_is_idempotent (fun _ => Some (5, 2, 2024)%Z) "2024-03-05").
  intros d m y E. injection E as <- <- <-. lia.
Defined.

(** X24.  The sort reads a date that [formatDateUK] wrote as the day it
    shows: for a date of the calendar with a year of four digits, read by
    the engine from a string that is not yet in the form DD/MM/YYYY, the key
    of the sort by date is the time value of that day, month and year. *)
Theorem formatted_date_is_the_sort_key :
  forall (local_fields : string -> option (Z * Z * Z))
         (parse : string -> JS.TimeValue) (dateString : string) (d m y : Z),
    dateString <> "" ->
    JS.test_dd_mm_yyyy dateString = false ->
    local_fields dateString = Some (d, m, y) ->
    Spec.calendar_date d (m + 1) y ->
    (1000 <= y)%Z ->
    Api.date_value parse (Some (Utils.formatDateUK local_fields dateString))
    = Some (JS.MakeDate y (m + 1) d).
Proof.
  intros local_fields parse s d m y Hs Ht Hl Hc Hy.
  pose proof Hc as (Hy' & Hm & Hd).
  assert (JS.DaysInMonth (JS.InLeapYear y) (m + 1) <= 31)%Z.
  { unfold JS.DaysInMonth.
    destruct (m + 1 =? 2)%Z, (JS.InLeapYear y),
      ((m + 1 =? 4) || (m + 1 =? 6) || (m + 1 =? 9) || (m + 1 =? 11))%Z; lia. }
  rewrite (formatDateUK_of_fields local_fields s d m y) by (assumption || lia).
  destruct (date_value_day_month_year parse d (m + 1) y Hc) as [-> ->]. reflexivity.
Qed.

Lemma formatted_date_is_the_sort_key_witness :
  Api.date_value Sample.standard_only
    (Some (Utils.formatDateUK (fun _ => Some (29, 1, 2024)%Z) "February 29, 2024"))
  = Some (JS.MakeDate 2024 2 29).
Proof.
  apply (formatted_date_is_the_sort_key (fun _ => Some (29, 1, 2024)%Z)
           Sample.standard_only "February 29, 2024" 29 1 2024).
  - discriminate.
  - reflexivity.
  - reflexivity.
  - repeat split; apply Z.leb_le; reflexivity.
  - apply Z.leb_le; reflexivity.
Defined.

(** ** Durations for display *)

Lemma digits_of_head (fuel : nat) (n : Z) (acc : string) :
  (0 <= n)%Z ->
  exists c r, JS.digits_of (S fuel) n acc = String c r /\ JS.is_digit c = true.
Proof.
  revert n acc. induction fuel as [|fuel IH]; intros n acc Hn.
  - rewrite digits_of_step. exists (JS.char_of_digit (n mod 10)).
    destruct (n <? 10)%Z; eexists; (split; [reflexivity|]);
      apply char_of_digit_is_digit; Z.div_mod_to_equations; lia.
  - rewrite digits_of_step. destruct (n <? 10)%Z.
    + eexists _, _. split; [reflexivity|].
      apply char_of_digit_is_digit; Z.div_mod_to_equations; lia.
    + apply IH. Z.div_mod_to_equations; lia.
Qed.

Lemma split_sign_of_digit (c : ascii) (r : string) :
  JS.is_digit c = true -> Spec.split_sign (String c r) = (1%Z, String c r).
Proof.
  intros H. destruct c as [[] [] [] [] [] [] [] []]; try discriminate H; reflexivity.
Qed.

Lemma split_sign_positive (s body : string) :
  Spec.split_sign s = (1%Z, body) -> body = s.
Proof.
  unfold Spec.split_sign. destruct s as [|c r]; [now intros [= <-]|].
  destruct c as [[] [] [] [] [] [] [] []]; intros H; inversion H; reflexivity.
Qed.

(** The sign and the digits of a number written by [toString], followed by
    a text that starts with no decimal digit, are read back. *)
Lemma read_number (n : Z) (rest : string) :
  (forall a, JS.digits_prefix 10 rest (Some a) = (Some a, rest)) ->
  exists sign body,
    Spec.split_sign (JS.Number_toString n ++ rest) = (sign, body)
    /\ exists a, JS.digits_prefix 10 body None = (Some a, rest) /\ (sign * a)%Z = n
                 /\ (0 <= a)%Z /\ ((0 <= n)%Z -> sign = 1%Z).
Proof.
  intros Hrest. unfold JS.Number_toString. destruct (Z.ltb_spec n 0) as [Hneg|Hpos].
  - exists (-1)%Z, (JS.digits_of (S (Z.to_nat (- n))) (- n) "" ++ rest).
    split; [reflexivity|]. exists (- n)%Z.
    rewrite digits_of_app, digits_prefix_of_digits by lia.
    cbn [String.append]. rewrite Hrest. repeat split; lia.
  - destruct (digits_of_head (Z.to_nat n) n "" Hpos) as (c & r & E & Hc).
    exists 1%Z, (JS.digits_of (S (Z.to_nat n)) n "" ++ rest). split.
    + rewrite E. cbn [String.append]. now apply split_sign_of_digit.
    + exists n. rewrite digits_of_app, digits_prefix_of_digits by lia.
      cbn [String.append]. rewrite Hrest. repeat split; lia.
Qed.

(** The displayed duration tells the minutes. *)
Lemma read_formatCookingTime (minutes : Z) :
  Spec.read_cooking_time (Utils.formatCookingTime minutes) = Some minutes.
Proof.
  unfold Utils.formatCookingTime, Spec.read_cooking_time.
  destruct (Z.ltb_spec minutes 60) as [Hlt|Hge].
  - destruct (read_number minutes (" min" ++ (if (minutes =? 1)%Z then "" else "s")))
      as (sign & body & -> & a & -> & Ha & _).
    { intros a. destruct (minutes =? 1)%Z; reflexivity. }
    destruct (minutes =? 1)%Z; cbn; now f_equal.
  - destruct (Z.eqb_spec (minutes mod 60) 0) as [Hz|Hnz].
    + destruct (read_number (minutes / 60)
                  (" hour" ++ (if (minutes / 60 =? 1)%Z then "" else "s")))
        as (sign & body & -> & a & -> & Ha & _ & Hs).
      { intros a. destruct (minutes / 60 =? 1)%Z; reflexivity. }
      rewrite Hs in Ha by (Z.div_mod_to_equations; lia).
      destruct (minutes / 60 =? 1)%Z; cbn [String.append String.eqb Ascii.eqb Bool.eqb orb];
        f_equal; Z.div_mod_to_equations; lia.
    + destruct (read_number (minutes mod 60) "m") as (sign' & body' & Es & b & Eb & Hb & _ & Hs').
      { intros a. reflexivity. }
      rewrite Hs' in Hb, Es by (Z.div_mod_to_equations; lia).
      assert (Eb' : JS.digits_prefix 10 (JS.Number_toString (minutes mod 60) ++ "m") None
                    = (Some b, "m")).
      { apply split_sign_positive in Es. now rewrite <- Es. }
      destruct (read_number (minutes / 60)
                  ("h " ++ JS.Number_toString (minutes mod 60) ++ "m"))
        as (sign & body & -> & a & -> & Ha & _ & Hs).
      { intros a. reflexivity. }
      rewrite Hs in Ha by (Z.div_mod_to_equations; lia).
      cbn [String.append String.eqb Ascii.eqb Bool.eqb orb].
      rewrite Eb'. f_equal. Z.div_mod_to_equations; lia.
Qed.

(** X25.  [formatCookingTime] never shows two durations alike: whole
    numbers of minutes that are displayed as the same text are equal. *)
Theorem formatCookingTime_is_injective :
  forall m n : Z,
    Utils.formatCookingTime m = Utils.formatCookingTime n -> m = n.
Proof.
  intros m n H.
  pose proof (read_formatCookingTime m) as Hm.
  rewrite H, read_formatCookingTime in Hm. now injection Hm.
Qed.

Lemma formatCookingTime_is_injective_witness :
  Utils.formatCookingTime 90 = "1h 30m" /\ (60 + 30 = 90)%Z.
Proof.
  split; [reflexivity|].
  apply (formatCookingTime_is_injective (60 + 30) 90). reflexivity.
Defined.

(** ** The direction of the sort *)

Lemma insert_before_last {A : Type} (comparefn : A -> A -> Z) (x y : A) (l : list A) :
  (comparefn x y <= 0)%Z ->
  JS.insert comparefn x (l ++ [y]) = (JS.insert comparefn x l ++ [y])%list.
Proof.
  intros H. induction l as [|z l IH]; cbn [JS.insert app].
  - destruct (Z.ltb_spec 0 (comparefn x y)); [lia | reflexivity].
  - destruct (0 <? comparefn x z)%Z; [now rewrite IH | reflexivity].
Qed.

Lemma insert_at_the_end {A : Type} (comparefn : A -> A -> Z) (x : A) (l : list A) :
  (forall z, In z l -> (0 < comparefn x z)%Z) ->
  JS.insert comparefn x l = (l ++ [x])%list.
Proof.
  induction l as [|z l IH]; intros H; cbn [JS.insert app]; [reflexivity|].
  destruct (Z.ltb_spec 0 (comparefn x z)) as [_|Hle].
  - rewrite IH; [reflexivity|]. intros w Hw. apply H. now right.
  - specialize (H z (or_introl eq_refl)). lia.
Qed.

Lemma ascending_sorted (parse : string -> JS.TimeValue) (field : Api.Sort.Field)
      (l : list Api.Recipe) :
  field <> Api.Sort.datePublished ->
  StronglySorted (fun p q => Api.less parse field q p = false)
    (JS.sort (Api.comparefn parse (Api.Sort.mk field Api.Sort.asc)) l).
Proof.
  intros Hf.
  apply sort_sorted with (domain := fun _ => True); [| | |now apply Forall_forall].
  - intros a b c _ _ _ H1 H2. now apply less_not_after_trans with b.
  - intros x y _ _. unfold Api.comparefn. cbn [Api.Sort.field Api.Sort.direction].
    destruct (Api.less parse field x y) eqn:Hxy; [intros _; now apply less_asym|].
    destruct (Api.less parse field y x); [lia | reflexivity].
  - intros x y _ _. unfold Api.comparefn. cbn [Api.Sort.field Api.Sort.direction].
    destruct (Api.less parse field x y) eqn:Hxy; [lia | reflexivity].
Qed.

(** Inserting into the reversed list, for the descending order, is
    inserting into the list, for the ascending order, when the new recipe
    has a value of its own. *)
Lemma insert_reversed (parse : string -> JS.TimeValue) (field : Api.Sort.Field)
      (x : Api.Recipe) (l : list Api.Recipe) :
  field <> Api.Sort.datePublished ->
  StronglySorted (fun p q => Api.less parse field q p = false) l ->
  (forall y, In y l -> Api.less parse field x y || Api.less parse field y x = true) ->
  JS.insert (Api.comparefn parse (Api.Sort.mk field Api.Sort.desc)) x (rev l)
  = rev (JS.insert (Api.comparefn parse (Api.Sort.mk field Api.Sort.asc)) x l).
Proof.
  intros Hf Hs. induction Hs as [|y l Hs IH Hall]; intros Hc; [reflexivity|].
  cbn [JS.insert rev]. unfold Api.comparefn at 2.
  cbn [Api.Sort.field Api.Sort.direction].
  pose proof (Hc y (or_introl eq_refl)) as Hy.
  destruct (Api.less parse field x y) eqn:Hxy.
  - change (0 <? -1)%Z with false. cbv iota. cbn [rev].
    apply insert_at_the_end. intros z Hz. unfold Api.comparefn.
    cbn [Api.Sort.field Api.Sort.direction].
    assert (Hxz : Api.less parse field x z = true).
    { apply in_app_or in Hz. destruct Hz as [Hz|[<-|[]]]; [|exact Hxy].
      apply in_rev in Hz.
      assert (Hzx : Api.less parse field z x = false).
      { apply less_not_after_trans with y; [exact Hf | now apply less_asym |].
        rewrite Forall_forall in Hall. now apply Hall. }
      specialize (Hc z (or_intror Hz)). rewrite Hzx, orb_false_r in Hc. exact Hc. }
    rewrite Hxz. lia.
  - cbn [orb] in Hy. rewrite Hy. change (0 <? 1)%Z with true. cbv iota. cbn [rev].
    rewrite <- IH by (intros z Hz; apply Hc; now right).
    apply insert_before_last. unfold Api.comparefn.
    cbn [Api.Sort.field Api.Sort.direction]. rewrite Hxy, Hy. lia.
Qed.

(** X26.  Sorting in descending order gives the ascending order reversed,
    for the title, the total time and the difficulty, when no two recipes
    of the list carry the same value in the field (with equal values the
    two differ: each direction keeps such recipes in the order they came
    in). *)
Theorem descending_is_ascending_reversed :
  forall (parse : string -> JS.TimeValue) (field : Api.Sort.Field)
         (l : list Api.Recipe),
    field <> Api.Sort.datePublished ->
    Spec.all_pairs
      (fun p q => Api.less parse field p q || Api.less parse field q p) l = true ->
    Api.apply_sorting parse (Some (Api.Sort.mk field Api.Sort.desc)) l
    = rev (Api.apply_sorting parse (Some (Api.Sort.mk field Api.Sort.asc)) l).
Proof.
  intros parse field l Hf. unfold Api.apply_sorting.
  induction l as [|x l IH]; intros H; [reflexivity|].
  cbn [Spec.all_pairs] in H. apply andb_true_iff in H. destruct H as [Hx Hl].
  change (JS.sort ?c (x :: l)) with (JS.insert c x (JS.sort c l)).
  rewrite (IH Hl). apply insert_reversed; [exact Hf | now apply ascending_sorted |].
  intros y Hy. rewrite forallb_forall in Hx. apply Hx.
  eapply Permutation_in; [apply sort_permutation | exact Hy].
Qed.

Lemma descending_is_ascending_reversed_witness :
  Api.apply_sorting Sample.standard_only
    (Some (Api.Sort.mk Api.Sort.totalTimeMins Api.Sort.desc))
    [Sample.pie; Sample.stew; Sample.souffle]
  = rev (Api.apply_sorting Sample.standard_only
           (Some (Api.Sort.mk Api.Sort.totalTimeMins Api.Sort.asc))
           [Sample.pie; Sample.stew; Sample.souffle])
  /\ Api.apply_sorting Sample.standard_only
       (Some (Api.Sort.mk Api.Sort.totalTimeMins Api.Sort.desc))
       [Sample.pie; Sample.stew; Sample.souffle]
     = [Sample.stew; Sample.pie; Sample.souffle].
Proof.
  split; [|reflexivity].
  apply (descending_is_ascending_reversed Sample.standard_only Api.Sort.totalTimeMins).
  - discriminate.
  - reflexivity.
Defined.

(** X27.  A click on the column of the current sort reverses the
    direction, and a click on another column sorts by it in ascending
    order: so two clicks in a row on one column always give the two
    directions, the second one undoing the first, whatever the sort was. *)
Theorem second_click_reverses_the_direction :
  forall (field : Api.Sort.Field) (prev : Api.Sort.t),
    let once := RecipesPage.handleSortChange field prev in
    let twice := RecipesPage.handleSortChange field once in
    Api.Sort.field once = field /\ Api.Sort.field twice = field
    /\ Api.Sort.direction twice <> Api.Sort.direction once
    /\ RecipesPage.handleSortChange field twice = once
    /\ (Api.Sort.field prev <> field -> Api.Sort.direction once = Api.Sort.asc).
Proof.
  intros field [prev_field direction].
  destruct field, prev_field, direction; cbn;
    repeat split; try discriminate; try reflexivity; intros H; now elim H.
Qed.
